(** * MongoCopy: the batched collection-transfer engine of [src/copyService.js]
      and its command-line driver, embedded in Rocq.

    The development has two halves.  The first gives the data model and the
    operations of the program as executable definitions: JSON text as the
    built-ins [JSON.stringify (v, null, 2)] and [JSON.parse] produce and read
    it, the outside world (the two document stores, the file system, the
    terminal), the [MongoCopyService] class and the [main] function of the
    driver.  The second half states and proves the properties. *)

From Stdlib Require Import ZArith Ascii String DecimalPos DecimalZ.
From stdpp Require Import gmap strings list.

Local Open Scope Z_scope.
Local Open Scope string_scope.
Local Open Scope list_scope.

(* ===================================================================== *)
(** * Part I — definitions                                                *)
(* ===================================================================== *)

(** ** JSON values and JSON text *)

(** A document is a JSON value.  Numbers are restricted to integers and a
    string is a sequence of bytes; an object is the list of its members in
    key order. *)
#[local] Unset Elimination Schemes.
Inductive json : Type :=
| JNull
| JBool (b : bool)
| JNum (z : Z)
| JStr (s : string)
| JArr (xs : list json)
| JObj (ms : list (string * json)).
#[local] Set Elimination Schemes.

(** Text (the contents of a file, the result of [JSON.stringify]) is a list
    of characters. *)
Abbreviation text := (list ascii).

Definition lit (s : string) : text := list_ascii_of_string s.

Definition dquote : ascii := "034"%char.
Definition bslash : ascii := "092"%char.
Definition newline : ascii := "010"%char.

Definition is_ws (c : ascii) : bool :=
  match nat_of_ascii c with
  | 32%nat | 10%nat | 13%nat | 9%nat => true
  | _ => false
  end.

Fixpoint skip_ws (s : text) : text :=
  match s with
  | c :: r => if is_ws c then skip_ws r else s
  | [] => []
  end.

Fixpoint spaces (n : nat) : text :=
  match n with
  | O => []
  | S k => " "%char :: spaces k
  end.

(** *** Numbers *)

Fixpoint text_of_uint (d : Decimal.uint) : text :=
  match d with
  | Decimal.Nil => []
  | Decimal.D0 d => "0"%char :: text_of_uint d
  | Decimal.D1 d => "1"%char :: text_of_uint d
  | Decimal.D2 d => "2"%char :: text_of_uint d
  | Decimal.D3 d => "3"%char :: text_of_uint d
  | Decimal.D4 d => "4"%char :: text_of_uint d
  | Decimal.D5 d => "5"%char :: text_of_uint d
  | Decimal.D6 d => "6"%char :: text_of_uint d
  | Decimal.D7 d => "7"%char :: text_of_uint d
  | Decimal.D8 d => "8"%char :: text_of_uint d
  | Decimal.D9 d => "9"%char :: text_of_uint d
  end.

Definition text_of_Z (z : Z) : text :=
  match Z.to_int z with
  | Decimal.Pos d => text_of_uint d
  | Decimal.Neg d => "-"%char :: text_of_uint d
  end.

Definition digit_of (c : ascii) : option (Decimal.uint -> Decimal.uint) :=
  match nat_of_ascii c with
  | 48%nat => Some Decimal.D0
  | 49%nat => Some Decimal.D1
  | 50%nat => Some Decimal.D2
  | 51%nat => Some Decimal.D3
  | 52%nat => Some Decimal.D4
  | 53%nat => Some Decimal.D5
  | 54%nat => Some Decimal.D6
  | 55%nat => Some Decimal.D7
  | 56%nat => Some Decimal.D8
  | 57%nat => Some Decimal.D9
  | _ => None
  end.

Fixpoint parse_uint (s : text) : Decimal.uint * text :=
  match s with
  | c :: r =>
      match digit_of c with
      | Some D => let '(d, r') := parse_uint r in (D d, r')
      | None => (Decimal.Nil, s)
      end
  | [] => (Decimal.Nil, [])
  end.

Definition parse_number (s : text) : option (Z * text) :=
  match s with
  | c :: r =>
      if Ascii.eqb c "-" then
        match parse_uint r with
        | (Decimal.Nil, _) => None
        | (d, r') => Some (Z.of_int (Decimal.Neg d), r')
        end
      else
        match parse_uint s with
        | (Decimal.Nil, _) => None
        | (d, r') => Some (Z.of_int (Decimal.Pos d), r')
        end
  | [] => None
  end.

(** *** Strings *)

Definition hex_digit (n : nat) : ascii :=
  nth n (lit "0123456789abcdef") "0"%char.

Definition hex_value (c : ascii) : option nat :=
  let n := nat_of_ascii c in
  if (48 <=? n)%nat && (n <=? 57)%nat then Some (n - 48)%nat
  else if (97 <=? n)%nat && (n <=? 102)%nat then Some (n - 87)%nat
  else if (65 <=? n)%nat && (n <=? 70)%nat then Some (n - 55)%nat
  else None.

(** [QuoteJSONString]: the quote, the backslash and the control characters
    are escaped, everything else is copied. *)
Definition escape_char (c : ascii) : text :=
  let n := nat_of_ascii c in
  if (n =? 34)%nat then [bslash; dquote]
  else if (n =? 92)%nat then [bslash; bslash]
  else if (n =? 8)%nat then [bslash; "b"%char]
  else if (n =? 12)%nat then [bslash; "f"%char]
  else if (n =? 10)%nat then [bslash; "n"%char]
  else if (n =? 13)%nat then [bslash; "r"%char]
  else if (n =? 9)%nat then [bslash; "t"%char]
  else if (n <? 32)%nat then
    [bslash; "u"%char; "0"%char; "0"%char;
     hex_digit (n / 16); hex_digit (n mod 16)]
  else [c].

Fixpoint escape (s : string) : text :=
  match s with
  | EmptyString => []
  | String c r => escape_char c ++ escape r
  end.

Definition quote (s : string) : text := dquote :: escape s ++ [dquote].

Definition unescape (e : ascii) : option ascii :=
  match nat_of_ascii e with
  | 34%nat => Some dquote
  | 92%nat => Some bslash
  | 47%nat => Some "/"%char
  | 98%nat => Some "008"%char
  | 102%nat => Some "012"%char
  | 110%nat => Some "010"%char
  | 114%nat => Some "013"%char
  | 116%nat => Some "009"%char
  | _ => None
  end.

Definition unhex4 (h1 h2 h3 h4 : ascii) : option ascii :=
  match hex_value h1, hex_value h2, hex_value h3, hex_value h4 with
  | Some a, Some b, Some c, Some d =>
      let n := (((a * 16 + b) * 16 + c) * 16 + d)%nat in
      if (n <? 256)%nat then Some (ascii_of_nat n) else None
  | _, _, _, _ => None
  end.

(** The characters of a string literal after its opening quote, up to and
    including the closing quote. *)
Fixpoint parse_chars (s : text) : option (string * text) :=
  match s with
  | [] => None
  | c :: r =>
      if Ascii.eqb c dquote then Some (EmptyString, r)
      else if Ascii.eqb c bslash then
        match r with
        | [] => None
        | e :: r1 =>
            if Ascii.eqb e "u" then
              match r1 with
              | h1 :: h2 :: h3 :: h4 :: r2 =>
                  match unhex4 h1 h2 h3 h4 with
                  | Some ch =>
                      match parse_chars r2 with
                      | Some (t, rest) => Some (String ch t, rest)
                      | None => None
                      end
                  | None => None
                  end
              | _ => None
              end
            else
              match unescape e with
              | Some ch =>
                  match parse_chars r1 with
                  | Some (t, rest) => Some (String ch t, rest)
                  | None => None
                  end
              | None => None
              end
        end
      else if (nat_of_ascii c <? 32)%nat then None
      else
        match parse_chars r with
        | Some (t, rest) => Some (String c t, rest)
        | None => None
        end
  end.

(** *** [JSON.stringify (v, null, 2)] *)

Fixpoint stringify_at (ind : nat) (v : json) {struct v} : text :=
  match v with
  | JNull => lit "null"
  | JBool true => lit "true"
  | JBool false => lit "false"
  | JNum z => text_of_Z z
  | JStr s => quote s
  | JArr [] => lit "[]"
  | JArr (x :: xs) =>
      lit "[" ++ newline :: spaces (ind + 2) ++ stringify_at (ind + 2) x ++
      concat (map (fun y =>
                     lit "," ++ newline :: spaces (ind + 2) ++
                     stringify_at (ind + 2) y) xs) ++
      newline :: spaces ind ++ lit "]"
  | JObj [] => lit "{}"
  | JObj ((k, x) :: ms) =>
      lit "{" ++ newline :: spaces (ind + 2) ++ quote k ++ lit ": " ++
      stringify_at (ind + 2) x ++
      concat (map (fun m : string * json =>
                     let (k', y) := m in
                     lit "," ++ newline :: spaces (ind + 2) ++ quote k' ++
                     lit ": " ++ stringify_at (ind + 2) y) ms) ++
      newline :: spaces ind ++ lit "}"
  end.

Definition JSON_stringify (v : json) : text := stringify_at 0 v.

(** The fuel a value needs to be read back. *)
Fixpoint json_size (v : json) : nat :=
  match v with
  | JArr xs => S (list_sum (map (fun x => S (json_size x)) xs))
  | JObj ms =>
      S (list_sum (map (fun m : string * json =>
                          let (_, x) := m in S (json_size x)) ms))
  | _ => 1%nat
  end.

(** The elements of an array after the first one, and the members of an
    object after the first one, as [stringify_at] lays them out. *)
Definition more_elems (k : nat) (l : list json) : text :=
  concat (map (fun y => lit "," ++ newline :: spaces k ++ stringify_at k y) l).

Definition more_members (k : nat) (l : list (string * json)) : text :=
  concat (map (fun m : string * json =>
                 let (k', y) := m in
                 lit "," ++ newline :: spaces k ++ quote k' ++
                 lit ": " ++ stringify_at k y) l).

Definition elems_size (l : list json) : nat :=
  list_sum (map (fun x => S (json_size x)) l).

Definition members_size (l : list (string * json)) : nat :=
  list_sum (map (fun m : string * json => let (_, x) := m in S (json_size x)) l).

(** *** [JSON.parse] *)

Fixpoint expect (w : text) (s : text) : option text :=
  match w, s with
  | [], _ => Some s
  | a :: w', c :: s' => if Ascii.eqb a c then expect w' s' else None
  | _ :: _, [] => None
  end.

Fixpoint parse_value (fuel : nat) (s : text) {struct fuel}
  : option (json * text) :=
  match fuel with
  | O => None
  | S f =>
      match skip_ws s with
      | [] => None
      | c :: r =>
          if Ascii.eqb c "n" then
            match expect (lit "ull") r with
            | Some r' => Some (JNull, r')
            | None => None
            end
          else if Ascii.eqb c "t" then
            match expect (lit "rue") r with
            | Some r' => Some (JBool true, r')
            | None => None
            end
          else if Ascii.eqb c "f" then
            match expect (lit "alse") r with
            | Some r' => Some (JBool false, r')
            | None => None
            end
          else if Ascii.eqb c dquote then
            match parse_chars r with
            | Some (t, r') => Some (JStr t, r')
            | None => None
            end
          else if Ascii.eqb c "[" then
            match skip_ws r with
            | c' :: r' =>
                if Ascii.eqb c' "]" then Some (JArr [], r')
                else
                  match parse_elems f r with
                  | Some (vs, r'') => Some (JArr vs, r'')
                  | None => None
                  end
            | [] => None
            end
          else if Ascii.eqb c "{" then
            match skip_ws r with
            | c' :: r' =>
                if Ascii.eqb c' "}" then Some (JObj [], r')
                else
                  match parse_members f r with
                  | Some (ms, r'') => Some (JObj ms, r'')
                  | None => None
                  end
            | [] => None
            end
          else
            match parse_number (c :: r) with
            | Some (z, r') => Some (JNum z, r')
            | None => None
            end
      end
  end
with parse_elems (fuel : nat) (s : text) {struct fuel}
  : option (list json * text) :=
  match fuel with
  | O => None
  | S f =>
      match parse_value f s with
      | Some (v, r) =>
          match skip_ws r with
          | c :: r' =>
              if Ascii.eqb c "," then
                match parse_elems f r' with
                | Some (vs, r'') => Some (v :: vs, r'')
                | None => None
                end
              else if Ascii.eqb c "]" then Some ([v], r')
              else None
          | [] => None
          end
      | None => None
      end
  end
with parse_members (fuel : nat) (s : text) {struct fuel}
  : option (list (string * json) * text) :=
  match fuel with
  | O => None
  | S f =>
      match skip_ws s with
      | q :: r0 =>
          if Ascii.eqb q dquote then
            match parse_chars r0 with
            | Some (k, r1) =>
                match skip_ws r1 with
                | c1 :: r2 =>
                    if Ascii.eqb c1 ":" then
                      match parse_value f r2 with
                      | Some (v, r) =>
                          match skip_ws r with
                          | c :: r' =>
                              if Ascii.eqb c "," then
                                match parse_members f r' with
                                | Some (ms, r'') => Some ((k, v) :: ms, r'')
                                | None => None
                                end
                              else if Ascii.eqb c "}" then Some ([(k, v)], r')
                              else None
                          | [] => None
                          end
                      | None => None
                      end
                    else None
                | [] => None
                end
            | None => None
            end
          else None
      | [] => None
      end
  end.

(** [JSON.parse]: one value, with nothing but white space after it.  The
    recursion depth never exceeds the length of the text. *)
Definition JSON_parse (s : text) : option json :=
  match parse_value (S (length s)) s with
  | Some (v, r) =>
      match skip_ws r with
      | [] => Some v
      | _ :: _ => None
      end
  | None => None
  end.

(** ** What the round trip of JSON text rests on *)

(** A text that cannot continue a number. *)
Definition no_digit_head (s : text) : Prop :=
  match s with
  | [] => True
  | c :: _ => digit_of c = None
  end.

(** A character a number can start with. *)
Definition num_head (c : ascii) : bool :=
  match digit_of c with
  | Some _ => true
  | None => Ascii.eqb c "-"
  end.

(** A text that starts a value: no white space, no closing bracket. *)
Definition value_head (s : text) : Prop :=
  match s with
  | c :: _ => is_ws c = false /\ Ascii.eqb c "]" = false
  | [] => False
  end.

(** The property proved of every value: it is read back from its own text,
    whatever follows, as soon as what follows cannot extend a number. *)
Definition reads_back (v : json) : Prop :=
  forall ind fuel rest,
    (json_size v <= fuel)%nat -> no_digit_head rest ->
    parse_value fuel (stringify_at ind v ++ rest) = Some (v, rest).

(** ** The outside world

    The program talks to two document stores through the MongoDB driver, to
    the file system, to the terminal (logger, spinner, confirmation prompt)
    and to the process.  Every call that leaves the program is recorded as
    an event; the calls that the driver or the file system may refuse consult
    a fault schedule, so that a property proved for every schedule holds
    whatever fails and whenever. *)

Inductive side : Type := Source | Dest.

Inductive error : Type :=
| DriverError (n : nat)   (* the [n]-th driver or file-system call failed *)
| SyntaxError             (* [JSON.parse] on text that is not JSON *)
| TypeError               (* a method of [undefined]; a non-array to insert *)
| LoadError               (* the service module could not be imported *)
| UnsupportedShape.

Inductive level : Type := LInfo | LWarn | LError | LSuccess.

Inductive message : Type :=
| MsgCancelled
| MsgDryRun (name : string)
| MsgFinished (name : string) (totalDocs : nat)
| MsgFileNotFound (path : string)
| MsgImported (n : nat) (name : string)
| MsgError (e : error)
| MsgMissingEnv
| MsgUsage
| MsgConflict
| MsgConfirmationSkipped
| MsgOperationFinished
| MsgOperationFailed (e : error).

Inductive spin : Type :=
| SpStart
| SpProcessing (name : string)
| SpProgress (name : string) (processed totalDocs : nat)
| SpSucceed
| SpFail.

Inductive event : Type :=
| EvConnect (s : side)
| EvClose (s : side)
| EvListCollections
| EvConfirm (plan : list string)
| EvConfirmAction
| EvCollection (s : side) (name : string)
| EvCount (name : string)
| EvFind (name : string)
| EvHasNext (name : string)
| EvNext (name : string)
| EvInsertMany (name : string) (docs : json)
| EvExists (path : string)
| EvMkdir (path : string)
| EvAppend (path : string) (data : text)
| EvRead (path : string)
| EvLog (l : level) (m : message)
| EvSpinner (s : spin)
| EvHelp
| EvImport.

(** The fields of a [MongoCopyService] object.  The two clients and the two
    database handles are [undefined] until [initClients] assigns them. *)
Record service : Type := Service {
  collections : list string;
  batchSize : Z;
  dryRun : bool;
  yes : bool;
  exportJson : bool;
  importJson : bool;
  outputDir : string;
  sourceClient : bool;
  destClient : bool;
  sourceDb : bool;
  destDb : bool
}.

Record state : Type := State {
  src : list (string * list json);   (* source collections, in store order *)
  dst : gmap string (list json);     (* destination collections *)
  files : gmap string text;
  dirs : gset string;
  answers : list bool;               (* what the user will answer *)
  faults : list nat;                 (* the calls that will fail *)
  clock : nat;                       (* calls made so far *)
  trace : list event;
  self : service                     (* [this] *)
}.

Inductive outcome (A : Type) : Type :=
| Ok (a : A)
| Throw (e : error)
| Exit (code : Z)      (* [process.exit] *)
| Diverge.             (* the loop did not end within the fuel *)
Arguments Ok {A} a.
Arguments Throw {A} e.
Arguments Exit {A} code.
Arguments Diverge {A}.

Definition M (A : Type) : Type := state -> outcome A * state.

Definition ret {A} (a : A) : M A := fun s => (Ok a, s).

Definition bind {A B} (m : M A) (k : A -> M B) : M B :=
  fun s =>
    match m s with
    | (Ok a, s') => k a s'
    | (Throw e, s') => (Throw e, s')
    | (Exit c, s') => (Exit c, s')
    | (Diverge, s') => (Diverge, s')
    end.

Notation "'let*' x ':=' m 'in' k" := (bind m (fun x => k))
  (at level 10, x name, m at level 100, k at level 200).
Notation "m ;; k" := (bind m (fun _ => k))
  (at level 100, k at level 200, right associativity).

Definition throw {A} (e : error) : M A := fun s => (Throw e, s).
Definition process_exit {A} (code : Z) : M A := fun s => (Exit code, s).
Definition diverge {A} : M A := fun s => (Diverge, s).

(** [try { body } catch (err) { handler }] *)
Definition try_catch {A} (body : M A) (handler : error -> M A) : M A :=
  fun s =>
    match body s with
    | (Throw e, s') => handler e s'
    | r => r
    end.

(** [try { body } finally { cleanup }]: the cleanup runs when the body
    returns and when it throws; its own outcome replaces the body's unless it
    returns normally. *)
Definition try_finally {A} (body : M A) (cleanup : M unit) : M A :=
  fun s =>
    match body s with
    | (Ok a, s') =>
        match cleanup s' with
        | (Ok _, s'') => (Ok a, s'')
        | (Throw e, s'') => (Throw e, s'')
        | (Exit c, s'') => (Exit c, s'')
        | (Diverge, s'') => (Diverge, s'')
        end
    | (Throw e, s') =>
        match cleanup s' with
        | (Ok _, s'') => (Throw e, s'')
        | (Throw e', s'') => (Throw e', s'')
        | (Exit c, s'') => (Exit c, s'')
        | (Diverge, s'') => (Diverge, s'')
        end
    | (Exit c, s') => (Exit c, s')
    | (Diverge, s') => (Diverge, s')
    end.

Definition set_trace (t : list event) (s : state) : state :=
  State (src s) (dst s) (files s) (dirs s) (answers s) (faults s) (clock s)
        t (self s).
Definition set_clock (n : nat) (s : state) : state :=
  State (src s) (dst s) (files s) (dirs s) (answers s) (faults s) n
        (trace s) (self s).
Definition set_self (v : service) (s : state) : state :=
  State (src s) (dst s) (files s) (dirs s) (answers s) (faults s) (clock s)
        (trace s) v.
Definition set_dst (d : gmap string (list json)) (s : state) : state :=
  State (src s) d (files s) (dirs s) (answers s) (faults s) (clock s)
        (trace s) (self s).
Definition set_files (f : gmap string text) (s : state) : state :=
  State (src s) (dst s) f (dirs s) (answers s) (faults s) (clock s)
        (trace s) (self s).
Definition set_dirs (d : gset string) (s : state) : state :=
  State (src s) (dst s) (files s) d (answers s) (faults s) (clock s)
        (trace s) (self s).
Definition set_answers (a : list bool) (s : state) : state :=
  State (src s) (dst s) (files s) (dirs s) a (faults s) (clock s)
        (trace s) (self s).

Definition get : M state := fun s => (Ok s, s).
Definition modify (f : state -> state) : M unit := fun s => (Ok tt, f s).
Definition this : M service := fun s => (Ok (self s), s).

Definition emit (e : event) : M unit :=
  modify (fun s => set_trace (trace s ++ [e]) s).

(** One call into the driver or the file system: it takes its turn on the
    clock and fails if the schedule says so. *)
Definition tick : M unit :=
  fun s =>
    let n := clock s in
    if bool_decide (n ∈ faults s) then (Throw (DriverError n), set_clock (S n) s)
    else (Ok tt, set_clock (S n) s).

(** A call whose failure is swallowed ([Promise.allSettled]). *)
Definition tick_settled : M unit := modify (fun s => set_clock (S (clock s)) s).

Definition log (l : level) (m : message) : M unit := emit (EvLog l m).
Definition spinner (sp : spin) : M unit := emit (EvSpinner sp).

Fixpoint for_of {A} (l : list A) (body : A -> M unit) : M unit :=
  match l with
  | [] => ret tt
  | x :: l' => body x ;; for_of l' body
  end.

(** The documents of a source collection; a collection that does not exist
    has none. *)
Fixpoint docs_of (store : list (string * list json)) (name : string)
  : list json :=
  match store with
  | [] => []
  | (n, ds) :: store' => if String.eqb n name then ds else docs_of store' name
  end.

(** Paths are kept as they are written: the normalisation done by
    [path.resolve] and [path.join] is left out, so that the export and the
    import of one collection address the same file. *)
Definition path_resolve (dir : string) : string := dir.
Definition path_join (dir file : string) : string := dir +:+ "/" +:+ file.

(** ** The [MongoCopyService] class *)

(** The values an option can take, as far as the constructor tells them
    apart: absent, or a number. *)
Inductive jsnum : Type := JUndefined | JNaN | JInt (z : Z).

Record options : Type := Options {
  opt_collections : option (list string);
  opt_batchSize : jsnum;
  opt_dryRun : option bool;
  opt_yes : option bool;
  opt_exportJson : option bool;
  opt_importJson : option bool;
  opt_outputDir : option string
}.

(** [x || d] on a number: [undefined], [NaN] and [0] are falsy. *)
Definition num_or (x : jsnum) (d : Z) : Z :=
  match x with
  | JInt z => if Z.eqb z 0 then d else z
  | JUndefined | JNaN => d
  end.

Definition bool_or (x : option bool) (d : bool) : bool :=
  match x with
  | Some true => true
  | Some false | None => d
  end.

(** [x || d] on a string: [undefined] and the empty string are falsy. *)
Definition string_or (x : option string) (d : string) : string :=
  match x with
  | Some EmptyString | None => d
  | Some s => s
  end.

Definition constructor (o : options) : service :=
  {| collections := default [] (opt_collections o);
     batchSize := num_or (opt_batchSize o) 1000;
     dryRun := bool_or (opt_dryRun o) false;
     yes := bool_or (opt_yes o) false;
     exportJson := bool_or (opt_exportJson o) false;
     importJson := bool_or (opt_importJson o) false;
     outputDir := string_or (opt_outputDir o) "./backup";
     sourceClient := false;
     destClient := false;
     sourceDb := false;
     destDb := false |}.

Definition set_clients (sc dc : bool) (v : service) : service :=
  Service (collections v) (batchSize v) (dryRun v) (yes v) (exportJson v)
          (importJson v) (outputDir v) sc dc (sourceDb v) (destDb v).
Definition set_dbs (sd dd : bool) (v : service) : service :=
  Service (collections v) (batchSize v) (dryRun v) (yes v) (exportJson v)
          (importJson v) (outputDir v) (sourceClient v) (destClient v) sd dd.
Definition set_collections (c : list string) (v : service) : service :=
  Service c (batchSize v) (dryRun v) (yes v) (exportJson v)
          (importJson v) (outputDir v) (sourceClient v) (destClient v)
          (sourceDb v) (destDb v).

Definition initClients : M unit :=
  modify (fun s => set_self (set_clients true true (self s)) s) ;;
  emit (EvConnect Source) ;; tick ;;
  emit (EvConnect Dest) ;; tick ;;
  modify (fun s => set_self (set_dbs true true (self s)) s).

(** [client?.close ()] under [Promise.allSettled]: nothing is called on a
    client that was never assigned, and a failure to close is swallowed. *)
Definition close (sd : side) (assigned : bool) : M unit :=
  if assigned then emit (EvClose sd) ;; tick_settled else ret tt.

Definition closeClients : M unit :=
  let* v := this in
  close Source (sourceClient v) ;;
  close Dest (destClient v).

(** The plan [listCollections] computes from the requested names and the
    names the store returns. *)
Definition resolve (requested names : list string) : list string :=
  if bool_decide (length requested = 0%nat) then names
  else filter (fun c => c ∈ names) requested.

Definition listCollections : M (list string) :=
  let* v := this in
  (if sourceDb v then ret tt else throw TypeError) ;;
  emit EvListCollections ;; tick ;;
  let* s := get in
  let names := map fst (src s) in
  let plan := resolve (collections v) names in
  modify (fun s => set_self (set_collections plan (self s)) s) ;;
  ret plan.

(** [db.collection (name)] *)
Definition collection (sd : side) (name : string) : M unit :=
  let* v := this in
  if match sd with Source => sourceDb v | Dest => destDb v end
  then emit (EvCollection sd name)
  else throw TypeError.

Definition countDocuments (name : string) : M nat :=
  emit (EvCount name) ;; tick ;;
  let* s := get in
  ret (length (docs_of (src s) name)).

(** [sourceCol.find ({})]: a cursor over the documents of the collection. *)
Definition find (name : string) : M (list json) :=
  emit (EvFind name) ;;
  let* s := get in
  ret (docs_of (src s) name).

Definition hasNext (name : string) (cursor : list json) : M bool :=
  emit (EvHasNext name) ;; tick ;;
  ret (match cursor with [] => false | _ :: _ => true end).

(** [destCol.insertMany (docs, { ordered: false })] *)
Definition insertMany (name : string) (docs : json) : M unit :=
  emit (EvInsertMany name docs) ;; tick ;;
  match docs with
  | JArr ds =>
      modify (fun s => set_dst (<[name := default [] (dst s !! name) ++ ds]> (dst s)) s)
  | _ => throw TypeError
  end.

Definition exportBatchToJson (batch : list json) (name : string) : M unit :=
  let* v := this in
  let dir := path_resolve (outputDir v) in
  emit (EvExists dir) ;;
  let* s := get in
  (if bool_decide (dir ∈ dirs s) then ret tt
   else emit (EvMkdir dir) ;; tick ;;
        modify (fun s => set_dirs ({[dir]} ∪ dirs s) s)) ;;
  let filePath := path_join dir (name +:+ ".json") in
  let data := JSON_stringify (JArr batch) in
  emit (EvAppend filePath data) ;; tick ;;
  modify (fun s =>
            set_files (<[filePath := default [] (files s !! filePath) ++ data]>
                         (files s)) s).

Definition json_length (j : json) : nat :=
  match j with
  | JArr ds => length ds
  | _ => 0%nat
  end.

Definition importBatchFromJson (name : string) : M unit :=
  let* v := this in
  let filePath := path_join (outputDir v) (name +:+ ".json") in
  emit (EvExists filePath) ;;
  let* s := get in
  match files s !! filePath with
  | None => log LWarn (MsgFileNotFound filePath)
  | Some content =>
      emit (EvRead filePath) ;; tick ;;
      match JSON_parse content with
      | None => throw SyntaxError
      | Some json =>
          collection Dest name ;;
          insertMany name json ;;
          log LSuccess (MsgImported (json_length json) name)
      end
  end.

(** The inner loop of [copyCollection]:
    [for (let i = 0; i < this.batchSize && (await cursor.hasNext ()); i++)
       batch.push (await cursor.next ())]. *)
Fixpoint read_batch (b : Z) (name : string) (i : Z)
    (cursor : list json) (batch : list json) {struct cursor}
  : M (list json * list json) :=
  if Z.ltb i b then
    let* more := hasNext name cursor in
    if more then
      match cursor with
      | d :: rest =>                       (* [cursor.next ()] *)
          emit (EvNext name) ;; tick ;;
          read_batch b name (i + 1) rest (batch ++ [d])
      | [] => ret (batch, cursor)
      end
    else ret (batch, cursor)
  else ret (batch, cursor).

(** The sink of one batch. *)
Definition write_batch (batch : list json) (name : string) : M unit :=
  let* v := this in
  if exportJson v then exportBatchToJson batch name
  else if importJson v then importBatchFromJson name
  else insertMany name (JArr batch).

(** The outer loop of [copyCollection]: [while (await cursor.hasNext ())]. *)
Fixpoint copy_loop (fuel : nat) (name : string) (totalDocs : nat)
    (cursor : list json) (processed : nat) {struct fuel} : M unit :=
  match fuel with
  | O => diverge
  | S fuel' =>
      let* more := hasNext name cursor in
      if more then
        let* v := this in
        let* read := read_batch (batchSize v) name 0 cursor [] in
        let batch := fst read in
        let cursor' := snd read in
        write_batch batch name ;;
        let processed' := (processed + length batch)%nat in
        spinner (SpProgress name processed' totalDocs) ;;
        copy_loop fuel' name totalDocs cursor' processed'
      else ret tt
  end.

Definition copyCollection (fuel : nat) (name : string) : M unit :=
  let* totalDocs := countDocuments name in
  let* cursor := find name in
  copy_loop fuel name totalDocs cursor 0 ;;
  log LSuccess (MsgFinished name totalDocs).

(** [confirm (...)]: the next answer of the user; no answer counts as no. *)
Definition confirm (plan : list string) : M bool :=
  emit (EvConfirm plan) ;; tick ;;
  let* s := get in
  match answers s with
  | [] => ret false
  | a :: rest => modify (set_answers rest) ;; ret a
  end.

(** The body of the [for ... of] loop of [copyCollections]. *)
Definition process_collection (fuel : nat) (name : string) : M unit :=
  spinner (SpProcessing name) ;;
  collection Source name ;;
  collection Dest name ;;
  let* v := this in
  if dryRun v then log LInfo (MsgDryRun name)
  else copyCollection fuel name.

Definition copyCollections (fuel : nat) : M unit :=
  let* plan := listCollections in
  let* v := this in
  let* ok := (if yes v then ret true else confirm plan) in
  if negb ok then log LWarn MsgCancelled
  else
    spinner SpStart ;;
    try_finally
      (try_catch
         (for_of plan (process_collection fuel) ;; spinner SpSucceed)
         (fun err => spinner SpFail ;; log LError (MsgError err)))
      closeClients.


(** ** The command-line driver *)

(** The options [commander] hands to [main].  A flag is present or not; the
    batch size went through [parseInt]. *)
Record cli_opts : Type := CliOpts {
  cli_all : bool;
  cli_collections : option string;
  cli_dryRun : bool;
  cli_batchSize : jsnum;
  cli_yes : bool;
  cli_exportJson : bool;
  cli_importJson : bool;
  cli_outputDir : option string;
  cli_logPath : option string
}.

(** What the configuration module and [process.env] hold. *)
Record environment : Type := Environment {
  env_SOURCE_DB_URI : option string;
  env_TARGET_DB_URI : option string;
  env_DB_NAME : option string;
  env_BATCH_SIZE : jsnum;
  penv_SOURCE_DB_URI : option string;
  penv_TARGET_DB_URI : option string;
  penv_DB_NAME : option string
}.

Definition truthy (x : option string) : bool :=
  match x with
  | Some EmptyString | None => false
  | Some _ => true
  end.

Definition is_space (c : ascii) : bool :=
  match nat_of_ascii c with
  | 9%nat | 10%nat | 11%nat | 12%nat | 13%nat | 32%nat => true
  | _ => false
  end.

Fixpoint trim_start (s : string) : string :=
  match s with
  | String c r => if is_space c then trim_start r else s
  | EmptyString => EmptyString
  end.

(** [s.trim ()] *)
Definition trim (s : string) : string :=
  String.rev (trim_start (String.rev (trim_start s))).

(** [s.split (",")] *)
Fixpoint split_comma (s : string) : list string :=
  match s with
  | EmptyString => [EmptyString]
  | String c r =>
      if Ascii.eqb c "," then EmptyString :: split_comma r
      else
        match split_comma r with
        | w :: ws => String c w :: ws
        | [] => [String c EmptyString]
        end
  end.

Definition nonempty (s : string) : bool :=
  match s with
  | EmptyString => false
  | String _ _ => true
  end.

Definition normalizeCollections (raw : option string) : list string :=
  if truthy raw then
    List.filter nonempty (map trim (split_comma (default EmptyString raw)))
  else [].

(** [Number.isFinite (x) && x > 0 ? x : Number.isFinite (d) ? d : 1000] *)
Definition cli_batch (x d : jsnum) : Z :=
  match x with
  | JInt z => if Z.ltb 0 z then z else match d with JInt e => e | _ => 1000 end
  | _ => match d with JInt e => e | _ => 1000 end
  end.

Definition confirmAction : M bool :=
  emit EvConfirmAction ;; tick ;;
  let* s := get in
  match answers s with
  | [] => ret false
  | a :: rest => modify (set_answers rest) ;; ret a
  end.

Definition dynamicImportCopyService : M unit :=
  try_catch (emit EvImport ;; tick)
    (fun _ => try_catch (emit EvImport ;; tick) (fun _ => throw LoadError)).

(** The object literal [main] passes to [new Service (...)]. *)
Definition service_options (opts : cli_opts) (env : environment) : options :=
  {| opt_collections := Some (normalizeCollections (cli_collections opts));
     opt_batchSize := JInt (cli_batch (cli_batchSize opts) (env_BATCH_SIZE env));
     opt_dryRun := Some (cli_dryRun opts);
     opt_yes := Some (cli_yes opts);
     opt_exportJson := Some (cli_exportJson opts);
     opt_importJson := Some (cli_importJson opts);
     opt_outputDir := Some (string_or (cli_outputDir opts) "./backup") |}.

(** [main], for the service module of this repository: it has no default
    export and exports the class [MongoCopyService], whose instances have
    the methods [initClients], [copyCollections] and [closeClients].  The
    [--log-path] option only sets two variables of [process.env] for the
    logger and has no counterpart here. *)
Definition main (fuel : nat) (opts : cli_opts) (env : environment) : M unit :=
  (if negb (truthy (env_SOURCE_DB_URI env) || truthy (penv_SOURCE_DB_URI env))
      || negb (truthy (env_TARGET_DB_URI env) || truthy (penv_TARGET_DB_URI env))
      || negb (truthy (env_DB_NAME env) || truthy (penv_DB_NAME env))
   then log LError MsgMissingEnv ;; process_exit 1
   else ret tt) ;;
  let all := cli_all opts in
  let collections := normalizeCollections (cli_collections opts) in
  let exportJson := cli_exportJson opts in
  let importJson := cli_importJson opts in
  (if negb all && bool_decide (length collections = 0%nat)
      && negb exportJson && negb importJson
   then log LInfo MsgUsage ;; emit EvHelp ;; process_exit 0
   else ret tt) ;;
  (if exportJson && importJson
   then log LError MsgConflict ;; process_exit 1
   else ret tt) ;;
  (if negb (cli_yes opts) then
     let* ok := confirmAction in
     if negb ok then log LWarn MsgCancelled ;; process_exit 0 else ret tt
   else log LInfo MsgConfirmationSkipped) ;;
  try_catch dynamicImportCopyService
    (fun err => log LError (MsgError err) ;; process_exit 1) ;;
  try_catch
    (modify (set_self (constructor (service_options opts env))) ;;
     initClients ;;
     copyCollections fuel ;;
     closeClients ;;
     log LSuccess MsgOperationFinished ;;
     process_exit 0)
    (fun err => log LError (MsgOperationFailed err) ;; process_exit 1).

(** ** Reading a trace *)

Definition is_close (e : event) : bool :=
  match e with
  | EvClose _ => true
  | _ => false
  end.

Definition is_close_of (sd : side) (e : event) : bool :=
  match e, sd with
  | EvClose Source, Source | EvClose Dest, Dest => true
  | _, _ => false
  end.

(** The calls that write to the destination store. *)
Definition is_store_write (e : event) : bool :=
  match e with
  | EvInsertMany _ _ => true
  | _ => false
  end.

(** The calls that touch the file system. *)
Definition is_file_access (e : event) : bool :=
  match e with
  | EvExists _ | EvMkdir _ | EvAppend _ _ | EvRead _ => true
  | _ => false
  end.

(** The calls made on a collection handle or on its cursor. *)
Definition is_collection_use (e : event) : bool :=
  match e with
  | EvCount _ | EvFind _ | EvHasNext _ | EvNext _ | EvInsertMany _ _ => true
  | _ => false
  end.

(** The calls that obtain a collection handle. *)
Definition is_collection_open (e : event) : bool :=
  match e with
  | EvCollection _ _ => true
  | _ => false
  end.

Definition count_events (p : event -> bool) (t : list event) : nat :=
  length (List.filter p t).

(** The batches handed to [insertMany], in order. *)
Fixpoint inserted (t : list event) : list json :=
  match t with
  | [] => []
  | EvInsertMany _ docs :: t' => docs :: inserted t'
  | _ :: t' => inserted t'
  end.

(** The data handed to [appendFileSync], in order. *)
Fixpoint appended (t : list event) : list (string * text) :=
  match t with
  | [] => []
  | EvAppend path data :: t' => (path, data) :: appended t'
  | _ :: t' => appended t'
  end.

(** The collections whose processing started, in order. *)
Fixpoint processed_names (t : list event) : list string :=
  match t with
  | [] => []
  | EvSpinner (SpProcessing name) :: t' => name :: processed_names t'
  | _ :: t' => processed_names t'
  end.

(** The batches of a collection of documents, [b] at a time (for [b > 0]). *)
Fixpoint batches_of (fuel b : nat) (docs : list json) : list (list json) :=
  match fuel, docs with
  | S fuel', _ :: _ => take b docs :: batches_of fuel' b (drop b docs)
  | _, _ => []
  end.

Definition batches (b : nat) (docs : list json) : list (list json) :=
  batches_of (length docs) b docs.

(** ** Relating the states before and after a run *)

(** What a service is configured with: every field but [collections], which
    [listCollections] overwrites. *)
Definition config (v : service)
  : Z * bool * bool * bool * bool * string * (bool * bool * bool * bool) :=
  (batchSize v, dryRun v, yes v, exportJson v, importJson v, outputDir v,
   (sourceClient v, destClient v, sourceDb v, destDb v)).

(** [step strict P s s']: from [s] to [s'] the trace grew by events that all
    satisfy [P], the source store, the fault schedule and the configuration
    of the service stayed the same, and, when [strict], so did the
    destination store and the file system. *)
Definition step (strict : bool) (P : event -> bool) (s s' : state) : Prop :=
  (exists evs, trace s' = trace s ++ evs /\ forallb P evs = true) /\
  src s' = src s /\ faults s' = faults s /\
  config (self s') = config (self s) /\
  (strict = true -> dst s' = dst s /\ files s' = files s /\ dirs s' = dirs s).

(** [keeps R m]: every run of [m], whatever its outcome, relates the state
    it starts in to the state it ends in. *)
Definition keeps {A} (R : state -> state -> Prop) (m : M A) : Prop :=
  forall s r s', m s = (r, s') -> R s s'.

(** [keeps_from I R m]: the same for the runs that start in a state
    satisfying [I]. *)
Definition keeps_from {A} (I : state -> Prop) (R : state -> state -> Prop)
    (m : M A) : Prop :=
  forall s r s', I s -> m s = (r, s') -> R s s'.

(** The events of the phases of a job. *)
Definition ev_prelude (e : event) : bool :=
  match e with
  | EvListCollections | EvConfirm _ => true
  | _ => false
  end.

Definition ev_read (e : event) : bool :=
  match e with
  | EvHasNext _ | EvNext _ => true
  | _ => false
  end.

(** The events of the batch loop around the sink. *)
Definition ev_loop (e : event) : bool :=
  match e with
  | EvHasNext _ | EvNext _ | EvSpinner (SpProgress _ _ _) => true
  | _ => false
  end.

Definition ev_copy (e : event) : bool :=
  match e with
  | EvCount _ | EvFind _ | EvHasNext _ | EvNext _ | EvInsertMany _ _
  | EvExists _ | EvMkdir _ | EvAppend _ _ | EvRead _
  | EvCollection Dest _ | EvLog _ _ | EvSpinner (SpProgress _ _ _) => true
  | _ => false
  end.

Definition ev_collection (sd : side) (e : event) : bool :=
  match e, sd with
  | EvCollection Source _, Source | EvCollection Dest _, Dest => true
  | _, _ => false
  end.

(** The events of one round of the [for ... of] loop after its first. *)
Definition ev_process (e : event) : bool :=
  match e with
  | EvCollection _ _ => true
  | _ => ev_copy e
  end.

(** The events of a dry run. *)
Definition ev_dry (e : event) : bool :=
  match e with
  | EvListCollections | EvConfirm _ | EvCollection _ _ | EvLog _ _
  | EvSpinner _ | EvClose _ => true
  | _ => false
  end.

(** What one round of the [for ... of] loop emits in a dry run. *)
Definition dry_events (name : string) : list event :=
  [EvSpinner (SpProcessing name); EvCollection Source name;
   EvCollection Dest name; EvLog LInfo (MsgDryRun name)].

(** Every event. *)
Definition ev_any (e : event) : bool := true.

(** The events of the [for ... of] loop. *)
Definition ev_job (e : event) : bool :=
  match e with
  | EvSpinner (SpProcessing _) => true
  | _ => ev_process e
  end.

(** What [closeClients] emits. *)
Definition closes (v : service) : list event :=
  (if sourceClient v then [EvClose Source] else []) ++
  (if destClient v then [EvClose Dest] else []).

(** The sink a service writes to: the one selection made in [copyCollection]. *)
Inductive mode : Type := Live | ExportJson | ImportJson.

Definition mode_of (v : service) : mode :=
  if exportJson v then ExportJson
  else if importJson v then ImportJson
  else Live.

(** ** What the batch loop maintains

    [live_inv name b ins0 dst0 files0 bs s]: in [s], a fault-free state of
    a service in live mode with batch size [b], the batches [bs] have been
    inserted into the collection [name] since the state whose insertions
    were [ins0], whose destination store was [dst0] and whose files were
    [files0]. *)
Definition live_inv (name : string) (b : nat) (ins0 : list json)
    (dst0 : gmap string (list json)) (files0 : gmap string text)
    (bs : list (list json)) (s : state) : Prop :=
  faults s = [] /\ batchSize (self s) = Z.of_nat b /\
  exportJson (self s) = false /\ importJson (self s) = false /\
  inserted (trace s) = ins0 ++ map JArr bs /\
  default [] (dst s !! name) = default [] (dst0 !! name) ++ concat bs /\
  (forall other, other <> name -> dst s !! other = dst0 !! other) /\
  files s = files0.

(** The file of a collection. *)
Definition file_of (v : service) (name : string) : string :=
  path_join (outputDir v) (name +:+ ".json").

Definition is_file_read (e : event) : bool :=
  match e with
  | EvRead _ => true
  | _ => false
  end.

(** [import_inv name b ds ins0 reads0 dst0 files0 bs s]: in [s], a
    fault-free state of a service in import mode whose file for [name] holds
    the array [ds], that array has been read and inserted once for each of
    the batches [bs]. *)
Definition import_inv (name : string) (b : nat) (ds : list json)
    (ins0 : list json) (reads0 : nat)
    (dst0 : gmap string (list json)) (files0 : gmap string text)
    (bs : list (list json)) (s : state) : Prop :=
  faults s = [] /\ batchSize (self s) = Z.of_nat b /\
  exportJson (self s) = false /\ importJson (self s) = true /\
  destDb (self s) = true /\
  files s = files0 /\
  (exists content,
     files0 !! file_of (self s) name = Some content /\
     JSON_parse content = Some (JArr ds)) /\
  inserted (trace s) = ins0 ++ replicate (length bs) (JArr ds) /\
  count_events is_file_read (trace s) = (reads0 + length bs)%nat /\
  default [] (dst s !! name) =
    default [] (dst0 !! name) ++ concat (replicate (length bs) ds) /\
  (forall other, other <> name -> dst s !! other = dst0 !! other).

(** The text an export appends for a sequence of batches. *)
Definition exported (bs : list (list json)) : text :=
  concat (map (fun batch => JSON_stringify (JArr batch)) bs).

(** [export_inv name b app0 dst0 files0 bs s]: in [s], a fault-free state
    of a service in export mode, the batches [bs] have been appended, one
    after the other, to the file of [name], and nothing else was written. *)
Definition export_inv (name : string) (b : nat)
    (app0 : list (string * text))
    (dst0 : gmap string (list json)) (files0 : gmap string text)
    (bs : list (list json)) (s : state) : Prop :=
  faults s = [] /\ batchSize (self s) = Z.of_nat b /\
  exportJson (self s) = true /\
  dst s = dst0 /\
  files s =
    match bs with
    | [] => files0
    | _ :: _ =>
        <[file_of (self s) name :=
            default [] (files0 !! file_of (self s) name) ++ exported bs]> files0
    end /\
  appended (trace s) =
    app0 ++ map (fun batch =>
                   (file_of (self s) name, JSON_stringify (JArr batch))) bs.

(** The state in which the batch loop of [copyCollection] starts when
    neither [countDocuments] nor [find] fails. *)
Definition counted (name : string) (s : state) : state :=
  set_trace (trace s ++ [EvCount name; EvFind name]) (set_clock (S (clock s)) s).

(** ** The words of the specification *)

(** The order-preserving intersection of the requested names with the
    names of the store: the requested names, in the order they were
    requested, without those the store does not have. *)
Fixpoint ordered_intersection (requested actual : list string) : list string :=
  match requested with
  | [] => []
  | r :: requested' =>
      if bool_decide (r ∈ actual)
      then r :: ordered_intersection requested' actual
      else ordered_intersection requested' actual
  end.

(** A falsy batch size: [undefined], [NaN] or [0]. *)
Definition falsy (x : jsnum) : bool :=
  match x with
  | JUndefined | JNaN => true
  | JInt z => Z.eqb z 0
  end.

(** [⌈n / b⌉] *)
Definition ceil_div (n b : nat) : nat := ((n + b - 1) / b)%nat.

(** The size of the last batch of [n] documents taken [b] at a time. *)
Definition last_size (n b : nat) : nat :=
  if (n mod b =? 0)%nat then b else (n mod b)%nat.

(** ** Sample inputs *)

Definition doc (n : Z) : json := JObj [("_id", JNum n); ("name", JStr "x")].

Definition sample_store : list (string * list json) :=
  [("posts", []); ("users", [doc 1; doc 2; doc 3]); ("tags", [doc 7])].

Definition connected (v : service) : service :=
  set_dbs true true (set_clients true true v).

Definition sample_options : options :=
  {| opt_collections := Some ["users"; "ghost"; "posts"];
     opt_batchSize := JInt 2;
     opt_dryRun := None;
     opt_yes := Some true;
     opt_exportJson := None;
     opt_importJson := None;
     opt_outputDir := None |}.

Definition initial (v : service) : state :=
  {| src := sample_store; dst := ∅; files := ∅; dirs := ∅;
     answers := []; faults := []; clock := 0; trace := []; self := v |}.

Definition sample_state : state := initial (connected (constructor sample_options)).

Definition import_options : options :=
  {| opt_collections := None;
     opt_batchSize := JInt 2;
     opt_dryRun := None;
     opt_yes := Some true;
     opt_exportJson := None;
     opt_importJson := Some true;
     opt_outputDir := None |}.

Definition export_options : options :=
  {| opt_collections := None;
     opt_batchSize := JInt 2;
     opt_dryRun := None;
     opt_yes := Some true;
     opt_exportJson := Some true;
     opt_importJson := None;
     opt_outputDir := None |}.

Definition negative_options : options :=
  {| opt_collections := None;
     opt_batchSize := JInt (-5);
     opt_dryRun := None;
     opt_yes := Some true;
     opt_exportJson := Some true;
     opt_importJson := None;
     opt_outputDir := None |}.

Definition backup : list json := [doc 10; doc 11].

Definition sample_files : gmap string text :=
  {[ "./backup/users.json" := JSON_stringify (JArr backup);
     "./backup/posts.json" := JSON_stringify (JArr backup) ]}.

Definition import_state : state :=
  {| src := sample_store; dst := ∅; files := sample_files; dirs := {[ "./backup" ]};
     answers := []; faults := []; clock := 0; trace := [];
     self := connected (constructor import_options) |}.

Definition export_state : state := initial (connected (constructor export_options)).

(** The state of a second export: the file of [tags] is there already. *)
Definition reexport_state : state :=
  {| src := sample_store; dst := ∅;
     files := {[ "./backup/tags.json" := JSON_stringify (JArr [doc 7]) ]};
     dirs := {[ "./backup" ]};
     answers := []; faults := []; clock := 0; trace := [];
     self := connected (constructor export_options) |}.

(** A job of three collections in which the sixth call made for the second
    one, its first [insertMany], fails. *)
Definition abort_options : options :=
  {| opt_collections := Some ["tags"; "users"; "posts"];
     opt_batchSize := JInt 2;
     opt_dryRun := None;
     opt_yes := Some true;
     opt_exportJson := None;
     opt_importJson := None;
     opt_outputDir := None |}.

Definition abort_state : state :=
  {| src := sample_store; dst := ∅; files := ∅; dirs := ∅;
     answers := []; faults := [14%nat]; clock := 0; trace := [];
     self := connected (constructor abort_options) |}.

Definition abort_listed : state := snd (listCollections abort_state).

Definition abort_before : state :=
  snd (for_of ["tags"] (process_collection 4)
         (set_trace (trace abort_listed ++ [EvSpinner SpStart]) abort_listed)).

Definition abort_at : state := snd (process_collection 4 "users" abort_before).

(** A job whose user declines the confirmation, and a job whose
    enumeration fails. *)
Definition asking_options : options :=
  {| opt_collections := None;
     opt_batchSize := JInt 2;
     opt_dryRun := None;
     opt_yes := None;
     opt_exportJson := None;
     opt_importJson := None;
     opt_outputDir := None |}.

Definition declined_state : state :=
  {| src := sample_store; dst := ∅; files := ∅; dirs := ∅;
     answers := [false]; faults := []; clock := 0; trace := [];
     self := connected (constructor asking_options) |}.

Definition unlisted_state : state :=
  {| src := sample_store; dst := ∅; files := ∅; dirs := ∅;
     answers := []; faults := [0%nat]; clock := 0; trace := [];
     self := connected (constructor sample_options) |}.

(** The command line [mongocopy --all --yes --batch-size 2], with the three
    variables set; and the same with both [--export-json] and
    [--import-json]. *)
Definition sample_env : environment :=
  {| env_SOURCE_DB_URI := Some "mongodb://source";
     env_TARGET_DB_URI := Some "mongodb://target";
     env_DB_NAME := Some "db";
     env_BATCH_SIZE := JUndefined;
     penv_SOURCE_DB_URI := None;
     penv_TARGET_DB_URI := None;
     penv_DB_NAME := None |}.

Definition sample_cli : cli_opts :=
  {| cli_all := true; cli_collections := None; cli_dryRun := false;
     cli_batchSize := JInt 2; cli_yes := true;
     cli_exportJson := false; cli_importJson := false;
     cli_outputDir := None; cli_logPath := None |}.

Definition conflicting_cli : cli_opts :=
  {| cli_all := true; cli_collections := None; cli_dryRun := false;
     cli_batchSize := JInt 2; cli_yes := true;
     cli_exportJson := true; cli_importJson := true;
     cli_outputDir := None; cli_logPath := None |}.

Definition fresh_state : state :=
  initial (constructor (Options None JUndefined None None None None None)).

Definition both_flags : options :=
  {| opt_collections := None;
     opt_batchSize := JInt 2;
     opt_dryRun := None;
     opt_yes := Some true;
     opt_exportJson := Some true;
     opt_importJson := Some true;
     opt_outputDir := None |}.

Definition dry_options : options :=
  {| opt_collections := None;
     opt_batchSize := JInt 2;
     opt_dryRun := Some true;
     opt_yes := Some true;
     opt_exportJson := None;
     opt_importJson := None;
     opt_outputDir := None |}.

Definition dry_state : state := initial (connected (constructor dry_options)).

(** ** More ways to relate a run to its outcome *)

(** [grows P s s']: the trace grew by events that all satisfy [P]. *)
Definition grows (P : event -> bool) (s s' : state) : Prop :=
  exists evs, trace s' = trace s ++ evs /\ forallb P evs = true.

(** [exits_in ok m]: when a run of [m] ends in [process.exit], the status
    satisfies [ok]. *)
Definition exits_in {A} (ok : Z -> Prop) (m : M A) : Prop :=
  forall s r s' c, m s = (r, s') -> r = Exit c -> ok c.

(** [never_returns m]: no run of [m] returns normally. *)
Definition never_returns {A} (m : M A) : Prop :=
  forall s r s' a, m s = (r, s') -> r <> Ok a.

(** [never_throws m]: no run of [m] ends in an exception. *)
Definition never_throws {A} (m : M A) : Prop :=
  forall s r s' e, m s = (r, s') -> r <> Throw e.

Definition no_status (c : Z) : Prop := False.

Definition is_connect (e : event) : bool :=
  match e with
  | EvConnect _ => true
  | _ => false
  end.

Definition is_spinner_start (e : event) : bool :=
  match e with
  | EvSpinner SpStart => true
  | _ => false
  end.

(** The events of [main] before the service is asked to copy, and the
    events of the service before its loop starts. *)
Definition ev_early (e : event) : bool :=
  match e with
  | EvLog _ _ | EvConfirmAction | EvHelp | EvImport | EvConnect _
  | EvListCollections | EvConfirm _ => true
  | _ => false
  end.

(** Whether every required variable has a value, and whether the command
    line selects something to do. *)
Definition env_complete (env : environment) : bool :=
  (truthy (env_SOURCE_DB_URI env) || truthy (penv_SOURCE_DB_URI env))
  && (truthy (env_TARGET_DB_URI env) || truthy (penv_TARGET_DB_URI env))
  && (truthy (env_DB_NAME env) || truthy (penv_DB_NAME env)).

Definition selects (opts : cli_opts) : bool :=
  cli_all opts
  || negb (bool_decide (length (normalizeCollections (cli_collections opts)) = 0%nat))
  || cli_exportJson opts || cli_importJson opts.

(** [untouched P s s']: the trace grew by events satisfying [P], and the
    stores and the file system are what they were. *)
Definition untouched (P : event -> bool) (s s' : state) : Prop :=
  grows P s s' /\ src s' = src s /\ dst s' = dst s /\
  files s' = files s /\ dirs s' = dirs s.

(** What [main] does by itself: messages, the help text and its prompt. *)
Definition ev_cli (e : event) : bool :=
  match e with
  | EvLog _ _ | EvHelp | EvConfirmAction => true
  | _ => false
  end.

(** The two halves of [main] after its checks: the confirmation, and the
    loading and the use of the service. *)
Definition main_confirmation (opts : cli_opts) : M unit :=
  if negb (cli_yes opts) then
    let* ok := confirmAction in
    if negb ok then log LWarn MsgCancelled ;; process_exit 0 else ret tt
  else log LInfo MsgConfirmationSkipped.

Definition main_job (fuel : nat) (opts : cli_opts) (env : environment)
  : M unit :=
  modify (set_self (constructor (service_options opts env))) ;;
  initClients ;;
  copyCollections fuel ;;
  closeClients ;;
  log LSuccess MsgOperationFinished ;;
  process_exit 0.

Definition main_service (fuel : nat) (opts : cli_opts) (env : environment)
  : M unit :=
  try_catch dynamicImportCopyService
    (fun err => log LError (MsgError err) ;; process_exit 1) ;;
  try_catch (main_job fuel opts env)
    (fun err => log LError (MsgOperationFailed err) ;; process_exit 1).

(** Whether [main] gets as far as loading the service: the variables are
    there, something is selected, the two file modes are not both asked
    for, and the user agreed or [--yes] was given. *)
Definition cleared (opts : cli_opts) (env : environment) (s : state) : bool :=
  env_complete env && selects opts
  && negb (cli_exportJson opts && cli_importJson opts)
  && (cli_yes opts
      || (negb (bool_decide (clock s ∈ faults s)) && hd false (answers s))).

(** ** One sink per run

    The events a run in a mode can show: a live copy makes no call to the
    file system, an export makes no call to [insertMany] and reads no file,
    an import creates no directory and appends to no file. *)
Definition ev_mode (m : mode) (e : event) : bool :=
  match e, m with
  | (EvExists _ | EvMkdir _ | EvAppend _ _ | EvRead _), Live => false
  | (EvInsertMany _ _ | EvRead _), ExportJson => false
  | (EvMkdir _ | EvAppend _ _), ImportJson => false
  | _, _ => true
  end.

(** What a run in a mode leaves as it is. *)
Definition frame (m : mode) (s s' : state) : Prop :=
  match m with
  | Live | ImportJson => files s' = files s /\ dirs s' = dirs s
  | ExportJson => dst s' = dst s
  end.

Definition step_mode (m : mode) (s s' : state) : Prop :=
  step false (ev_mode m) s s' /\ frame m s s'.

Definition in_mode (m : mode) (s : state) : Prop := mode_of (self s) = m.

Definition is_mkdir (e : event) : bool :=
  match e with
  | EvMkdir _ => true
  | _ => false
  end.

(** ** Progress reports *)

(** The events that are not progress reports. *)
Definition quiet (e : event) : bool :=
  match e with
  | EvSpinner (SpProgress _ _ _) => false
  | _ => true
  end.

(** A progress report, if the event is one, is about [name], gives [total]
    as the number of documents and does not go beyond it. *)
Definition progress_within (name : string) (total : nat) (e : event) : bool :=
  match e with
  | EvSpinner (SpProgress n p t) =>
      String.eqb n name && Nat.eqb t total && Nat.leb p total
  | _ => true
  end.

(** The numbers of processed documents that were reported, in order. *)
Fixpoint reports (t : list event) : list nat :=
  match t with
  | [] => []
  | EvSpinner (SpProgress _ p _) :: t' => p :: reports t'
  | _ :: t' => reports t'
  end.


(** ** An import without its file *)

Definition is_file_not_found (e : event) : bool :=
  match e with
  | EvLog LWarn (MsgFileNotFound _) => true
  | _ => false
  end.

(** [missing_inv name b ins0 reads0 warns0 dst0 files0 bs s]: in [s], a
    fault-free state of a service in import mode for which the file of
    [name] does not exist, one warning was issued for each of the batches
    [bs], and nothing was read or inserted. *)
Definition missing_inv (name : string) (b : nat) (ins0 : list json)
    (reads0 warns0 : nat)
    (dst0 : gmap string (list json)) (files0 : gmap string text)
    (bs : list (list json)) (s : state) : Prop :=
  faults s = [] /\ batchSize (self s) = Z.of_nat b /\
  exportJson (self s) = false /\ importJson (self s) = true /\
  files s = files0 /\ files0 !! file_of (self s) name = None /\
  dst s = dst0 /\
  inserted (trace s) = ins0 /\
  count_events is_file_read (trace s) = reads0 /\
  count_events is_file_not_found (trace s) = (warns0 + length bs)%nat.

(** ** The directory of an export *)

(** [mkdir_inv name b dir dirs0 mk0 bs s]: in [s], a fault-free state of a
    service in export mode with output directory [dir], the directory was
    created when the first of the batches [bs] was written, if it was not
    there, and not again. *)
Definition mkdir_inv (b : nat) (dir : string) (dirs0 : gset string)
    (mk0 : nat) (bs : list (list json)) (s : state) : Prop :=
  faults s = [] /\ batchSize (self s) = Z.of_nat b /\
  exportJson (self s) = true /\ outputDir (self s) = dir /\
  match bs with
  | [] => dirs s = dirs0 /\ count_events is_mkdir (trace s) = mk0
  | _ :: _ =>
      dirs s = {[dir]} ∪ dirs0 /\
      count_events is_mkdir (trace s) =
        (mk0 + if bool_decide (dir ∈ dirs0) then 0 else 1)%nat
  end.

(** ** Names on the command line *)




(** ** A whole job *)

(** What a plan copies into the collection [name]: the documents of the
    source collection of that name, once for each time the plan names it. *)
Definition copies_of (plan : list string) (store : list (string * list json))
    (name : string) : list json :=
  concat (map (fun n => if String.eqb n name then docs_of store n else []) plan).

(** A connected service in live mode, in a state in which no call fails,
    with rounds enough for every collection. *)
Definition live_ready (fuel : nat) (s : state) : Prop :=
  faults s = [] /\ dryRun (self s) = false /\
  exportJson (self s) = false /\ importJson (self s) = false /\
  sourceDb (self s) = true /\ destDb (self s) = true /\
  0 < batchSize (self s) /\
  forall name, (length (docs_of (src s) name) < fuel)%nat.

(** ** More sample inputs *)

(** A request for collections the store does not have. *)
(** The state of an import that follows the export of [tags] from
    [export_state]: the files are those the export left. *)
Definition restore_state : state :=
  {| src := sample_store; dst := ∅;
     files := files (snd (copyCollection 4 "tags" export_state));
     dirs := {[ "./backup" ]};
     answers := []; faults := []; clock := 0; trace := [];
     self := connected (constructor import_options) |}.

(** An import for which no file is there. *)
Definition unfiled_state : state :=
  initial (connected (constructor import_options)).


Definition missing_options : options :=
  {| opt_collections := Some ["ghost"; "nobody"];
     opt_batchSize := JInt 2;
     opt_dryRun := None;
     opt_yes := Some true;
     opt_exportJson := None;
     opt_importJson := None;
     opt_outputDir := None |}.

Definition missing_state : state := initial (connected (constructor missing_options)).

(** A service on which [initClients] was not called. *)
Definition unconnected_state : state := initial (constructor sample_options).

(** The same, when the first, or the second, call to the driver fails. *)
Definition failing_state (n : nat) : state :=
  {| src := sample_store; dst := ∅; files := ∅; dirs := ∅;
     answers := []; faults := [n]; clock := 0; trace := [];
     self := constructor sample_options |}.

(* ===================================================================== *)
(** * Part II — properties                                                *)
(* ===================================================================== *)

(** ** JSON text: what is written is read back *)

Example stringify_example :
  JSON_stringify (JArr [JObj [("a", JNum 1); ("b", JStr "x")]; JArr []]) =
  lit "[" ++ newline :: lit "  {" ++ newline :: lit "    " ++ dquote :: lit "a" ++ dquote :: lit ": 1," ++
  newline :: lit "    " ++ dquote :: lit "b" ++ dquote :: lit ": " ++ dquote :: lit "x" ++ dquote ::
  newline :: lit "  }," ++ newline :: lit "  []" ++ newline :: lit "]".
Proof. reflexivity. Qed.

Example parse_example :
  JSON_parse (JSON_stringify (JArr [JObj [("a", JNum (-12)); ("b", JStr "x")]; JArr []; JNull]))
  = Some (JArr [JObj [("a", JNum (-12)); ("b", JStr "x")]; JArr []; JNull]).
Proof. vm_compute. reflexivity. Qed.

Lemma json_ind (P : json -> Prop)
  (Hnull : P JNull) (Hbool : forall b, P (JBool b)) (Hnum : forall z, P (JNum z))
  (Hstr : forall s, P (JStr s))
  (Harr : forall xs, Forall P xs -> P (JArr xs))
  (Hobj : forall ms, Forall (fun m => P (snd m)) ms -> P (JObj ms)) :
  forall v, P v.
Proof.
  fix IH 1. intros [ | b | z | s | xs | ms ].
  - exact Hnull.
  - exact (Hbool b).
  - exact (Hnum z).
  - exact (Hstr s).
  - apply Harr. induction xs as [ | x xs IHxs ]; constructor;
      [ apply IH | exact IHxs ].
  - apply Hobj. induction ms as [ | [k x] ms IHms ]; constructor;
      [ apply IH | exact IHms ].
Qed.

Lemma stringify_arr_cons ind x xs :
  stringify_at ind (JArr (x :: xs)) =
  lit "[" ++ newline :: spaces (ind + 2) ++ stringify_at (ind + 2) x ++
  more_elems (ind + 2) xs ++ newline :: spaces ind ++ lit "]".
Proof.
  reflexivity.
Qed.

Lemma stringify_obj_cons ind k x ms :
  stringify_at ind (JObj ((k, x) :: ms)) =
  lit "{" ++ newline :: spaces (ind + 2) ++ quote k ++ lit ": " ++
  stringify_at (ind + 2) x ++
  more_members (ind + 2) ms ++ newline :: spaces ind ++ lit "}".
Proof.
  reflexivity.
Qed.

Lemma json_size_arr xs : json_size (JArr xs) = S (elems_size xs).
Proof.
  reflexivity.
Qed.

Lemma json_size_obj ms : json_size (JObj ms) = S (members_size ms).
Proof.
  reflexivity.
Qed.

Ltac norm_app :=
  repeat first [ rewrite <- app_assoc
               | progress (cbn [app lit list_ascii_of_string]) ].

Ltac ascii_cases c :=
  destruct c as [[|] [|] [|] [|] [|] [|] [|] [|]].

Lemma parse_uint_text d rest :
  no_digit_head rest -> parse_uint (text_of_uint d ++ rest) = (d, rest).
Proof.
  intros Hrest.
  induction d; cbn [text_of_uint app parse_uint];
    try (rewrite IHd; reflexivity).
  destruct rest as [ | c r ]; [ reflexivity | ].
  cbn [parse_uint]. cbn in Hrest. rewrite Hrest. reflexivity.
Qed.

Lemma to_int_cases z :
  (exists d, Z.to_int z = Decimal.Pos d /\ d <> Decimal.Nil) \/
  (exists d, Z.to_int z = Decimal.Neg d /\ d <> Decimal.Nil).
Proof.
  destruct z as [ | p | p ]; cbn [Z.to_int].
  - left. eexists. split; [ reflexivity | discriminate ].
  - left. eexists. split; [ reflexivity | apply Unsigned.to_uint_nonnil ].
  - right. eexists. split; [ reflexivity | apply Unsigned.to_uint_nonnil ].
Qed.

Lemma text_of_uint_head d :
  d <> Decimal.Nil ->
  exists c r, text_of_uint d = c :: r /\ Ascii.eqb c "-" = false /\
              exists D, digit_of c = Some D.
Proof.
  intros Hd. destruct d; [ contradiction | .. ]; cbn [text_of_uint];
    do 2 eexists; (split; [ reflexivity | ]); (split; [ reflexivity | ]);
    eexists; reflexivity.
Qed.

Lemma parse_number_text z rest :
  no_digit_head rest -> parse_number (text_of_Z z ++ rest) = Some (z, rest).
Proof.
  intros Hrest. unfold text_of_Z.
  pose proof (DecimalZ.of_to z) as Hz.
  destruct (to_int_cases z) as [ (d & E & Hd) | (d & E & Hd) ];
    rewrite E in *; rewrite <- Hz.
  - destruct (text_of_uint_head d Hd) as (c & r & Ec & Hminus & D & HD).
    pose proof (parse_uint_text d rest Hrest) as Hp.
    rewrite Ec in *. cbn [app] in *. unfold parse_number. rewrite Hminus, Hp.
    destruct d; [ contradiction | reflexivity .. ].
  - cbn [app]. unfold parse_number.
    change (Ascii.eqb "-" "-") with true. cbv iota.
    rewrite (parse_uint_text d rest Hrest).
    destruct d; [ contradiction | reflexivity .. ].
Qed.

Lemma num_head_dispatch c :
  num_head c = true ->
  is_ws c = false /\ Ascii.eqb c "]" = false /\ Ascii.eqb c "n" = false /\
  Ascii.eqb c "t" = false /\ Ascii.eqb c "f" = false /\
  Ascii.eqb c dquote = false /\ Ascii.eqb c "[" = false /\
  Ascii.eqb c "{" = false.
Proof.
  ascii_cases c; intros H; vm_compute in H; try discriminate H;
    vm_compute; repeat split.
Qed.

Lemma text_of_Z_head z :
  exists c r, text_of_Z z = c :: r /\ num_head c = true.
Proof.
  unfold text_of_Z.
  destruct (to_int_cases z) as [ (d & E & Hd) | (d & E & Hd) ]; rewrite E.
  - destruct (text_of_uint_head d Hd) as (c & r & Ec & _ & D & HD).
    exists c, r. split; [ exact Ec | ]. unfold num_head. rewrite HD. reflexivity.
  - do 2 eexists. split; reflexivity.
Qed.

(** Strings. *)

Lemma parse_chars_escape_char c t :
  parse_chars (escape_char c ++ t) =
  match parse_chars t with
  | Some (u, rest) => Some (String c u, rest)
  | None => None
  end.
Proof.
  ascii_cases c; reflexivity.
Qed.

Lemma parse_chars_escape s rest :
  parse_chars (escape s ++ dquote :: rest) = Some (s, rest).
Proof.
  induction s as [ | c s IHs ]; [ reflexivity | ].
  cbn [escape]. rewrite <- app_assoc, parse_chars_escape_char, IHs.
  reflexivity.
Qed.

Lemma parse_chars_quote s rest :
  parse_chars (escape s ++ [dquote] ++ rest) = Some (s, rest).
Proof. apply parse_chars_escape. Qed.

(** White space and the first character of a value. *)

Lemma skip_ws_spaces n s : skip_ws (spaces n ++ s) = skip_ws s.
Proof. induction n as [ | n IHn ]; [ reflexivity | exact IHn ]. Qed.

Lemma skip_ws_indent n s : skip_ws (newline :: spaces n ++ s) = skip_ws s.
Proof. exact (skip_ws_spaces n s). Qed.

Lemma skip_ws_value s : value_head s -> skip_ws s = s.
Proof.
  destruct s as [ | c r ]; [ reflexivity | ].
  intros [Hws _]. cbn [skip_ws]. rewrite Hws. reflexivity.
Qed.

Lemma skip_ws_idem s : skip_ws (skip_ws s) = skip_ws s.
Proof.
  induction s as [ | c r IHr ]; [ reflexivity | ].
  cbn [skip_ws]. destruct (is_ws c) eqn:E; [ exact IHr | ].
  cbn [skip_ws]. rewrite E. reflexivity.
Qed.

Lemma parse_value_skip f s : parse_value f (skip_ws s) = parse_value f s.
Proof.
  destruct f as [ | f ]; [ reflexivity | ].
  cbn [parse_value]. rewrite skip_ws_idem. reflexivity.
Qed.

Lemma parse_value_indent f n s :
  parse_value f (newline :: spaces n ++ s) = parse_value f s.
Proof.
  rewrite <- parse_value_skip, skip_ws_indent. apply parse_value_skip.
Qed.

Lemma stringify_head ind v rest : value_head (stringify_at ind v ++ rest).
Proof.
  destruct v as [ | [ | ] | z | s | [ | x xs ] | [ | [k x] ms ] ];
    try (split; reflexivity).
  cbn [stringify_at].
  destruct (text_of_Z_head z) as (c & r & E & Hc). rewrite E.
  apply num_head_dispatch in Hc. cbn. tauto.
Qed.

Lemma more_elems_cons k y l t :
  more_elems k (y :: l) ++ t =
  ","%char :: newline :: spaces k ++ stringify_at k y ++ more_elems k l ++ t.
Proof.
  unfold more_elems. cbn [map concat lit list_ascii_of_string app].
  rewrite <- !app_assoc. reflexivity.
Qed.

Lemma more_members_cons k k' y l t :
  more_members k ((k', y) :: l) ++ t =
  ","%char :: newline :: spaces k ++ quote k' ++ ":"%char :: " "%char ::
  stringify_at k y ++ more_members k l ++ t.
Proof.
  unfold more_members. cbn [map concat lit list_ascii_of_string app].
  rewrite <- !app_assoc. reflexivity.
Qed.

Lemma elems_size_cons x l : elems_size (x :: l) = S (json_size x + elems_size l).
Proof. reflexivity. Qed.

Lemma members_size_cons k x l :
  members_size ((k, x) :: l) = S (json_size x + members_size l).
Proof. reflexivity. Qed.

Lemma no_digit_head_more_elems k l n t :
  no_digit_head (more_elems k l ++ newline :: spaces n ++ t).
Proof. destruct l; [ reflexivity | rewrite more_elems_cons; reflexivity ]. Qed.

Lemma no_digit_head_more_members k l n t :
  no_digit_head (more_members k l ++ newline :: spaces n ++ t).
Proof.
  destruct l as [ | [k' y] l ]; [ reflexivity | ].
  rewrite more_members_cons; reflexivity.
Qed.

Lemma parse_elems_text k ind rest xs :
  Forall reads_back xs ->
  forall x f, reads_back x -> (S (json_size x + elems_size xs) <= f)%nat ->
  parse_elems f (newline :: spaces k ++ stringify_at k x ++
                 more_elems k xs ++ newline :: spaces ind ++ "]"%char :: rest)
  = Some (x :: xs, rest).
Proof.
  induction 1 as [ | y l Hy Hl IHl ]; intros x f Hx Hf;
    (destruct f as [ | f ]; [ lia | ]); cbn [parse_elems];
    rewrite parse_value_indent.
  - rewrite Hx; [ | cbn [elems_size map list_sum] in Hf; lia
                  | apply no_digit_head_more_elems ].
    cbn [more_elems map concat app]. rewrite skip_ws_indent. reflexivity.
  - rewrite Hx; [ | rewrite elems_size_cons in Hf; lia
                  | apply no_digit_head_more_elems ].
    rewrite more_elems_cons. cbn [skip_ws]. change (is_ws ",") with false.
    cbv iota. change (Ascii.eqb "," ",") with true. cbv iota.
    rewrite IHl; [ reflexivity | exact Hy | rewrite elems_size_cons in Hf; lia ].
Qed.

Lemma quote_app s t : quote s ++ t = dquote :: escape s ++ dquote :: t.
Proof. unfold quote. cbn [app]. rewrite <- app_assoc. reflexivity. Qed.

Lemma parse_value_space f s : parse_value f (" "%char :: s) = parse_value f s.
Proof. rewrite <- parse_value_skip. cbn [skip_ws]. apply parse_value_skip. Qed.

Lemma parse_members_text k ind rest ms :
  Forall (fun m : string * json => reads_back (snd m)) ms ->
  forall k0 x f, reads_back x -> (S (json_size x + members_size ms) <= f)%nat ->
  parse_members f (newline :: spaces k ++ quote k0 ++ ":"%char :: " "%char ::
                   stringify_at k x ++ more_members k ms ++
                   newline :: spaces ind ++ "}"%char :: rest)
  = Some ((k0, x) :: ms, rest).
Proof.
  induction 1 as [ | [k1 y] l Hy Hl IHl ]; intros k0 x f Hx Hf;
    (destruct f as [ | f ]; [ lia | ]); cbn [parse_members];
    rewrite skip_ws_indent, quote_app; cbn [skip_ws];
    change (is_ws dquote) with false; cbv iota;
    change (Ascii.eqb dquote dquote) with true; cbv iota;
    rewrite parse_chars_escape; cbn [skip_ws];
    change (is_ws ":") with false; cbv iota;
    change (Ascii.eqb ":" ":") with true; cbv iota;
    rewrite parse_value_space.
  - rewrite Hx; [ | cbn [members_size map list_sum] in Hf; lia
                  | apply no_digit_head_more_members ].
    cbn [more_members map concat app]. rewrite skip_ws_indent. reflexivity.
  - rewrite Hx; [ | rewrite members_size_cons in Hf; lia
                  | apply no_digit_head_more_members ].
    rewrite more_members_cons. cbn [skip_ws]. change (is_ws ",") with false.
    cbv iota. change (Ascii.eqb "," ",") with true. cbv iota.
    rewrite IHl; [ reflexivity | exact Hy | rewrite members_size_cons in Hf; lia ].
Qed.

Lemma reads_back_all v : reads_back v.
Proof.
  induction v as [ | b | z | s | xs IH | ms IH ] using json_ind;
    intros ind fuel rest Hfuel Hrest;
    (destruct fuel as [ | f ]; [ cbn in Hfuel; lia | ]).
  - reflexivity.
  - destruct b; reflexivity.
  - cbn [stringify_at parse_value].
    destruct (text_of_Z_head z) as (c & r & E & Hc).
    pose proof (parse_number_text z rest Hrest) as Hp.
    rewrite E in *. cbn [app] in *.
    apply num_head_dispatch in Hc.
    destruct Hc as (Hws & _ & Hn & Ht & Hf & Hq & Ha & Ho).
    cbn [skip_ws]. rewrite Hws, Hn, Ht, Hf, Hq, Ha, Ho, Hp. reflexivity.
  - cbn [stringify_at parse_value]. rewrite quote_app. cbn [skip_ws].
    change (is_ws dquote) with false. cbv iota.
    change (Ascii.eqb dquote "n") with false.
    change (Ascii.eqb dquote "t") with false.
    change (Ascii.eqb dquote "f") with false.
    change (Ascii.eqb dquote dquote) with true. cbv iota.
    rewrite parse_chars_escape. reflexivity.
  - destruct IH as [ | x xs Hx Hxs ]; [ reflexivity | ].
    rewrite json_size_arr, elems_size_cons in Hfuel.
    rewrite stringify_arr_cons. norm_app.
    cbn [parse_value skip_ws].
    change (is_ws "[") with false. cbv iota.
    change (Ascii.eqb "[" "n") with false.
    change (Ascii.eqb "[" "t") with false.
    change (Ascii.eqb "[" "f") with false.
    change (Ascii.eqb "[" dquote) with false.
    change (Ascii.eqb "[" "[") with true. cbv iota.
    rewrite skip_ws_indent.
    pose proof (stringify_head (ind + 2) x
      (more_elems (ind + 2) xs ++ newline :: spaces ind ++ "]"%char :: rest)) as Hh.
    rewrite (skip_ws_value _ Hh).
    rewrite (parse_elems_text (ind + 2) ind rest xs Hxs x f Hx) by lia.
    destruct (stringify_at (ind + 2) x ++ _) as [ | c r ]; [ destruct Hh | ].
    destruct Hh as [_ Hc]. rewrite Hc. reflexivity.
  - destruct IH as [ | [k x] ms Hx Hms ]; [ reflexivity | ].
    rewrite json_size_obj, members_size_cons in Hfuel.
    rewrite stringify_obj_cons. norm_app.
    cbn [parse_value skip_ws].
    change (is_ws "{") with false. cbv iota.
    change (Ascii.eqb "{" "n") with false.
    change (Ascii.eqb "{" "t") with false.
    change (Ascii.eqb "{" "f") with false.
    change (Ascii.eqb "{" dquote) with false.
    change (Ascii.eqb "{" "[") with false.
    change (Ascii.eqb "{" "{") with true. cbv iota.
    rewrite skip_ws_indent, quote_app. cbn [skip_ws].
    change (is_ws dquote) with false. cbv iota.
    change (Ascii.eqb dquote "}") with false. cbv iota.
    rewrite <- quote_app.
    rewrite (parse_members_text (ind + 2) ind rest ms Hms k x f Hx) by lia.
    reflexivity.
Qed.

(** The text of a value is at least as long as the fuel it needs. *)

Lemma elems_size_length k xs :
  Forall (fun v => forall ind, (json_size v <= length (stringify_at ind v))%nat) xs ->
  (elems_size xs <= length (more_elems k xs))%nat.
Proof.
  induction 1 as [ | y l Hy Hl IHl ]; [ reflexivity | ].
  rewrite elems_size_cons, <- (app_nil_r (more_elems k (y :: l))),
    more_elems_cons, app_nil_r.
  cbn [length]. rewrite !length_app. specialize (Hy k). lia.
Qed.

Lemma members_size_length k ms :
  Forall (fun m : string * json =>
            forall ind, (json_size (snd m) <= length (stringify_at ind (snd m)))%nat) ms ->
  (members_size ms <= length (more_members k ms))%nat.
Proof.
  induction 1 as [ | [k' y] l Hy Hl IHl ]; [ reflexivity | ].
  rewrite members_size_cons, <- (app_nil_r (more_members k ((k', y) :: l))),
    more_members_cons, app_nil_r.
  cbn [length]. rewrite !length_app. cbn [length]. rewrite !length_app.
  specialize (Hy k). cbn [snd] in Hy. lia.
Qed.

Lemma json_size_length v ind : (json_size v <= length (stringify_at ind v))%nat.
Proof.
  revert ind.
  induction v as [ | b | z | s | xs IH | ms IH ] using json_ind; intros ind.
  - cbn. lia.
  - destruct b; cbn; lia.
  - cbn [json_size stringify_at].
    destruct (text_of_Z_head z) as (c & r & E & _). rewrite E. cbn. lia.
  - cbn [json_size stringify_at quote length]. lia.
  - destruct IH as [ | x xs Hx Hxs ]; [ cbn; lia | ].
    rewrite json_size_arr, elems_size_cons, stringify_arr_cons.
    pose proof (elems_size_length (ind + 2) xs Hxs).
    specialize (Hx (ind + 2)%nat).
    norm_app. cbn [length]. rewrite !length_app. lia.
  - destruct IH as [ | [k x] ms Hx Hms ]; [ cbn; lia | ].
    rewrite json_size_obj, members_size_cons, stringify_obj_cons.
    pose proof (members_size_length (ind + 2) ms Hms).
    specialize (Hx (ind + 2)%nat). cbn [snd] in Hx.
    norm_app. cbn [length]. rewrite !length_app. cbn [length].
    rewrite !length_app. lia.
Qed.

(** [JSON.parse] reads a value back from its [JSON.stringify] text. *)
Lemma JSON_parse_stringify v : JSON_parse (JSON_stringify v) = Some v.
Proof.
  unfold JSON_parse, JSON_stringify.
  pose proof (json_size_length v 0).
  rewrite <- (app_nil_r (stringify_at 0 v)) at 2.
  rewrite reads_back_all; [ reflexivity | lia | exact I ].
Qed.

(** [JSON.parse] rejects a value followed by anything that is not white
    space: two serialisations written one after the other are not JSON. *)
Lemma JSON_parse_trailing v c t :
  is_ws c = false -> digit_of c = None ->
  JSON_parse (JSON_stringify v ++ c :: t) = None.
Proof.
  intros Hws Hdig. unfold JSON_parse, JSON_stringify.
  pose proof (json_size_length v 0).
  rewrite reads_back_all; [ | rewrite length_app; lia | exact Hdig ].
  cbn [skip_ws]. rewrite Hws. reflexivity.
Qed.

Lemma JSON_parse_two_arrays xs ys t :
  JSON_parse (JSON_stringify (JArr xs) ++ JSON_stringify (JArr ys) ++ t) = None.
Proof.
  unfold JSON_stringify at 2.
  destruct ys as [ | y ys ]; [ | rewrite stringify_arr_cons ]; norm_app;
    apply JSON_parse_trailing; reflexivity.
Qed.

(** ** The monad: how runs compose *)

Section Keeps.
Variable R : state -> state -> Prop.
Hypothesis R_refl : forall s, R s s.
Hypothesis R_trans : forall s1 s2 s3, R s1 s2 -> R s2 s3 -> R s1 s3.

Lemma keeps_ret {A} (a : A) : keeps R (ret a).
Proof using R_refl. intros s r s' [= <- <-]. apply R_refl. Qed.

Lemma keeps_throw {A} e : keeps R (@throw A e).
Proof using R_refl. intros s r s' [= <- <-]. apply R_refl. Qed.

Lemma keeps_exit {A} c : keeps R (@process_exit A c).
Proof using R_refl. intros s r s' [= <- <-]. apply R_refl. Qed.

Lemma keeps_diverge {A} : keeps R (@diverge A).
Proof using R_refl. intros s r s' [= <- <-]. apply R_refl. Qed.

Lemma keeps_get : keeps R get.
Proof using R_refl. intros s r s' [= <- <-]. apply R_refl. Qed.

Lemma keeps_this : keeps R this.
Proof using R_refl. intros s r s' [= <- <-]. apply R_refl. Qed.

Lemma keeps_modify f : (forall s, R s (f s)) -> keeps R (modify f).
Proof using Type. intros Hf s r s' [= <- <-]. apply Hf. Qed.

Lemma keeps_bind {A B} (m : M A) (k : A -> M B) :
  keeps R m -> (forall a, keeps R (k a)) -> keeps R (bind m k).
Proof using R_trans.
  intros Hm Hk s r s' Hrun. unfold bind in Hrun.
  destruct (m s) as [[a | e | c | ] s1] eqn:E; specialize (Hm _ _ _ E).
  - eapply R_trans; [ exact Hm | eapply Hk; exact Hrun ].
  - injection Hrun as <- <-. exact Hm.
  - injection Hrun as <- <-. exact Hm.
  - injection Hrun as <- <-. exact Hm.
Qed.

Lemma keeps_try_catch {A} (m : M A) (h : error -> M A) :
  keeps R m -> (forall e, keeps R (h e)) -> keeps R (try_catch m h).
Proof using R_trans.
  intros Hm Hh s r s' Hrun. unfold try_catch in Hrun.
  destruct (m s) as [[a | e | c | ] s1] eqn:E; specialize (Hm _ _ _ E).
  - injection Hrun as <- <-. exact Hm.
  - eapply R_trans; [ exact Hm | eapply Hh; exact Hrun ].
  - injection Hrun as <- <-. exact Hm.
  - injection Hrun as <- <-. exact Hm.
Qed.

Lemma keeps_try_finally {A} (m : M A) (c : M unit) :
  keeps R m -> keeps R c -> keeps R (try_finally m c).
Proof using R_trans.
  intros Hm Hc s r s' Hrun. unfold try_finally in Hrun.
  destruct (m s) as [[a | e | x | ] s1] eqn:E; specialize (Hm _ _ _ E).
  - destruct (c s1) as [[u | e | x | ] s2] eqn:E2; specialize (Hc _ _ _ E2);
      injection Hrun as <- <-; eapply R_trans; eassumption.
  - destruct (c s1) as [[u | e' | x | ] s2] eqn:E2; specialize (Hc _ _ _ E2);
      injection Hrun as <- <-; eapply R_trans; eassumption.
  - injection Hrun as <- <-. exact Hm.
  - injection Hrun as <- <-. exact Hm.
Qed.

Lemma keeps_for_of {A} (l : list A) (body : A -> M unit) :
  (forall x, keeps R (body x)) -> keeps R (for_of l body).
Proof using R_refl R_trans.
  intros Hb. induction l as [ | x l IHl ]; cbn [for_of].
  - apply keeps_ret.
  - apply keeps_bind; [ apply Hb | intros _; exact IHl ].
Qed.

Lemma keeps_if {A} (b : bool) (m1 m2 : M A) :
  keeps R m1 -> keeps R m2 -> keeps R (if b then m1 else m2).
Proof using Type. destruct b; auto. Qed.
End Keeps.

Lemma keeps_weaken {A} (R Q : state -> state -> Prop) (m : M A) :
  (forall s s', R s s' -> Q s s') -> keeps R m -> keeps Q m.
Proof. intros HRQ Hm s r s' Hrun. apply HRQ. eapply Hm. exact Hrun. Qed.

(** [step] is a preorder, and it is kept by the operations on the state. *)

Lemma step_refl strict P s : step strict P s s.
Proof.
  repeat split; try reflexivity. exists []. rewrite app_nil_r. split; reflexivity.
Qed.

Lemma step_trans strict P s1 s2 s3 :
  step strict P s1 s2 -> step strict P s2 s3 -> step strict P s1 s3.
Proof.
  intros ((e1 & Ht1 & Hp1) & Hs1 & Hf1 & Hc1 & Hd1)
         ((e2 & Ht2 & Hp2) & Hs2 & Hf2 & Hc2 & Hd2).
  repeat split; try congruence.
  - exists (e1 ++ e2). rewrite Ht2, Ht1, <- app_assoc, forallb_app, Hp1, Hp2.
    split; reflexivity.
  - destruct (Hd1 H) as (E1 & _), (Hd2 H) as (E2 & _). congruence.
  - destruct (Hd1 H) as (_ & E1 & _), (Hd2 H) as (_ & E2 & _). congruence.
  - destruct (Hd1 H) as (_ & _ & E1), (Hd2 H) as (_ & _ & E2). congruence.
Qed.

Lemma step_weaken strict strict' (P Q : event -> bool) s s' :
  (forall e, P e = true -> Q e = true) ->
  (strict' = true -> strict = true) ->
  step strict P s s' -> step strict' Q s s'.
Proof.
  intros HPQ Hst ((evs & Ht & Hp) & Hs & Hf & Hc & Hd).
  repeat split; try assumption; try (apply Hd; auto).
  exists evs. split; [ exact Ht | ].
  rewrite forallb_forall in *. intros e He. apply HPQ, Hp, He.
Qed.

Lemma step_same strict P s s' :
  trace s' = trace s -> src s' = src s -> faults s' = faults s ->
  config (self s') = config (self s) ->
  dst s' = dst s -> files s' = files s -> dirs s' = dirs s ->
  step strict P s s'.
Proof.
  intros Ht Hs Hf Hc Hd Hfi Hdi. repeat split; try assumption.
  exists []. rewrite app_nil_r. split; [ exact Ht | reflexivity ].
Qed.

Ltac same_step := apply step_same; reflexivity.

Lemma keeps_emit strict P e : P e = true -> keeps (step strict P) (emit e).
Proof.
  intros He. apply keeps_modify. intros s. repeat split.
  exists [e]. cbn. rewrite He. split; reflexivity.
Qed.

Lemma keeps_tick strict P : keeps (step strict P) tick.
Proof.
  intros s r s' Hrun. unfold tick in Hrun.
  destruct (bool_decide _); injection Hrun as <- <-; same_step.
Qed.

Lemma keeps_tick_settled strict P : keeps (step strict P) tick_settled.
Proof. apply keeps_modify. intros s. same_step. Qed.

Lemma keeps_set_answers strict P a : keeps (step strict P) (modify (set_answers a)).
Proof. apply keeps_modify. intros s. same_step. Qed.

Lemma keeps_set_collections strict P c :
  keeps (step strict P)
    (modify (fun s => set_self (set_collections c (self s)) s)).
Proof. apply keeps_modify. intros s. same_step. Qed.

Lemma step_bind {A B} strict P (m : M A) (k : A -> M B) :
  keeps (step strict P) m -> (forall a, keeps (step strict P) (k a)) ->
  keeps (step strict P) (bind m k).
Proof. apply keeps_bind, step_trans. Qed.

Lemma step_ret {A} strict P (a : A) : keeps (step strict P) (ret a).
Proof. apply keeps_ret, step_refl. Qed.

Lemma step_throw {A} strict P e : keeps (step strict P) (@throw A e).
Proof. apply keeps_throw, step_refl. Qed.

Lemma step_diverge {A} strict P : keeps (step strict P) (@diverge A).
Proof. apply keeps_diverge, step_refl. Qed.

Lemma step_this strict P : keeps (step strict P) this.
Proof. apply keeps_this, step_refl. Qed.

Lemma step_get strict P : keeps (step strict P) get.
Proof. apply keeps_get, step_refl. Qed.

Lemma keeps_sub {A} strict strict' (P Q : event -> bool) (m : M A) :
  (forall e, P e = true -> Q e = true) ->
  (strict' = true -> strict = true) ->
  keeps (step strict P) m -> keeps (step strict' Q) m.
Proof.
  intros HPQ Hst. apply keeps_weaken. intros s s'. apply step_weaken; assumption.
Qed.

(** One step of the decomposition of a run into the calls it is made of. *)
Ltac keeps_step :=
  lazymatch goal with
  | |- keeps _ (bind _ _) => apply step_bind; [ | intros ? ]
  | |- keeps _ (ret _) => apply step_ret
  | |- keeps _ (throw _) => apply step_throw
  | |- keeps _ diverge => apply step_diverge
  | |- keeps _ this => apply step_this
  | |- keeps _ get => apply step_get
  | |- keeps _ tick => apply keeps_tick
  | |- keeps _ tick_settled => apply keeps_tick_settled
  | |- keeps _ (emit _) => apply keeps_emit; reflexivity
  | |- keeps _ (log _ _) => apply keeps_emit; reflexivity
  | |- keeps _ (spinner _) => apply keeps_emit; reflexivity
  | |- keeps _ (modify (set_answers _)) => apply keeps_set_answers
  | |- keeps _ (modify (fun s => set_self (set_collections _ _) _)) =>
      apply keeps_set_collections
  | |- keeps _ (if _ then _ else _) => apply keeps_if
  end.

Ltac keeps_all := repeat keeps_step.

Lemma keeps_hasNext strict name cursor :
  keeps (step strict ev_read) (hasNext name cursor).
Proof. unfold hasNext. keeps_all. Qed.

Lemma keeps_read_batch strict b name cursor :
  forall i batch, keeps (step strict ev_read) (read_batch b name i cursor batch).
Proof.
  induction cursor as [ | d rest IH ]; intros i batch; cbn [read_batch];
    (destruct (Z.ltb i b); [ | keeps_all ]);
    (apply step_bind; [ apply keeps_hasNext | intros [ | ]; keeps_all ]).
  apply IH.
Qed.

Lemma keeps_collection strict sd name :
  keeps (step strict (ev_collection sd)) (collection sd name).
Proof.
  unfold collection. apply step_bind; [ keeps_all | intros v ].
  destruct (match sd with Source => _ | Dest => _ end); [ | keeps_all ].
  apply keeps_emit. destruct sd; reflexivity.
Qed.

Lemma keeps_insertMany name docs :
  keeps (step false ev_copy) (insertMany name docs).
Proof.
  unfold insertMany. keeps_all.
  destruct docs; try keeps_step.
  apply keeps_modify. intros s. repeat split; try discriminate.
  exists []. rewrite app_nil_r. split; reflexivity.
Qed.

Lemma keeps_exportBatchToJson batch name :
  keeps (step false ev_copy) (exportBatchToJson batch name).
Proof.
  unfold exportBatchToJson. keeps_all;
    apply keeps_modify; intros s0; repeat split; try discriminate;
    exists []; rewrite app_nil_r; split; reflexivity.
Qed.

Lemma ev_collection_copy e : ev_collection Dest e = true -> ev_copy e = true.
Proof. destruct e as [ | | | | | [ | ] | | | | | | | | | | | | | ]; cbn; congruence. Qed.

Lemma keeps_importBatchFromJson name :
  keeps (step false ev_copy) (importBatchFromJson name).
Proof.
  unfold importBatchFromJson, log. keeps_all.
  destruct (files _ !! _) as [content | ]; [ | keeps_all ].
  keeps_all. destruct (JSON_parse content) as [j | ]; [ | keeps_all ].
  apply step_bind; [ | intros _ ].
  { eapply keeps_sub; [ apply ev_collection_copy | | apply (keeps_collection false Dest) ].
    auto. }
  apply step_bind; [ apply keeps_insertMany | intros _ ]. keeps_all.
Qed.

Lemma keeps_write_batch batch name :
  keeps (step false ev_copy) (write_batch batch name).
Proof.
  unfold write_batch. keeps_all.
  - apply keeps_exportBatchToJson.
  - apply keeps_importBatchFromJson.
  - apply keeps_insertMany.
Qed.

Lemma ev_read_copy e : ev_read e = true -> ev_copy e = true.
Proof. destruct e; cbn; congruence. Qed.

Lemma keeps_copy_loop fuel name totalDocs :
  forall cursor processed,
    keeps (step false ev_copy) (copy_loop fuel name totalDocs cursor processed).
Proof.
  induction fuel as [ | fuel IH ]; intros cursor processed; cbn [copy_loop];
    [ keeps_step | ].
  apply step_bind;
    [ eapply keeps_sub; [ apply ev_read_copy | | apply (keeps_hasNext false) ]; auto | ].
  intros [ | ]; [ | keeps_all ].
  apply step_bind; [ keeps_all | intros v ].
  apply step_bind;
    [ eapply keeps_sub; [ apply ev_read_copy | | apply (keeps_read_batch false) ]; auto | ].
  intros read. apply step_bind; [ apply keeps_write_batch | intros _ ].
  unfold spinner. keeps_all. apply IH.
Qed.

Lemma keeps_copyCollection fuel name :
  keeps (step false ev_copy) (copyCollection fuel name).
Proof.
  unfold copyCollection, countDocuments, find, log. keeps_all.
  apply keeps_copy_loop.
Qed.

Lemma keeps_confirm plan : keeps (step true ev_prelude) (confirm plan).
Proof.
  unfold confirm. keeps_all. destruct (answers _); keeps_all.
Qed.

Lemma keeps_listCollections : keeps (step true ev_prelude) listCollections.
Proof. unfold listCollections. keeps_all. Qed.

(** ** Runs without faults *)

Lemma bind_ok {A B} (m : M A) (k : A -> M B) s a s1 :
  m s = (Ok a, s1) -> bind m k s = k a s1.
Proof. intros E. unfold bind. rewrite E. reflexivity. Qed.

Lemma bind_throw {A B} (m : M A) (k : A -> M B) s e s1 :
  m s = (Throw e, s1) -> bind m k s = (Throw e, s1).
Proof. intros E. unfold bind. rewrite E. reflexivity. Qed.

Lemma bind_assoc {A B C} (m : M A) (f : A -> M B) (k : B -> M C) s :
  bind (bind m f) k s = bind m (fun a => bind (f a) k) s.
Proof. unfold bind. destruct (m s) as [[a | e | c | ] s1]; reflexivity. Qed.

Lemma tick_ok s :
  bool_decide (clock s ∈ faults s) = false ->
  tick s = (Ok tt, set_clock (S (clock s)) s).
Proof. intros E. unfold tick. rewrite E. reflexivity. Qed.

Lemma tick_fault s :
  bool_decide (clock s ∈ faults s) = true ->
  tick s = (Throw (DriverError (clock s)), set_clock (S (clock s)) s).
Proof. intros E. unfold tick. rewrite E. reflexivity. Qed.

Lemma no_faults s : faults s = [] -> bool_decide (clock s ∈ faults s) = false.
Proof.
  intros E. rewrite E. apply bool_decide_eq_false. apply not_elem_of_nil.
Qed.

(** Running the next call of a sequence. *)
Tactic Notation "run_with" tactic3(tac) :=
  erewrite bind_ok by tac; cbv beta iota zeta.
Ltac run_pure := erewrite bind_ok by reflexivity; cbv beta iota zeta.
Ltac run_tick H :=
  erewrite bind_ok
    by (apply tick_ok; first [ exact H | apply no_faults; exact H ]);
  cbv beta iota zeta.

Lemma hasNext_ok name cursor s :
  faults s = [] ->
  hasNext name cursor s =
  (Ok (match cursor with [] => false | _ :: _ => true end),
   set_clock (S (clock s)) (set_trace (trace s ++ [EvHasNext name]) s)).
Proof.
  intros Hf. unfold hasNext. run_pure. run_tick Hf. reflexivity.
Qed.

Lemma step_faults strict P s s' : step strict P s s' -> faults s' = faults s.
Proof. intros (_ & _ & Hf & _). exact Hf. Qed.

Lemma read_batch_ok b name cursor :
  forall i batch s,
    faults s = [] ->
    exists s',
      read_batch b name i cursor batch s =
      (Ok (batch ++ take (Z.to_nat (b - i)) cursor,
           drop (Z.to_nat (b - i)) cursor), s').
Proof.
  induction cursor as [ | d rest IH ]; intros i batch s Hf; cbn [read_batch].
  - destruct (Z.ltb_spec i b).
    + run_with (apply hasNext_ok, Hf).
      eexists. rewrite take_nil, drop_nil, app_nil_r. reflexivity.
    + eexists. rewrite take_nil, drop_nil, app_nil_r. reflexivity.
  - destruct (Z.ltb_spec i b).
    + run_with (apply hasNext_ok, Hf).
      run_pure. run_tick Hf.
      edestruct (IH (i + 1) (batch ++ [d])) as (s' & E); [ | rewrite E ].
      { exact Hf. }
      exists s'. replace (Z.to_nat (b - i)) with (S (Z.to_nat (b - (i + 1)))) by lia.
      cbn [take drop]. rewrite <- app_assoc. reflexivity.
    + exists s. replace (Z.to_nat (b - i)) with O by lia.
      cbn [take drop]. rewrite app_nil_r. reflexivity.
Qed.

(** ** C3: the plan of [listCollections] *)

Lemma resolve_nonempty requested names :
  requested <> [] ->
  resolve requested names = filter (fun c => c ∈ names) requested.
Proof.
  intros Hne. unfold resolve. destruct requested; [ contradiction | reflexivity ].
Qed.

Lemma filter_ordered_intersection requested names :
  filter (fun c => c ∈ names) requested = ordered_intersection requested names.
Proof.
  induction requested as [ | r l IHl ]; [ reflexivity | ].
  rewrite filter_cons. cbn [ordered_intersection].
  destruct (decide (r ∈ names)) as [Hin | Hout].
  - rewrite bool_decide_eq_true_2 by exact Hin. rewrite IHl. reflexivity.
  - rewrite bool_decide_eq_false_2 by exact Hout. exact IHl.
Qed.

(** C3.  For every requested list [R] and every list [A] of names returned
    by the source store, [listCollections] returns (and stores in
    [this.collections]) the plan [A], in store order, when [R] is empty, and
    otherwise the order-preserving intersection of [R] with [A]: a sublist
    of [R] holding exactly the requested names that are in [A].  Nothing is
    thrown and nothing is logged for the names that are dropped. *)
Theorem listCollections_plan (s : state) :
  sourceDb (self s) = true ->
  bool_decide (clock s ∈ faults s) = false ->
  exists s' plan,
    listCollections s = (Ok plan, s') /\
    collections (self s') = plan /\
    trace s' = trace s ++ [EvListCollections] /\
    (collections (self s) = [] -> plan = map fst (src s)) /\
    (collections (self s) <> [] ->
       plan = ordered_intersection (collections (self s)) (map fst (src s)) /\
       sublist plan (collections (self s)) /\
       forall c, c ∈ plan <-> c ∈ collections (self s) /\ c ∈ map fst (src s)).
Proof.
  intros Hdb Htick. unfold listCollections.
  run_pure. rewrite Hdb. run_pure. run_pure. run_tick Htick.
  run_pure. run_pure.
  do 2 eexists. split; [ reflexivity | ]. cbn [self set_self set_clock set_trace
    collections set_collections src trace].
  split; [ reflexivity | ]. split; [ reflexivity | ]. split.
  - intros ->. reflexivity.
  - intros Hne. rewrite (resolve_nonempty _ _ Hne). split; [ | split ].
    + apply filter_ordered_intersection.
    + apply sublist_filter.
    + intros c. rewrite list_elem_of_filter. tauto.
Qed.

Lemma listCollections_plan_witness :
  exists s' plan,
    listCollections sample_state = (Ok plan, s') /\
    collections (self s') = plan /\
    trace s' = trace sample_state ++ [EvListCollections] /\
    (collections (self sample_state) = [] -> plan = map fst (src sample_state)) /\
    (collections (self sample_state) <> [] ->
       plan = ordered_intersection (collections (self sample_state))
                (map fst (src sample_state)) /\
       sublist plan (collections (self sample_state)) /\
       forall c, c ∈ plan <->
                 c ∈ collections (self sample_state) /\
                 c ∈ map fst (src sample_state)).
Proof.
  apply (listCollections_plan sample_state); reflexivity.
Defined.

Example listCollections_sample :
  fst (listCollections sample_state) = Ok ["users"; "posts"].
Proof. vm_compute. reflexivity. Qed.

Example listCollections_all :
  fst (listCollections (initial (connected (constructor
         (Options None JUndefined None None None None None))))) =
  Ok ["posts"; "users"; "tags"].
Proof. vm_compute. reflexivity. Qed.

(** ** The batches of a collection *)

Lemma batches_of_fuel b : (0 < b)%nat ->
  forall f1 f2 docs,
    (length docs <= f1)%nat -> (length docs <= f2)%nat ->
    batches_of f1 b docs = batches_of f2 b docs.
Proof.
  intros Hb. induction f1 as [ | f1 IH ]; intros f2 docs H1 H2.
  - destruct docs; [ | cbn in H1; lia ]. destruct f2; reflexivity.
  - destruct docs as [ | d l ]; [ destruct f2; reflexivity | ].
    destruct f2 as [ | f2 ]; [ cbn in H2; lia | ].
    cbn [batches_of]. f_equal.
    apply IH; rewrite length_drop; cbn [length] in *; lia.
Qed.

Lemma batches_cons b d l : (0 < b)%nat ->
  batches b (d :: l) = take b (d :: l) :: batches b (drop b (d :: l)).
Proof.
  intros Hb. unfold batches. cbn [length batches_of]. f_equal.
  apply batches_of_fuel; [ exact Hb | | reflexivity ].
  rewrite length_drop. cbn [length]. lia.
Qed.

Lemma batches_nil b : batches b [] = [].
Proof. reflexivity. Qed.

Lemma ceil_div_0 b : (0 < b)%nat -> ceil_div 0 b = 0%nat.
Proof. intros Hb. unfold ceil_div. apply Nat.div_small. lia. Qed.

Lemma ceil_div_step n b :
  (0 < b)%nat -> (0 < n)%nat -> ceil_div n b = S (ceil_div (n - b) b).
Proof.
  intros Hb Hn. unfold ceil_div.
  destruct (Nat.le_gt_cases b n) as [Hle | Hlt].
  - replace (n + b - 1)%nat with ((n - b + b - 1) + 1 * b)%nat by lia.
    rewrite Nat.div_add by lia. lia.
  - replace (n - b)%nat with 0%nat by lia. cbn [Nat.add].
    rewrite (Nat.div_small (b - 1) b) by lia.
    replace (n + b - 1)%nat with ((n - 1) + 1 * b)%nat by lia.
    rewrite Nat.div_add by lia. rewrite Nat.div_small by lia. reflexivity.
Qed.

Lemma last_size_step n b :
  (0 < b)%nat -> (b < n)%nat -> last_size n b = last_size (n - b) b.
Proof.
  intros Hb Hn. unfold last_size.
  assert (E : (n mod b = (n - b) mod b)%nat).
  { rewrite <- (Nat.Div0.mod_add (n - b) 1 b). f_equal. lia. }
  rewrite E. reflexivity.
Qed.

Lemma last_size_small n b :
  (0 < n)%nat -> (n <= b)%nat -> last_size n b = n.
Proof.
  intros Hn Hle. unfold last_size.
  destruct (Nat.eq_dec n b) as [-> | Hne].
  - rewrite Nat.Div0.mod_same. reflexivity.
  - rewrite Nat.mod_small by lia.
    destruct (Nat.eqb_spec n 0); [ lia | reflexivity ].
Qed.

Lemma batches_spec b : (0 < b)%nat ->
  forall n docs, length docs = n ->
    concat (batches b docs) = docs /\
    length (batches b docs) = ceil_div n b /\
    Forall (fun batch => (0 < length batch <= b)%nat) (batches b docs) /\
    (n = 0%nat -> batches b docs = []) /\
    ((0 < n)%nat ->
     exists batch, last (batches b docs) = Some batch /\
                   length batch = last_size n b).
Proof.
  intros Hb n. induction n as [n IH] using lt_wf_ind. intros docs Hlen.
  destruct docs as [ | d l ].
  - cbn in Hlen. subst n. rewrite batches_nil, ceil_div_0 by exact Hb.
    repeat split; try reflexivity; try constructor. intros H; lia.
  - rewrite batches_cons by exact Hb.
    assert (Hn : (0 < n)%nat) by (cbn in Hlen; lia).
    destruct (IH (n - b)%nat ltac:(lia) (drop b (d :: l)))
      as (Hcat & Hcount & Hall & Hnil & Hlast).
    { rewrite length_drop, Hlen. reflexivity. }
    cbn [concat length]. rewrite Hcat, take_drop, Hcount.
    split; [ reflexivity | ]. split; [ symmetry; apply ceil_div_step; assumption | ].
    split; [ | split; [ intros; lia | intros _ ] ].
    + constructor; [ | exact Hall ]. rewrite length_take, Hlen. lia.
    + destruct (Nat.le_gt_cases n b) as [Hle | Hlt].
      * rewrite Hnil by lia. exists (take b (d :: l)). split; [ reflexivity | ].
        rewrite length_take, Hlen, last_size_small by lia. lia.
      * destruct Hlast as (batch & Hl & Hsz); [ lia | ].
        exists batch. split.
        -- destruct (batches b (drop b (d :: l))); [ discriminate Hl | exact Hl ].
        -- rewrite Hsz. symmetry. apply last_size_step; assumption.
Qed.

(** ** The batch loop, for any sink that takes every batch *)

Lemma ev_read_loop e : ev_read e = true -> ev_loop e = true.
Proof. destruct e; cbn; congruence. Qed.

Section CopyLoop.
Variables (name : string) (totalDocs : nat) (b : nat).
Variable Inv : list (list json) -> state -> Prop.
Hypothesis Hb : (0 < b)%nat.
Hypothesis Inv_faults : forall bs s, Inv bs s -> faults s = [].
Hypothesis Inv_batchSize :
  forall bs s, Inv bs s -> batchSize (self s) = Z.of_nat b.
Hypothesis Inv_stable :
  forall bs s s', Inv bs s -> step true ev_loop s s' -> Inv bs s'.
Hypothesis Inv_write :
  forall bs batch s,
    Inv bs s -> (0 < length batch <= b)%nat ->
    exists s', write_batch batch name s = (Ok tt, s') /\ Inv (bs ++ [batch]) s'.

Lemma copy_loop_ok fuel :
  forall cursor processed bs s,
    (length cursor < fuel)%nat -> Inv bs s ->
    exists s',
      copy_loop fuel name totalDocs cursor processed s = (Ok tt, s') /\
      Inv (bs ++ batches b cursor) s'.
Proof using Hb Inv_faults Inv_batchSize Inv_stable Inv_write.
  induction fuel as [ | fuel IH ]; intros cursor processed bs s Hlen HI;
    [ lia | ].
  cbn [copy_loop].
  pose proof (Inv_faults _ _ HI) as Hf.
  pose proof (hasNext_ok name cursor s Hf) as E1.
  assert (H1 : Inv bs (snd (hasNext name cursor s))).
  { eapply Inv_stable; [ exact HI | ].
    eapply step_weaken; [ apply ev_read_loop | auto | ].
    eapply (keeps_hasNext true). apply surjective_pairing. }
  rewrite E1 in H1. cbn [snd] in H1.
  run_with (exact E1).
  destruct cursor as [ | d rest ].
  - eexists. split; [ reflexivity | ]. rewrite batches_nil, app_nil_r. exact H1.
  - run_pure.
    match type of H1 with Inv _ ?s1 =>
      destruct (read_batch_ok (batchSize (self s1)) name (d :: rest) 0 [] s1)
        as (s2 & E2); [ exact (Inv_faults _ _ H1) | ];
      pose proof (Inv_batchSize _ _ H1) as Hbs
    end.
    cbn [self set_clock set_trace] in *. rewrite Hbs in E2.
    replace (Z.to_nat (Z.of_nat b - 0)) with b in E2 by lia.
    cbn [app] in E2.
    assert (H2 : Inv bs s2).
    { eapply Inv_stable; [ exact H1 | ].
      eapply step_weaken; [ apply ev_read_loop | auto | ].
      eapply (keeps_read_batch true). exact E2. }
    rewrite Hbs. run_with (exact E2). cbn [fst snd].
    destruct (Inv_write bs (take b (d :: rest)) s2 H2) as (s3 & E3 & H3).
    { rewrite length_take. cbn [length]. lia. }
    run_with (exact E3).
    unfold spinner at 1. run_pure.
    match goal with |- context [copy_loop _ _ _ _ ?p ?s4] =>
      destruct (IH (drop b (d :: rest)) p (bs ++ [take b (d :: rest)]) s4)
        as (s' & E & HI')
    end.
    { rewrite length_drop. cbn [length] in *. lia. }
    { eapply Inv_stable; [ exact H3 | ].
      eapply (keeps_emit true ev_loop); [ | reflexivity ]. reflexivity. }
    exists s'. split; [ exact E | ].
    rewrite batches_cons by exact Hb. rewrite <- app_assoc in HI'. exact HI'.
Qed.
End CopyLoop.

(** ** Reading traces *)

Lemma inserted_app t1 t2 : inserted (t1 ++ t2) = inserted t1 ++ inserted t2.
Proof.
  induction t1 as [ | e t1 IH ]; [ reflexivity | ].
  destruct e; cbn [app inserted]; rewrite IH; reflexivity.
Qed.

Lemma appended_app t1 t2 : appended (t1 ++ t2) = appended t1 ++ appended t2.
Proof.
  induction t1 as [ | e t1 IH ]; [ reflexivity | ].
  destruct e; cbn [app appended]; rewrite IH; reflexivity.
Qed.

Lemma processed_names_app t1 t2 :
  processed_names (t1 ++ t2) = processed_names t1 ++ processed_names t2.
Proof.
  induction t1 as [ | e t1 IH ]; [ reflexivity | ].
  destruct e as [ | | | | | | | | | | | | | | | | [ | | | | ] | | ];
    cbn [app processed_names]; rewrite IH; reflexivity.
Qed.

Lemma count_events_app p t1 t2 :
  count_events p (t1 ++ t2) = (count_events p t1 + count_events p t2)%nat.
Proof. unfold count_events. rewrite List.filter_app, length_app. reflexivity. Qed.

(** Events of a kind that a reader of the trace skips contribute nothing. *)
Lemma skipped {A} (f : list event -> list A) (P : event -> bool) :
  f [] = [] ->
  (forall e t, P e = true -> f (e :: t) = f t) ->
  forall evs, forallb P evs = true -> f evs = [].
Proof.
  intros Hnil Hskip. induction evs as [ | e evs IH ]; [ intros; exact Hnil | ].
  cbn [forallb]. intros H. apply andb_true_iff in H as [He Hevs].
  rewrite Hskip by exact He. apply IH, Hevs.
Qed.

Lemma inserted_loop evs : forallb ev_loop evs = true -> inserted evs = [].
Proof.
  apply skipped; [ reflexivity | ].
  intros [ | | | | | | | | | | | | | | | | [ | | | | ] | | ] t; cbn;
    congruence.
Qed.

Lemma appended_loop evs : forallb ev_loop evs = true -> appended evs = [].
Proof.
  apply skipped; [ reflexivity | ].
  intros [ | | | | | | | | | | | | | | | | [ | | | | ] | | ] t; cbn;
    congruence.
Qed.

Lemma count_none p P evs :
  (forall e, P e = true -> p e = false) ->
  forallb P evs = true -> count_events p evs = 0%nat.
Proof.
  intros Hp. induction evs as [ | e evs IH ]; [ reflexivity | ].
  cbn [forallb]. intros H. apply andb_true_iff in H as [He Hevs].
  unfold count_events in *. cbn [List.filter]. rewrite (Hp e He). apply IH, Hevs.
Qed.

(** ** The live sink *)

Section LiveLoop.
Variables (name : string) (b : nat).
Variables (ins0 : list json) (dst0 : gmap string (list json)).
Variables (files0 : gmap string text).

Abbreviation Inv := (live_inv name b ins0 dst0 files0).

Lemma live_inv_stable bs s s' :
  Inv bs s -> step true ev_loop s s' -> Inv bs s'.
Proof using Type.
  intros (Hf & Hbs & He & Hi & Hins & Hd & Ho & Hfi)
         ((evs & Ht & Hp) & _ & Hf' & Hc & Hst).
  destruct (Hst eq_refl) as (Hd' & Hfi' & _).
  unfold config in Hc. injection Hc as Hc1 Hc2 Hc3 Hc4 Hc5 Hc6 Hc7.
  unfold live_inv.
  rewrite Hf', Hd', Hfi', Ht, inserted_app, (inserted_loop _ Hp), app_nil_r.
  repeat split; try congruence. auto.
Qed.

Lemma live_inv_write bs batch s :
  Inv bs s ->
  exists s', write_batch batch name s = (Ok tt, s') /\
             Inv (bs ++ [batch]) s'.
Proof using Type.
  intros (Hf & Hbs & He & Hi & Hins & Hd & Ho & Hfi).
  unfold write_batch. run_pure. rewrite He, Hi.
  unfold insertMany. run_pure. run_tick Hf.
  eexists. split; [ reflexivity | ].
  unfold live_inv.
  cbn [faults batchSize exportJson importJson set_dst set_clock set_trace
       trace dst files self].
  rewrite inserted_app, Hins, map_app, concat_app, lookup_insert_eq.
  cbn [default inserted map concat]. rewrite Hd, app_nil_r, <- !app_assoc.
  repeat split; try assumption; try reflexivity.
  intros other Hne. rewrite lookup_insert_ne by congruence. auto.
Qed.
End LiveLoop.

Lemma copy_loop_live name totalDocs b fuel cursor processed s :
  (0 < b)%nat -> (length cursor < fuel)%nat ->
  faults s = [] -> batchSize (self s) = Z.of_nat b ->
  exportJson (self s) = false -> importJson (self s) = false ->
  exists s',
    copy_loop fuel name totalDocs cursor processed s = (Ok tt, s') /\
    live_inv name b (inserted (trace s)) (dst s) (files s) (batches b cursor) s'.
Proof.
  intros Hb Hlen Hf Hbs He Hi.
  apply (copy_loop_ok name totalDocs b
           (live_inv name b (inserted (trace s)) (dst s) (files s)) Hb)
    with (bs := []); try assumption.
  - intros bs s0 H. apply H.
  - intros bs s0 H. apply H.
  - apply live_inv_stable.
  - intros bs batch s0 H _. apply live_inv_write, H.
  - unfold live_inv. cbn [map concat]. rewrite !app_nil_r. tauto.
Qed.

Lemma copyCollection_unfold name fuel s :
  faults s = [] ->
  copyCollection fuel name s =
  (copy_loop fuel name (length (docs_of (src s) name)) (docs_of (src s) name) 0 ;;
   log LSuccess (MsgFinished name (length (docs_of (src s) name))))
    (counted name s).
Proof.
  intros Hf. unfold copyCollection, countDocuments, find.
  run_with (run_pure; run_tick Hf; run_pure; reflexivity).
  run_pure. unfold counted. cbn [src trace clock set_clock set_trace].
  rewrite <- app_assoc. reflexivity.
Qed.

Lemma logged_ok {A} (m : M A) l msg s s1 a :
  m s = (Ok a, s1) ->
  (m ;; log l msg) s = (Ok tt, set_trace (trace s1 ++ [EvLog l msg]) s1).
Proof. intros E. erewrite bind_ok by exact E. reflexivity. Qed.

Lemma copyCollection_live_run name fuel s :
  faults s = [] ->
  exportJson (self s) = false -> importJson (self s) = false ->
  0 < batchSize (self s) ->
  (length (docs_of (src s) name) < fuel)%nat ->
  exists s',
    copyCollection fuel name s = (Ok tt, s') /\
    inserted (trace s') =
      inserted (trace s) ++
      map JArr (batches (Z.to_nat (batchSize (self s))) (docs_of (src s) name)) /\
    default [] (dst s' !! name) =
      default [] (dst s !! name) ++ docs_of (src s) name /\
    files s' = files s.
Proof.
  intros Hf He Hi Hb Hfuel.
  assert (Hbpos : (0 < Z.to_nat (batchSize (self s)))%nat) by lia.
  rewrite copyCollection_unfold by exact Hf.
  destruct (copy_loop_live name (length (docs_of (src s) name))
              (Z.to_nat (batchSize (self s))) fuel (docs_of (src s) name) 0
              (counted name s) Hbpos Hfuel)
    as (s2 & E & _ & _ & _ & _ & Hins & Hd & _ & Hfi); try assumption.
  { cbn [batchSize self counted set_clock set_trace]. lia. }
  eexists. split; [ apply (logged_ok _ _ _ _ _ _ E) | ].
  cbn [trace dst files set_trace counted set_clock] in *.
  rewrite inserted_app, Hins, !inserted_app. cbn [inserted].
  rewrite !app_nil_r, Hd.
  destruct (batches_spec _ Hbpos _ (docs_of (src s) name) eq_refl) as (-> & _).
  repeat split; assumption.
Qed.

(** ** The import sink *)

Lemma count_loop p evs :
  (forall e, ev_loop e = true -> p e = false) ->
  forallb ev_loop evs = true -> count_events p evs = 0%nat.
Proof. apply count_none. Qed.

Lemma file_read_loop e : ev_loop e = true -> is_file_read e = false.
Proof. destruct e; cbn; congruence. Qed.

Section ImportLoop.
Variables (name : string) (b : nat) (ds : list json).
Variables (ins0 : list json) (reads0 : nat).
Variables (dst0 : gmap string (list json)) (files0 : gmap string text).

Abbreviation Inv := (import_inv name b ds ins0 reads0 dst0 files0).

Lemma import_inv_stable bs s s' :
  Inv bs s -> step true ev_loop s s' -> Inv bs s'.
Proof using Type.
  intros (Hf & Hbs & He & Hi & Hdb & Hfi & Hfile & Hins & Hrd & Hd & Ho)
         ((evs & Ht & Hp) & _ & Hf' & Hc & Hst).
  destruct (Hst eq_refl) as (Hd' & Hfi' & _).
  unfold config in Hc. injection Hc as Hc1 Hc2 Hc3 Hc4 Hc5 Hc6 Hc7 Hc8 Hc9 Hc10.
  unfold import_inv, file_of in *.
  rewrite Hf', Hd', Hfi', Ht, inserted_app, (inserted_loop _ Hp), app_nil_r,
    count_events_app, (count_loop _ _ file_read_loop Hp), Nat.add_0_r.
  repeat split; try congruence; auto.
  rewrite Hc6. exact Hfile.
Qed.

Lemma import_inv_write bs batch s :
  Inv bs s ->
  exists s', write_batch batch name s = (Ok tt, s') /\
             Inv (bs ++ [batch]) s'.
Proof using Type.
  intros (Hf & Hbs & He & Hi & Hdb & Hfi & (content & Hfile & Hparse) &
          Hins & Hrd & Hd & Ho).
  unfold write_batch. run_pure. rewrite He, Hi.
  unfold importBatchFromJson. run_pure. run_pure. run_pure.
  cbn [files set_trace]. rewrite Hfi. unfold file_of in Hfile. rewrite Hfile.
  run_pure. run_tick Hf. rewrite Hparse.
  unfold collection. run_with (run_pure; cbn [self set_clock set_trace];
                               rewrite Hdb; reflexivity).
  unfold insertMany, log. run_with (run_pure; run_tick Hf; reflexivity).
  eexists. split; [ reflexivity | ].
  unfold import_inv, file_of.
  cbn [faults batchSize exportJson importJson destDb outputDir set_dst
       set_clock set_trace trace dst files self].
  rewrite !inserted_app, !count_events_app, Hins, Hrd, length_app,
    !replicate_add, concat_app, lookup_insert_eq.
  cbn [default inserted replicate concat length count_events List.filter
       is_file_read app].
  rewrite Hd, !app_nil_r, <- !app_assoc.
  repeat split; try assumption; try reflexivity; try lia.
  - exists content. split; assumption.
  - intros other Hne. rewrite lookup_insert_ne by congruence. auto.
Qed.
End ImportLoop.

Lemma copy_loop_import name totalDocs b ds content fuel cursor processed s :
  (0 < b)%nat -> (length cursor < fuel)%nat ->
  faults s = [] -> batchSize (self s) = Z.of_nat b ->
  exportJson (self s) = false -> importJson (self s) = true ->
  destDb (self s) = true ->
  files s !! file_of (self s) name = Some content ->
  JSON_parse content = Some (JArr ds) ->
  exists s',
    copy_loop fuel name totalDocs cursor processed s = (Ok tt, s') /\
    import_inv name b ds (inserted (trace s))
      (count_events is_file_read (trace s)) (dst s) (files s)
      (batches b cursor) s'.
Proof.
  intros Hb Hlen Hf Hbs He Hi Hdb Hfile Hparse.
  apply (copy_loop_ok name totalDocs b
           (import_inv name b ds (inserted (trace s))
              (count_events is_file_read (trace s)) (dst s) (files s)) Hb)
    with (bs := []); try assumption.
  - intros bs s0 H. apply H.
  - intros bs s0 H. apply H.
  - apply import_inv_stable.
  - intros bs batch s0 H _. apply import_inv_write, H.
  - unfold import_inv. cbn [length replicate concat]. rewrite !app_nil_r, Nat.add_0_r.
    repeat split; try assumption; try reflexivity.
    exists content. split; assumption.
Qed.

Lemma copyCollection_import_run name fuel s content ds :
  faults s = [] ->
  exportJson (self s) = false -> importJson (self s) = true ->
  destDb (self s) = true ->
  0 < batchSize (self s) ->
  (length (docs_of (src s) name) < fuel)%nat ->
  files s !! file_of (self s) name = Some content ->
  JSON_parse content = Some (JArr ds) ->
  exists s',
    copyCollection fuel name s = (Ok tt, s') /\
    inserted (trace s') =
      inserted (trace s) ++
      replicate (length (batches (Z.to_nat (batchSize (self s)))
                                 (docs_of (src s) name))) (JArr ds) /\
    count_events is_file_read (trace s') =
      (count_events is_file_read (trace s) +
       length (batches (Z.to_nat (batchSize (self s)))
                       (docs_of (src s) name)))%nat /\
    default [] (dst s' !! name) =
      default [] (dst s !! name) ++
      concat (replicate (length (batches (Z.to_nat (batchSize (self s)))
                                         (docs_of (src s) name))) ds).
Proof.
  intros Hf He Hi Hdb Hb Hfuel Hfile Hparse.
  assert (Hbpos : (0 < Z.to_nat (batchSize (self s)))%nat) by lia.
  rewrite copyCollection_unfold by exact Hf.
  destruct (copy_loop_import name (length (docs_of (src s) name))
              (Z.to_nat (batchSize (self s))) ds content fuel
              (docs_of (src s) name) 0 (counted name s) Hbpos Hfuel)
    as (s2 & E & _ & _ & _ & _ & _ & _ & _ & Hins & Hrd & Hd & _);
    try assumption.
  { cbn [batchSize self counted set_clock set_trace]. lia. }
  eexists. split; [ apply (logged_ok _ _ _ _ _ _ E) | ].
  cbn [trace dst files set_trace counted set_clock] in *.
  rewrite inserted_app, count_events_app, Hins, Hrd, !inserted_app,
    !count_events_app.
  cbn [inserted count_events List.filter is_file_read length].
  rewrite !app_nil_r, !Nat.add_0_r, Hd. repeat split.
Qed.

(** ** C7: one import per batch *)

(** C7.  In import mode the import sink runs once for every batch read
    from the source collection: when that collection yields [k] batches
    ([k = ⌈n / b⌉]) and the file of the collection exists and parses as the
    array [ds], the file is read [k] times and its whole contents are
    handed to [insertMany] [k] times, so that the destination collection
    receives [k] copies of [ds], [k * length ds] documents (in a run in
    which no call fails). *)
Theorem import_once_per_batch (name : string) (fuel : nat) (s : state)
    (content : text) (ds : list json) :
  faults s = [] ->
  exportJson (self s) = false -> importJson (self s) = true ->
  destDb (self s) = true ->
  0 < batchSize (self s) ->
  (length (docs_of (src s) name) < fuel)%nat ->
  files s !! file_of (self s) name = Some content ->
  JSON_parse content = Some (JArr ds) ->
  exists s' k,
    copyCollection fuel name s = (Ok tt, s') /\
    k = length (batches (Z.to_nat (batchSize (self s))) (docs_of (src s) name)) /\
    k = ceil_div (length (docs_of (src s) name))
                 (Z.to_nat (batchSize (self s))) /\
    inserted (trace s') = inserted (trace s) ++ replicate k (JArr ds) /\
    count_events is_file_read (trace s') =
      (count_events is_file_read (trace s) + k)%nat /\
    default [] (dst s' !! name) =
      default [] (dst s !! name) ++ concat (replicate k ds) /\
    length (default [] (dst s' !! name)) =
      (length (default [] (dst s !! name)) + k * length ds)%nat.
Proof.
  intros Hf He Hi Hdb Hb Hfuel Hfile Hparse.
  destruct (copyCollection_import_run name fuel s content ds)
    as (s' & Hrun & Hins & Hrd & Hd); try assumption.
  assert (Hbpos : (0 < Z.to_nat (batchSize (self s)))%nat) by lia.
  destruct (batches_spec _ Hbpos _ (docs_of (src s) name) eq_refl)
    as (_ & Hcount & _).
  exists s', (length (batches (Z.to_nat (batchSize (self s)))
                              (docs_of (src s) name))).
  repeat split; try assumption.
  rewrite Hd, length_app. f_equal.
  generalize (length (batches (Z.to_nat (batchSize (self s)))
                              (docs_of (src s) name))).
  intros k. induction k as [ | k IH ]; [ reflexivity | ].
  cbn [replicate concat]. rewrite length_app, IH. lia.
Qed.

(** ** C9: an empty source collection imports nothing *)

(** C9.  Copying a collection that has no document in the source store
    produces no batch: whatever the mode, whatever the file system holds
    and whichever calls fail, the run ends, the sink is never invoked (no
    [insertMany], no test for or read of a file), and the destination store
    and the files are what they were.  In import mode this holds even when
    the file of the collection exists and parses as a non-empty array. *)
Theorem import_of_empty_source (name : string) (fuel : nat) (s : state) :
  (0 < fuel)%nat ->
  docs_of (src s) name = [] ->
  exists r s',
    copyCollection fuel name s = (r, s') /\
    (r = Ok tt \/ exists e, r = Throw e) /\
    (faults s = [] -> r = Ok tt) /\
    dst s' = dst s /\ files s' = files s /\
    inserted (trace s') = inserted (trace s) /\
    count_events is_store_write (trace s') =
      count_events is_store_write (trace s) /\
    count_events is_file_access (trace s') =
      count_events is_file_access (trace s).
Proof.
  intros Hfuel Hdocs. destruct fuel as [ | fuel ]; [ lia | ].
  unfold copyCollection, countDocuments, find, log. cbn [copy_loop].
  unfold hasNext, bind, emit, modify, get, ret, tick.
  cbn [clock faults set_trace set_clock src trace].
  destruct (bool_decide (clock s ∈ faults s)) eqn:E1;
    cbn [clock faults set_trace set_clock src trace]; rewrite ?Hdocs;
    [ | destruct (bool_decide (S (clock s) ∈ faults s)) eqn:E2 ];
    (do 2 eexists; split; [ reflexivity | ]);
    cbn [dst files trace set_clock set_trace];
    rewrite ?inserted_app, ?count_events_app, ?app_nil_r;
    cbn [inserted count_events List.filter is_store_write is_file_access
         length app];
    rewrite ?app_nil_r, ?Nat.add_0_r;
    repeat split; eauto; intros Hf.
  - rewrite (no_faults _ Hf) in E1. discriminate.
  - rewrite Hf in E2. discriminate.
Qed.

(** ** The export sink *)

Lemma exported_snoc bs batch :
  exported (bs ++ [batch]) = exported bs ++ JSON_stringify (JArr batch).
Proof.
  unfold exported. rewrite map_app, concat_app. cbn [map concat].
  rewrite app_nil_r. reflexivity.
Qed.

Section ExportLoop.
Variables (name : string) (b : nat).
Variables (app0 : list (string * text)).
Variables (dst0 : gmap string (list json)) (files0 : gmap string text).

Abbreviation Inv := (export_inv name b app0 dst0 files0).

Lemma export_inv_stable bs s s' :
Inv bs s -> step true ev_loop s s' -> Inv bs s'.
Proof using Type.
intros (Hf & Hbs & He & Hd & Hfi & Happ)
       ((evs & Ht & Hp) & _ & Hf' & Hc & Hst).
destruct (Hst eq_refl) as (Hd' & Hfi' & _).
unfold config in Hc. injection Hc as Hc1 Hc2 Hc3 Hc4 Hc5 Hc6 Hc7 Hc8 Hc9 Hc10.
unfold export_inv, file_of in *.
rewrite Hf', Hd', Hfi', Ht, appended_app, (appended_loop _ Hp), app_nil_r, Hc6.
repeat split; try congruence.
Qed.

Lemma export_inv_write bs batch s :
Inv bs s ->
exists s', write_batch batch name s = (Ok tt, s') /\ Inv (bs ++ [batch]) s'.
Proof using Type.
intros (Hf & Hbs & He & Hd & Hfi & Happ).
unfold write_batch. run_pure. rewrite He.
unfold exportBatchToJson. run_pure. run_pure. run_pure.
cbn [dirs set_trace].
destruct (bool_decide _);
  [ run_pure | run_with (run_pure; run_tick Hf; reflexivity) ];
  run_pure; run_tick Hf;
  (eexists; split; [ reflexivity | ]);
  unfold export_inv, file_of in *;
  cbn [faults batchSize exportJson outputDir set_files set_clock set_trace
       set_dirs trace dst files self];
  rewrite !appended_app, Happ, map_app, exported_snoc;
  cbn [appended map path_resolve]; rewrite ?app_nil_r, <- !app_assoc;
  (repeat split; try assumption; try reflexivity);
  rewrite Hfi; (destruct bs as [ | batch0 bs ];
    [ cbn [app exported map concat]; reflexivity
    | cbn [app]; rewrite lookup_insert_eq, insert_insert_eq;
      cbn [from_option id]; unfold id; rewrite <- ?app_assoc; reflexivity ]).
Qed.
End ExportLoop.

Lemma copy_loop_export name totalDocs b fuel cursor processed s :
  (0 < b)%nat -> (length cursor < fuel)%nat ->
  faults s = [] -> batchSize (self s) = Z.of_nat b ->
  exportJson (self s) = true ->
  exists s',
    copy_loop fuel name totalDocs cursor processed s = (Ok tt, s') /\
    export_inv name b (appended (trace s)) (dst s) (files s)
      (batches b cursor) s'.
Proof.
  intros Hb Hlen Hf Hbs He.
  apply (copy_loop_ok name totalDocs b
           (export_inv name b (appended (trace s)) (dst s) (files s)) Hb)
    with (bs := []); try assumption.
  - intros bs s0 H. apply H.
  - intros bs s0 H. apply H.
  - apply export_inv_stable.
  - intros bs batch s0 H _. apply export_inv_write, H.
  - unfold export_inv. cbn [map]. rewrite app_nil_r. tauto.
Qed.

Lemma batches_single b docs :
  (0 < length docs <= b)%nat -> batches b docs = [docs].
Proof.
  intros [Hpos Hle]. destruct docs as [ | d l ]; [ cbn in Hpos; lia | ].
  rewrite batches_cons by lia.
  rewrite take_ge, drop_ge by exact Hle. reflexivity.
Qed.

Lemma batches_several b docs :
  (0 < b)%nat -> (b < length docs)%nat ->
  exists b1 b2 rest, batches b docs = b1 :: b2 :: rest.
Proof.
  intros Hb Hlt. destruct docs as [ | d l ]; [ cbn in Hlt; lia | ].
  rewrite batches_cons by exact Hb.
  destruct (drop b (d :: l)) as [ | d' l' ] eqn:E.
  - apply (f_equal length) in E. rewrite length_drop in E. cbn [length] in *. lia.
  - rewrite batches_cons by exact Hb. eauto.
Qed.

Lemma copyCollection_export_run name fuel s :
  faults s = [] ->
  exportJson (self s) = true ->
  0 < batchSize (self s) ->
  (length (docs_of (src s) name) < fuel)%nat ->
  exists s',
    copyCollection fuel name s = (Ok tt, s') /\
    files s' =
      match batches (Z.to_nat (batchSize (self s))) (docs_of (src s) name) with
      | [] => files s
      | _ :: _ =>
          <[file_of (self s) name :=
              default [] (files s !! file_of (self s) name) ++
              exported (batches (Z.to_nat (batchSize (self s)))
                                (docs_of (src s) name))]> (files s)
      end /\
    appended (trace s') =
      appended (trace s) ++
      map (fun batch => (file_of (self s) name, JSON_stringify (JArr batch)))
          (batches (Z.to_nat (batchSize (self s))) (docs_of (src s) name)) /\
    dst s' = dst s.
Proof.
  intros Hf He Hb Hfuel.
  assert (Hbpos : (0 < Z.to_nat (batchSize (self s)))%nat) by lia.
  rewrite copyCollection_unfold by exact Hf.
  destruct (copy_loop_export name (length (docs_of (src s) name))
              (Z.to_nat (batchSize (self s))) fuel
              (docs_of (src s) name) 0 (counted name s) Hbpos Hfuel)
    as (s2 & E & _ & _ & _ & Hd & Hfi & Happ); try assumption.
  { cbn [batchSize self counted set_clock set_trace]. lia. }
  assert (Hself : file_of (self s2) name = file_of (self s) name).
  { pose proof (keeps_copy_loop _ _ _ _ _ _ _ _ E) as (_ & _ & _ & Hc & _).
    unfold config in Hc. cbn [self counted set_trace set_clock] in Hc.
    injection Hc as _ _ _ _ _ Ho _. unfold file_of. rewrite Ho. reflexivity. }
  rewrite Hself in *.
  eexists. split; [ apply (logged_ok _ _ _ _ _ _ E) | ].
  cbn [trace dst files set_trace counted set_clock] in *.
  rewrite appended_app, Happ, !appended_app. cbn [appended].
  rewrite !app_nil_r. repeat split; assumption.
Qed.

(** ** C8: the file an export writes *)

(** C8, as the code has it.  In export mode, copying a collection that has
    at least one document, when its file does not exist yet, writes that
    one file and no other, and the file holds the serialisations of the
    batches one after the other.  When the collection fits in one batch
    ([1 <= n <= b]) there is a single [appendFileSync] and the file parses
    as a JSON array equal to the source documents; when it takes more than
    one batch ([n > b]) the file is not JSON: [JSON.parse] rejects it.
    (No call fails in the run.) *)
Theorem export_file (name : string) (fuel : nat) (s : state) :
  faults s = [] ->
  exportJson (self s) = true ->
  0 < batchSize (self s) ->
  (0 < length (docs_of (src s) name))%nat ->
  (length (docs_of (src s) name) < fuel)%nat ->
  files s !! file_of (self s) name = None ->
  exists s' content,
    copyCollection fuel name s = (Ok tt, s') /\
    files s' = <[file_of (self s) name := content]> (files s) /\
    content = exported (batches (Z.to_nat (batchSize (self s)))
                                (docs_of (src s) name)) /\
    ((length (docs_of (src s) name) <= Z.to_nat (batchSize (self s)))%nat ->
       appended (trace s') =
         appended (trace s) ++ [(file_of (self s) name, content)] /\
       content = JSON_stringify (JArr (docs_of (src s) name)) /\
       JSON_parse content = Some (JArr (docs_of (src s) name))) /\
    ((Z.to_nat (batchSize (self s)) < length (docs_of (src s) name))%nat ->
       JSON_parse content = None).
Proof.
  intros Hf He Hb Hn Hfuel Hfile.
  destruct (copyCollection_export_run name fuel s)
    as (s' & Hrun & Hfi & Happ & _); try assumption.
  assert (Hbpos : (0 < Z.to_nat (batchSize (self s)))%nat) by lia.
  exists s', (exported (batches (Z.to_nat (batchSize (self s)))
                                (docs_of (src s) name))).
  split; [ exact Hrun | ].
  rewrite Hfile in Hfi. cbn [default] in Hfi.
  assert (Hne : batches (Z.to_nat (batchSize (self s))) (docs_of (src s) name) <> []).
  { destruct (docs_of (src s) name); [ cbn in Hn; lia | ].
    rewrite batches_cons by exact Hbpos. discriminate. }
  split.
  { rewrite Hfi. destruct (batches _ _); [ contradiction | reflexivity ]. }
  split; [ reflexivity | ]. split.
  - intros Hle. rewrite Happ, (batches_single _ (docs_of (src s) name)) by lia.
    unfold exported. cbn [map concat]. rewrite app_nil_r.
    repeat split. apply JSON_parse_stringify.
  - intros Hlt.
    destruct (batches_several _ (docs_of (src s) name) Hbpos Hlt)
      as (b1 & b2 & rest & ->).
    unfold exported. cbn [map concat]. apply JSON_parse_two_arrays.
Qed.

(** ** C4: the batches of a collection *)

(** C4.  For every batch size [b > 0], copying a collection of [n]
    documents goes through exactly [⌈n / b⌉] batches, which are, in order
    and put together, the documents of the collection; each batch has at
    most [b] documents (and at least one), the last one [n mod b] of them,
    or [b] when [n mod b = 0] and [n > 0]; a collection without documents
    gives no batch.  In a run in which no call fails, the run ends and, in
    live mode, these batches are the arguments of the [insertMany] calls; in
    export mode their serialisations are what is appended to the file of
    the collection; in import mode (with a file that parses as an array)
    there is one read of the file and one [insertMany] for each of them. *)
Theorem copyCollection_batches (name : string) (fuel : nat) (s : state) :
  faults s = [] ->
  0 < batchSize (self s) ->
  (length (docs_of (src s) name) < fuel)%nat ->
  exists bs,
    concat bs = docs_of (src s) name /\
    length bs = ceil_div (length (docs_of (src s) name))
                         (Z.to_nat (batchSize (self s))) /\
    Forall (fun batch =>
              (0 < length batch <= Z.to_nat (batchSize (self s)))%nat) bs /\
    (length (docs_of (src s) name) = 0%nat -> bs = []) /\
    ((0 < length (docs_of (src s) name))%nat ->
     exists batch,
       last bs = Some batch /\
       length batch = last_size (length (docs_of (src s) name))
                                (Z.to_nat (batchSize (self s)))) /\
    (exportJson (self s) = false -> importJson (self s) = false ->
     exists s',
       copyCollection fuel name s = (Ok tt, s') /\
       inserted (trace s') = inserted (trace s) ++ map JArr bs) /\
    (exportJson (self s) = true ->
     exists s',
       copyCollection fuel name s = (Ok tt, s') /\
       appended (trace s') =
         appended (trace s) ++
         map (fun batch => (file_of (self s) name, JSON_stringify (JArr batch)))
             bs) /\
    (exportJson (self s) = false -> importJson (self s) = true ->
     destDb (self s) = true ->
     forall content ds,
       files s !! file_of (self s) name = Some content ->
       JSON_parse content = Some (JArr ds) ->
       exists s',
         copyCollection fuel name s = (Ok tt, s') /\
         count_events is_file_read (trace s') =
           (count_events is_file_read (trace s) + length bs)%nat /\
         inserted (trace s') =
           inserted (trace s) ++ replicate (length bs) (JArr ds)).
Proof.
  intros Hf Hb Hfuel.
  assert (Hbpos : (0 < Z.to_nat (batchSize (self s)))%nat) by lia.
  destruct (batches_spec _ Hbpos _ (docs_of (src s) name) eq_refl)
    as (Hcat & Hcount & Hall & Hnil & Hlast).
  exists (batches (Z.to_nat (batchSize (self s))) (docs_of (src s) name)).
  do 5 (split; [ assumption | ]).
  split; [ | split ].
  - intros He Hi.
    destruct (copyCollection_live_run name fuel s) as (s' & Hrun & Hins & _);
      try assumption.
    exists s'. split; assumption.
  - intros He.
    destruct (copyCollection_export_run name fuel s) as (s' & Hrun & _ & Happ & _);
      try assumption.
    exists s'. split; assumption.
  - intros He Hi Hdb content ds Hfile Hparse.
    destruct (copyCollection_import_run name fuel s content ds)
      as (s' & Hrun & Hins & Hrd & _); try assumption.
    exists s'. repeat split; assumption.
Qed.

(** ** The sample runs *)

Lemma copyCollection_batches_witness :
  exists bs,
    concat bs = docs_of (src sample_state) "users" /\
    length bs = ceil_div (length (docs_of (src sample_state) "users"))
                         (Z.to_nat (batchSize (self sample_state))) /\
    Forall (fun batch =>
              (0 < length batch <= Z.to_nat (batchSize (self sample_state)))%nat)
           bs /\
    (length (docs_of (src sample_state) "users") = 0%nat -> bs = []) /\
    ((0 < length (docs_of (src sample_state) "users"))%nat ->
     exists batch,
       last bs = Some batch /\
       length batch = last_size (length (docs_of (src sample_state) "users"))
                                (Z.to_nat (batchSize (self sample_state)))) /\
    (exportJson (self sample_state) = false ->
     importJson (self sample_state) = false ->
     exists s',
       copyCollection 4 "users" sample_state = (Ok tt, s') /\
       inserted (trace s') = inserted (trace sample_state) ++ map JArr bs) /\
    (exportJson (self sample_state) = true ->
     exists s',
       copyCollection 4 "users" sample_state = (Ok tt, s') /\
       appended (trace s') =
         appended (trace sample_state) ++
         map (fun batch =>
                (file_of (self sample_state) "users", JSON_stringify (JArr batch)))
             bs) /\
    (exportJson (self sample_state) = false ->
     importJson (self sample_state) = true ->
     destDb (self sample_state) = true ->
     forall content ds,
       files sample_state !! file_of (self sample_state) "users" = Some content ->
       JSON_parse content = Some (JArr ds) ->
       exists s',
         copyCollection 4 "users" sample_state = (Ok tt, s') /\
         count_events is_file_read (trace s') =
           (count_events is_file_read (trace sample_state) + length bs)%nat /\
         inserted (trace s') =
           inserted (trace sample_state) ++ replicate (length bs) (JArr ds)).
Proof.
  apply (copyCollection_batches "users" 4 sample_state);
    [ reflexivity | reflexivity | vm_compute; lia ].
Defined.

(** The scenario of the specification: two documents, then one; and no
    batch for the empty collection. *)
Example live_scenario :
  let r := copyCollections 4 sample_state in
  fst r = Ok tt /\
  inserted (trace (snd r)) = [JArr [doc 1; doc 2]; JArr [doc 3]] /\
  dst (snd r) !! "users" = Some [doc 1; doc 2; doc 3] /\
  dst (snd r) !! "posts" = None.
Proof. vm_compute. repeat split. Qed.

Lemma import_once_per_batch_witness :
  exists s' k,
    copyCollection 4 "users" import_state = (Ok tt, s') /\
    k = length (batches (Z.to_nat (batchSize (self import_state)))
                        (docs_of (src import_state) "users")) /\
    k = ceil_div (length (docs_of (src import_state) "users"))
                 (Z.to_nat (batchSize (self import_state))) /\
    inserted (trace s') = inserted (trace import_state) ++ replicate k (JArr backup) /\
    count_events is_file_read (trace s') =
      (count_events is_file_read (trace import_state) + k)%nat /\
    default [] (dst s' !! "users") =
      default [] (dst import_state !! "users") ++ concat (replicate k backup) /\
    length (default [] (dst s' !! "users")) =
      (length (default [] (dst import_state !! "users")) + k * length backup)%nat.
Proof.
  apply (import_once_per_batch "users" 4 import_state
           (JSON_stringify (JArr backup)) backup);
    [ reflexivity | reflexivity | reflexivity | reflexivity | reflexivity
    | vm_compute; lia | vm_compute; reflexivity | vm_compute; reflexivity ].
Defined.

(** Three source documents in batches of two: the two documents of the file
    are inserted twice. *)
Example import_scenario :
  let r := copyCollection 4 "users" import_state in
  fst r = Ok tt /\
  dst (snd r) !! "users" = Some [doc 10; doc 11; doc 10; doc 11].
Proof. vm_compute. repeat split. Qed.

Lemma import_of_empty_source_witness :
  exists r s',
    copyCollection 1 "posts" import_state = (r, s') /\
    (r = Ok tt \/ exists e, r = Throw e) /\
    (faults import_state = [] -> r = Ok tt) /\
    dst s' = dst import_state /\ files s' = files import_state /\
    inserted (trace s') = inserted (trace import_state) /\
    count_events is_store_write (trace s') =
      count_events is_store_write (trace import_state) /\
    count_events is_file_access (trace s') =
      count_events is_file_access (trace import_state).
Proof.
  apply (import_of_empty_source "posts" 1 import_state);
    [ lia | reflexivity ].
Defined.

(** The file of the empty collection exists and holds two documents; none
    of them reaches the destination. *)
Example import_empty_scenario :
  let r := copyCollection 1 "posts" import_state in
  importJson (self import_state) = true /\
  (JSON_parse <$> files import_state !! "./backup/posts.json") =
    Some (Some (JArr backup)) /\
  fst r = Ok tt /\ dst (snd r) = ∅ /\
  trace (snd r) = [EvCount "posts"; EvFind "posts"; EvHasNext "posts";
                   EvLog LSuccess (MsgFinished "posts" 0)].
Proof. vm_compute. repeat split. Qed.

Lemma export_file_witness :
  exists s' content,
    copyCollection 4 "users" export_state = (Ok tt, s') /\
    files s' = <[file_of (self export_state) "users" := content]> (files export_state) /\
    content = exported (batches (Z.to_nat (batchSize (self export_state)))
                                (docs_of (src export_state) "users")) /\
    ((length (docs_of (src export_state) "users")
        <= Z.to_nat (batchSize (self export_state)))%nat ->
       appended (trace s') =
         appended (trace export_state) ++
         [(file_of (self export_state) "users", content)] /\
       content = JSON_stringify (JArr (docs_of (src export_state) "users")) /\
       JSON_parse content = Some (JArr (docs_of (src export_state) "users"))) /\
    ((Z.to_nat (batchSize (self export_state))
        < length (docs_of (src export_state) "users"))%nat ->
       JSON_parse content = None).
Proof.
  apply (export_file "users" 4 export_state);
    [ reflexivity | reflexivity | reflexivity | vm_compute; lia
    | vm_compute; lia | vm_compute; reflexivity ].
Defined.

(** A collection of one document, in one batch: the file is a JSON array. *)
Example export_scenario_one_batch :
  let r := copyCollection 2 "tags" export_state in
  fst r = Ok tt /\
  (JSON_parse <$> files (snd r) !! "./backup/tags.json") = Some (Some (JArr [doc 7])).
Proof. vm_compute. repeat split. Qed.

(** Three documents in batches of two: the file is not JSON. *)
Example export_scenario_two_batches :
  let r := copyCollection 4 "users" export_state in
  fst r = Ok tt /\
  files (snd r) !! "./backup/users.json" =
    Some (JSON_stringify (JArr [doc 1; doc 2]) ++ JSON_stringify (JArr [doc 3])) /\
  (JSON_parse <$> files (snd r) !! "./backup/users.json") = Some None.
Proof. vm_compute. repeat split. Qed.

(** C8, as it is stated, fails twice for collections that fit in one
    batch.  A collection without documents has at most [batchSize] of them,
    and no file is written for it.  And a collection of one document whose
    file exists already (it was exported before) gets its array appended to
    the old text: the file is not JSON. *)
Lemma export_file_not_always_an_array :
  (let r := copyCollection 1 "posts" export_state in
   (length (docs_of (src export_state) "posts")
      <= Z.to_nat (batchSize (self export_state)))%nat /\
   exportJson (self export_state) = true /\
   fst r = Ok tt /\
   files (snd r) = ∅ /\
   appended (trace (snd r)) = [] /\
   ~ (exists content,
        files (snd r) !! file_of (self export_state) "posts" = Some content /\
        JSON_parse content = Some (JArr (docs_of (src export_state) "posts")))) /\
  (let r := copyCollection 2 "tags" reexport_state in
   (length (docs_of (src reexport_state) "tags")
      <= Z.to_nat (batchSize (self reexport_state)))%nat /\
   exportJson (self reexport_state) = true /\
   fst r = Ok tt /\
   files (snd r) !! file_of (self reexport_state) "tags" =
     Some (JSON_stringify (JArr [doc 7]) ++ JSON_stringify (JArr [doc 7])) /\
   ~ (exists content,
        files (snd r) !! file_of (self reexport_state) "tags" = Some content /\
        JSON_parse content = Some (JArr (docs_of (src reexport_state) "tags")))).
Proof.
  cbv zeta. split.
  - split; [ vm_compute; lia | ].
    split; [ reflexivity | ].
    split; [ vm_compute; reflexivity | ].
    split; [ vm_compute; reflexivity | ].
    split; [ vm_compute; reflexivity | ].
    intros (content & H & _). vm_compute in H. discriminate H.
  - split; [ vm_compute; lia | ].
    split; [ reflexivity | ].
    split; [ vm_compute; reflexivity | ].
    split; [ vm_compute; reflexivity | ].
    intros (content & H & Hp).
    assert (E : files (snd (copyCollection 2 "tags" reexport_state))
                  !! file_of (self reexport_state) "tags" =
                Some (JSON_stringify (JArr [doc 7]) ++ JSON_stringify (JArr [doc 7])))
      by (vm_compute; reflexivity).
    pose proof (JSON_parse_two_arrays [doc 7] [doc 7] []) as N.
    rewrite app_nil_r in N.
    assert (Hc : content =
                 JSON_stringify (JArr [doc 7]) ++ JSON_stringify (JArr [doc 7]))
      by congruence.
    rewrite Hc, N in Hp. discriminate Hp.
Qed.

(** ** C10: the batch size of a constructed service *)

Lemma read_batch_nonpositive b name cursor batch s :
  b <= 0 -> read_batch b name 0 cursor batch s = (Ok (batch, cursor), s).
Proof.
  intros Hb. destruct cursor; cbn [read_batch];
    (destruct (Z.ltb_spec 0 b); [ lia | reflexivity ]).
Qed.

Lemma num_or_falsy x d : falsy x = true -> num_or x d = d.
Proof. destruct x as [ | | z ]; cbn; intros H; [ | | rewrite H ]; reflexivity. Qed.

Lemma num_or_keeps z d : z <> 0 -> num_or (JInt z) d = z.
Proof. intros Hz. cbn. destruct (Z.eqb_spec z 0); [ contradiction | reflexivity ]. Qed.

Lemma num_or_positive x :
  0 < num_or x 1000 <->
  falsy x = true \/ exists z, x = JInt z /\ 0 < z.
Proof.
  destruct x as [ | | z ]; cbn.
  - split; [ auto | lia ].
  - split; [ auto | lia ].
  - destruct (Z.eqb_spec z 0) as [-> | Hz].
    + split; [ auto | lia ].
    + split.
      * intros H. right. exists z. auto.
      * intros [H | (z' & [= <-] & H)]; [ discriminate H | exact H ].
Qed.

Lemma read_batch_progress b name cursor s :
  0 < b -> faults s = [] -> cursor <> [] ->
  exists s' batch rest,
    read_batch b name 0 cursor [] s = (Ok (batch, rest), s') /\
    batch <> [] /\ batch ++ rest = cursor /\
    (length rest < length cursor)%nat.
Proof.
  intros Hb Hf Hne.
  destruct (read_batch_ok b name cursor 0 [] s Hf) as (s' & Hrun).
  exists s', (take (Z.to_nat (b - 0)) cursor), (drop (Z.to_nat (b - 0)) cursor).
  split; [ exact Hrun | ].
  destruct cursor as [ | d rest ]; [ contradiction | ].
  replace (Z.to_nat (b - 0)) with (S (Z.to_nat (b - 1))) by lia.
  split; [ discriminate | ]. split; [ apply take_drop | ].
  rewrite length_drop. cbn [length]. lia.
Qed.

(** C10, as the code has it.  The constructor replaces a falsy [batchSize]
    option ([undefined], [NaN], [0]) by 1000 and keeps every other number,
    a negative one too.  So the batch size of the constructed service is
    strictly positive exactly when the option is falsy or positive; and with
    a positive batch size a round of the batch loop on a cursor that has
    documents left takes at least one of them (when no call fails). *)
Theorem constructor_batchSize (o : options) :
  (falsy (opt_batchSize o) = true -> batchSize (constructor o) = 1000) /\
  (forall z, opt_batchSize o = JInt z -> z <> 0 ->
             batchSize (constructor o) = z) /\
  (0 < batchSize (constructor o) <->
   falsy (opt_batchSize o) = true \/
   exists z, opt_batchSize o = JInt z /\ 0 < z) /\
  (forall name cursor s,
     0 < batchSize (constructor o) -> faults s = [] -> cursor <> [] ->
     exists s' batch rest,
       read_batch (batchSize (constructor o)) name 0 cursor [] s =
         (Ok (batch, rest), s') /\
       batch <> [] /\ batch ++ rest = cursor /\
       (length rest < length cursor)%nat).
Proof.
  unfold constructor. cbn [batchSize].
  split; [ apply num_or_falsy | ].
  split; [ intros z -> Hz; apply num_or_keeps, Hz | ].
  split; [ apply num_or_positive | ].
  intros name cursor s. apply read_batch_progress.
Qed.

Lemma constructor_batchSize_witness :
  (falsy (opt_batchSize sample_options) = true ->
   batchSize (constructor sample_options) = 1000) /\
  (forall z, opt_batchSize sample_options = JInt z -> z <> 0 ->
             batchSize (constructor sample_options) = z) /\
  (0 < batchSize (constructor sample_options) <->
   falsy (opt_batchSize sample_options) = true \/
   exists z, opt_batchSize sample_options = JInt z /\ 0 < z) /\
  (forall name cursor s,
     0 < batchSize (constructor sample_options) -> faults s = [] ->
     cursor <> [] ->
     exists s' batch rest,
       read_batch (batchSize (constructor sample_options)) name 0 cursor [] s =
         (Ok (batch, rest), s') /\
       batch <> [] /\ batch ++ rest = cursor /\
       (length rest < length cursor)%nat).
Proof. exact (constructor_batchSize sample_options). Defined.

Example constructor_defaults :
  batchSize (constructor (Options None JUndefined None None None None None)) = 1000 /\
  batchSize (constructor (Options None JNaN None None None None None)) = 1000 /\
  batchSize (constructor (Options None (JInt 0) None None None None None)) = 1000 /\
  batchSize (constructor (Options None (JInt 500) None None None None None)) = 500.
Proof. repeat split. Qed.

(** C10, as it is stated, fails: a negative batch size is truthy, the
    constructor keeps it, and a round of the batch loop then reads nothing
    and leaves the cursor where it was. *)
Lemma constructor_keeps_negative_batchSize :
  batchSize (constructor negative_options) = -5 /\
  ~ (0 < batchSize (constructor negative_options)) /\
  read_batch (batchSize (constructor negative_options)) "users" 0
    [doc 1; doc 2] [] (initial (connected (constructor negative_options))) =
  (Ok ([], [doc 1; doc 2]), initial (connected (constructor negative_options))).
Proof.
  split; [ reflexivity | ]. split; [ cbn; lia | reflexivity ].
Qed.

(** With such a batch size the export of a collection that has documents
    never ends: every round appends an empty array to the file. *)
Lemma nonpositive_batchSize_never_ends name totalDocs fuel :
  forall cursor processed s,
    cursor <> [] -> faults s = [] -> batchSize (self s) <= 0 ->
    exportJson (self s) = true ->
    fst (copy_loop fuel name totalDocs cursor processed s) = Diverge.
Proof.
  induction fuel as [ | fuel IH ]; intros cursor processed s Hne Hf Hb He;
    [ reflexivity | ].
  cbn [copy_loop]. run_with (apply hasNext_ok, Hf).
  destruct cursor as [ | d rest ]; [ contradiction | ].
  run_pure. cbn [self set_clock set_trace].
  run_with (apply read_batch_nonpositive, Hb). cbn [fst snd].
  unfold write_batch. rewrite bind_assoc. run_pure.
  cbn [self set_clock set_trace]. rewrite He.
  unfold exportBatchToJson.
  do 3 (rewrite ?bind_assoc; run_pure).
  cbn [dirs set_trace set_clock]. rewrite ?bind_assoc.
  destruct (bool_decide _);
    [ run_pure
    | rewrite ?bind_assoc; run_pure; rewrite ?bind_assoc; run_tick Hf;
      rewrite ?bind_assoc; run_pure ];
    rewrite ?bind_assoc; run_pure; rewrite ?bind_assoc; run_tick Hf;
    rewrite ?bind_assoc; run_pure; unfold spinner; run_pure;
    apply IH; auto.
Qed.

(** ** Runs that start from a state with a property *)

Section KeepsFrom.
Variable I : state -> Prop.
Variable R : state -> state -> Prop.
Hypothesis R_refl : forall s, R s s.
Hypothesis R_trans : forall s1 s2 s3, R s1 s2 -> R s2 s3 -> R s1 s3.
Hypothesis I_R : forall s s', I s -> R s s' -> I s'.

Lemma keeps_from_keeps {A} (m : M A) : keeps R m -> keeps_from I R m.
Proof using Type. intros Hm s r s' _ Hrun. eapply Hm, Hrun. Qed.

Lemma keeps_from_bind {A B} (m : M A) (k : A -> M B) :
  keeps_from I R m -> (forall a, keeps_from I R (k a)) ->
  keeps_from I R (bind m k).
Proof using R_trans I_R.
  intros Hm Hk s r s' Hs Hrun. unfold bind in Hrun.
  destruct (m s) as [[a | e | c | ] s1] eqn:E; specialize (Hm _ _ _ Hs E).
  - eapply R_trans; [ exact Hm | eapply Hk; [ eapply I_R; eassumption | exact Hrun ] ].
  - injection Hrun as <- <-. exact Hm.
  - injection Hrun as <- <-. exact Hm.
  - injection Hrun as <- <-. exact Hm.
Qed.

Lemma keeps_from_this {B} (k : service -> M B) :
  (forall s0, I s0 -> keeps_from (fun s => I s /\ self s = self s0) R (k (self s0))) ->
  keeps_from I R (bind this k).
Proof using Type.
  intros Hk s r s' Hs Hrun. unfold bind, this in Hrun.
  eapply (Hk s Hs); [ | exact Hrun ]. auto.
Qed.

Lemma keeps_from_try_catch {A} (m : M A) (h : error -> M A) :
  keeps_from I R m -> (forall e, keeps_from I R (h e)) ->
  keeps_from I R (try_catch m h).
Proof using R_trans I_R.
  intros Hm Hh s r s' Hs Hrun. unfold try_catch in Hrun.
  destruct (m s) as [[a | e | c | ] s1] eqn:E; specialize (Hm _ _ _ Hs E).
  - injection Hrun as <- <-. exact Hm.
  - eapply R_trans; [ exact Hm | eapply Hh; [ eapply I_R; eassumption | exact Hrun ] ].
  - injection Hrun as <- <-. exact Hm.
  - injection Hrun as <- <-. exact Hm.
Qed.

Lemma keeps_from_try_finally {A} (m : M A) (c : M unit) :
  keeps_from I R m -> keeps_from I R c -> keeps_from I R (try_finally m c).
Proof using R_trans I_R.
  intros Hm Hc s r s' Hs Hrun. unfold try_finally in Hrun.
  destruct (m s) as [[a | e | x | ] s1] eqn:E; specialize (Hm _ _ _ Hs E).
  - destruct (c s1) as [[u | e | x | ] s2] eqn:E2;
      specialize (Hc _ _ _ (I_R _ _ Hs Hm) E2);
      injection Hrun as <- <-; eapply R_trans; eassumption.
  - destruct (c s1) as [[u | e' | x | ] s2] eqn:E2;
      specialize (Hc _ _ _ (I_R _ _ Hs Hm) E2);
      injection Hrun as <- <-; eapply R_trans; eassumption.
  - injection Hrun as <- <-. exact Hm.
  - injection Hrun as <- <-. exact Hm.
Qed.

Lemma keeps_from_for_of {A} (l : list A) (body : A -> M unit) :
  (forall x, keeps_from I R (body x)) -> keeps_from I R (for_of l body).
Proof using R_refl R_trans I_R.
  intros Hb. induction l as [ | x l IHl ]; cbn [for_of].
  - apply keeps_from_keeps, keeps_ret, R_refl.
  - apply keeps_from_bind; [ apply Hb | intros _; exact IHl ].
Qed.
End KeepsFrom.

(** ** The calls of a job *)

Lemma closeClients_ok s :
  exists s',
    closeClients s = (Ok tt, s') /\
    trace s' = trace s ++ closes (self s) /\
    src s' = src s /\ dst s' = dst s /\ files s' = files s /\
    dirs s' = dirs s /\ answers s' = answers s /\ faults s' = faults s /\
    self s' = self s.
Proof.
  unfold closeClients, close, closes. run_pure.
  destruct (sourceClient (self s)), (destClient (self s));
    eexists; (split; [ reflexivity | ]);
    cbn [trace src dst files dirs answers faults self set_trace set_clock app];
    rewrite <- ?app_assoc, ?app_nil_r; repeat split; reflexivity.
Qed.

Lemma keeps_closeClients strict :
  keeps (step strict is_close) closeClients.
Proof.
  unfold closeClients, close. apply step_bind; [ keeps_step | intros v ].
  apply step_bind; [ | intros _ ];
    (apply keeps_if; [ | keeps_step ]); keeps_all.
Qed.

Lemma ev_sub_any (P : event -> bool) e : P e = true -> ev_any e = true.
Proof. reflexivity. Qed.

Lemma ev_copy_process e : ev_copy e = true -> ev_process e = true.
Proof.
  destruct e as [ | | | | | [ | ] | | | | | | | | | | | | | ]; cbn; congruence.
Qed.

Lemma ev_collection_process sd e :
  ev_collection sd e = true -> ev_process e = true.
Proof.
  destruct e as [ | | | | | [ | ] | | | | | | | | | | | | | ], sd; cbn; congruence.
Qed.

Lemma ev_process_job e : ev_process e = true -> ev_job e = true.
Proof.
  destruct e as [ | | | | | | | | | | | | | | | | [ | | | | ] | | ]; cbn;
    congruence.
Qed.

(** One round of the loop, after the spinner was told the name. *)
Lemma keeps_process_rest fuel name :
  keeps (step false ev_process)
    (collection Source name ;;
     collection Dest name ;;
     let* v := this in
     if dryRun v then log LInfo (MsgDryRun name)
     else copyCollection fuel name).
Proof.
  apply step_bind; [ | intros _ ].
  { eapply keeps_sub; [ apply (ev_collection_process Source) |
                      | apply (keeps_collection false Source) ]; auto. }
  apply step_bind; [ | intros _ ].
  { eapply keeps_sub; [ apply (ev_collection_process Dest) |
                      | apply (keeps_collection false Dest) ]; auto. }
  apply step_bind; [ keeps_step | intros v ].
  apply keeps_if; [ keeps_step | ].
  eapply keeps_sub; [ apply ev_copy_process | | apply keeps_copyCollection ]; auto.
Qed.

Lemma keeps_process_collection fuel name :
  keeps (step false ev_job) (process_collection fuel name).
Proof.
  unfold process_collection. apply step_bind; [ keeps_step | intros _ ].
  eapply keeps_sub; [ apply ev_process_job | | apply keeps_process_rest ]; auto.
Qed.

Lemma keeps_copyCollections fuel :
  keeps (step false ev_any) (copyCollections fuel).
Proof.
  unfold copyCollections.
  apply step_bind; [ | intros plan ].
  { eapply keeps_sub; [ apply ev_sub_any | | apply keeps_listCollections ]; auto. }
  apply step_bind; [ keeps_step | intros v ].
  apply step_bind; [ | intros ok ].
  { apply keeps_if; [ keeps_step | ].
    eapply keeps_sub; [ apply ev_sub_any | | apply keeps_confirm ]; auto. }
  apply keeps_if; [ keeps_step | ].
  apply step_bind; [ keeps_step | intros _ ].
  apply keeps_try_finally; [ apply step_trans | | ].
  - apply keeps_try_catch; [ apply step_trans | | intros e; keeps_all ].
    apply step_bind; [ | intros _; keeps_step ].
    apply keeps_for_of; [ apply step_refl | apply step_trans | ].
    intros name. eapply keeps_sub; [ apply ev_sub_any |
                                   | apply keeps_process_collection ]; auto.
  - eapply keeps_sub; [ apply ev_sub_any | | apply (keeps_closeClients false) ]. auto.
Qed.

(** ** C5: a dry run *)

Lemma ev_prelude_dry e : ev_prelude e = true -> ev_dry e = true.
Proof. destruct e; cbn; congruence. Qed.

Lemma ev_collection_dry sd e : ev_collection sd e = true -> ev_dry e = true.
Proof.
  destruct e as [ | | | | | [ | ] | | | | | | | | | | | | | ], sd; cbn; congruence.
Qed.

Lemma is_close_dry e : is_close e = true -> ev_dry e = true.
Proof. destruct e; cbn; congruence. Qed.

Lemma dry_step strict P s s' :
  dryRun (self s) = true -> step strict P s s' -> dryRun (self s') = true.
Proof.
  intros Hdry (_ & _ & _ & Hc & _). unfold config in Hc.
  injection Hc as _ Hd _. congruence.
Qed.

Lemma keeps_from_dry_bind {A B} (m : M A) (k : A -> M B) :
  keeps_from (fun s => dryRun (self s) = true) (step true ev_dry) m ->
  (forall a, keeps_from (fun s => dryRun (self s) = true) (step true ev_dry) (k a)) ->
  keeps_from (fun s => dryRun (self s) = true) (step true ev_dry) (bind m k).
Proof.
  apply keeps_from_bind; [ apply step_trans | ].
  intros s s'. apply dry_step.
Qed.

Lemma keeps_dry {A} (P : event -> bool) (m : M A) :
  (forall e, P e = true -> ev_dry e = true) ->
  keeps (step true P) m ->
  keeps_from (fun s => dryRun (self s) = true) (step true ev_dry) m.
Proof.
  intros HP Hm. apply keeps_from_keeps.
  eapply keeps_sub; [ exact HP | | exact Hm ]. auto.
Qed.

Lemma process_collection_dry fuel name :
  keeps_from (fun s => dryRun (self s) = true) (step true ev_dry)
    (process_collection fuel name).
Proof.
  unfold process_collection.
  apply keeps_from_dry_bind; [ | intros _ ].
  { apply (keeps_dry ev_dry); [ auto | keeps_step ]. }
  apply keeps_from_dry_bind; [ | intros _ ].
  { apply (keeps_dry _ _ (ev_collection_dry Source)), keeps_collection. }
  apply keeps_from_dry_bind; [ | intros _ ].
  { apply (keeps_dry _ _ (ev_collection_dry Dest)), keeps_collection. }
  intros s r s' Hdry. unfold bind, this. rewrite Hdry.
  apply (keeps_emit true ev_dry). reflexivity.
Qed.

Lemma copyCollections_dry fuel :
  keeps_from (fun s => dryRun (self s) = true) (step true ev_dry)
    (copyCollections fuel).
Proof.
  unfold copyCollections.
  apply keeps_from_dry_bind; [ | intros plan ].
  { apply (keeps_dry _ _ ev_prelude_dry), keeps_listCollections. }
  apply keeps_from_dry_bind; [ | intros v ].
  { apply (keeps_dry ev_dry); [ auto | keeps_step ]. }
  apply keeps_from_dry_bind; [ | intros ok ].
  { destruct (yes v).
    - apply (keeps_dry ev_dry); [ auto | keeps_step ].
    - apply (keeps_dry _ _ ev_prelude_dry), keeps_confirm. }
  destruct (negb ok).
  { apply (keeps_dry ev_dry); [ auto | keeps_step ]. }
  apply keeps_from_dry_bind; [ | intros _ ].
  { apply (keeps_dry ev_dry); [ auto | keeps_step ]. }
  apply keeps_from_try_finally;
    [ apply step_trans | intros s s'; apply dry_step | | ].
  - apply keeps_from_try_catch;
      [ apply step_trans | intros s s'; apply dry_step | | ].
    + apply keeps_from_dry_bind; [ | intros _ ].
      * apply keeps_from_for_of;
          [ apply step_refl | apply step_trans | intros s s'; apply dry_step | ].
        intros name. apply process_collection_dry.
      * apply (keeps_dry ev_dry); [ auto | keeps_step ].
    + intros e. apply (keeps_dry ev_dry); [ auto | keeps_all ].
  - apply (keeps_dry _ _ is_close_dry), keeps_closeClients.
Qed.

Lemma for_of_dry fuel plan :
  forall s,
    sourceDb (self s) = true -> destDb (self s) = true ->
    dryRun (self s) = true ->
    for_of plan (process_collection fuel) s =
    (Ok tt, set_trace (trace s ++ flat_map dry_events plan) s).
Proof.
  induction plan as [ | name plan IH ]; intros s Hs Hd Hdry; cbn [for_of flat_map].
  - rewrite app_nil_r. destruct s; reflexivity.
  - assert (E : process_collection fuel name s =
                (Ok tt, set_trace (trace s ++ dry_events name) s)).
    { unfold process_collection, spinner, collection, log.
      run_pure. run_with (run_pure; cbn [self set_trace]; rewrite Hs; reflexivity).
      run_with (run_pure; cbn [self set_trace]; rewrite Hd; reflexivity).
      run_pure. cbn [self set_trace]. rewrite Hdry.
      unfold emit, modify, dry_events. cbn [trace set_trace].
      rewrite <- !app_assoc. reflexivity. }
    run_with (exact E). rewrite IH by assumption.
    cbn [trace set_trace]. rewrite <- app_assoc. reflexivity.
Qed.

Lemma dry_is_quiet evs :
  forallb ev_dry evs = true ->
  count_events is_store_write evs = 0%nat /\
  count_events is_file_access evs = 0%nat /\
  count_events is_collection_use evs = 0%nat.
Proof.
  intros H. repeat split; apply (count_none _ ev_dry); try exact H;
    intros e; destruct e; cbn; congruence.
Qed.

(** C5.  When [dryRun] is set the run is log-only: whatever the plan,
    whatever fails, the destination store receives no write call, no file
    is tested, created, written or read, no method is called on a collection
    handle or on a cursor, and the store, the files and the directories are
    what they were.  For every collection of the plan the loop names it to
    the spinner, obtains the two collection handles (no call is made on
    them), logs the intent and goes on to the next collection: with both
    databases at hand it ends normally after the last one, having made no
    call to the driver. *)
Theorem dry_run_is_log_only (fuel : nat) (s : state) :
  dryRun (self s) = true ->
  (exists r s' evs,
     copyCollections fuel s = (r, s') /\
     trace s' = trace s ++ evs /\
     dst s' = dst s /\ files s' = files s /\ dirs s' = dirs s /\
     count_events is_store_write evs = 0%nat /\
     count_events is_file_access evs = 0%nat /\
     count_events is_collection_use evs = 0%nat) /\
  (forall plan,
     sourceDb (self s) = true -> destDb (self s) = true ->
     for_of plan (process_collection fuel) s =
     (Ok tt, set_trace (trace s ++ flat_map dry_events plan) s)).
Proof.
  intros Hdry. split.
  - destruct (copyCollections fuel s) as [r s'] eqn:E.
    destruct (copyCollections_dry fuel s r s' Hdry E)
      as ((evs & Ht & Hp) & _ & _ & _ & Hst).
    destruct (Hst eq_refl) as (Hd & Hf & Hdi).
    destruct (dry_is_quiet evs Hp) as (H1 & H2 & H3).
    exists r, s', evs. repeat split; assumption.
  - intros plan Hs Hd. apply for_of_dry; assumption.
Qed.

(** ** C2: an error while streaming ends the job *)

Lemma for_of_app {A} (l1 l2 : list A) (body : A -> M unit) s :
  for_of (l1 ++ l2) body s = bind (for_of l1 body) (fun _ => for_of l2 body) s.
Proof.
  revert s. induction l1 as [ | x l1 IH ]; intros s; cbn [app for_of].
  - reflexivity.
  - rewrite bind_assoc.
    destruct (body x s) as [[[] | e | c | ] s1] eqn:E.
    + rewrite !(bind_ok _ _ _ _ _ E). apply IH.
    + unfold bind. rewrite E. reflexivity.
    + unfold bind. rewrite E. reflexivity.
    + unfold bind. rewrite E. reflexivity.
Qed.

Lemma processed_names_process evs :
  forallb ev_process evs = true -> processed_names evs = [].
Proof.
  apply skipped; [ reflexivity | ].
  intros [ | | | | | [ | ] | | | | | | | | | | | [ | | | | ] | | ] t; cbn;
    congruence.
Qed.

Lemma process_collection_trace fuel name s r s' :
  process_collection fuel name s = (r, s') ->
  exists evs,
    trace s' = trace s ++ EvSpinner (SpProcessing name) :: evs /\
    forallb ev_process evs = true.
Proof.
  unfold process_collection, spinner. intros Hrun.
  erewrite bind_ok in Hrun by reflexivity.
  apply keeps_process_rest in Hrun as ((evs & Ht & Hp) & _).
  exists evs. cbn [trace set_trace] in Ht. rewrite Ht, <- app_assoc.
  split; [ reflexivity | exact Hp ].
Qed.

Lemma for_of_processed fuel plan :
  forall s s',
    for_of plan (process_collection fuel) s = (Ok tt, s') ->
    exists evs,
      trace s' = trace s ++ evs /\ forallb ev_job evs = true /\
      processed_names evs = plan.
Proof.
  induction plan as [ | name plan IH ]; intros s s' Hrun; cbn [for_of] in Hrun.
  - injection Hrun as <-. exists []. rewrite app_nil_r. auto.
  - unfold bind in Hrun.
    destruct (process_collection fuel name s) as [[[] | e | c | ] s1] eqn:E;
      try discriminate Hrun.
    destruct (process_collection_trace _ _ _ _ _ E) as (ev1 & Ht1 & Hp1).
    destruct (IH _ _ Hrun) as (ev2 & Ht2 & Hp2 & Hn2).
    exists (EvSpinner (SpProcessing name) :: ev1 ++ ev2).
    rewrite Ht2, Ht1, <- app_assoc. split; [ reflexivity | ].
    cbn [forallb ev_job processed_names andb].
    rewrite forallb_app, processed_names_app, Hp2, Hn2,
      (processed_names_process _ Hp1).
    split; [ | reflexivity ].
    rewrite andb_true_r. rewrite forallb_forall in *.
    intros e He. apply ev_process_job, Hp1, He.
Qed.

Lemma job_has_no_close e : ev_job e = true -> is_close e = false.
Proof.
  destruct e as [ | | | | | [ | ] | | | | | | | | | | | [ | | | | ] | | ];
    cbn; congruence.
Qed.

Lemma prelude_has_no_close e : ev_prelude e = true -> is_close e = false.
Proof. destruct e; cbn; congruence. Qed.

Lemma prelude_names evs :
  forallb ev_prelude evs = true -> processed_names evs = [].
Proof.
  apply skipped; [ reflexivity | ].
  intros [ | | | | | | | | | | | | | | | | [ | | | | ] | | ] t; cbn;
    congruence.
Qed.

Lemma step_clients strict P s s' :
  step strict P s s' ->
  sourceClient (self s') = sourceClient (self s) /\
  destClient (self s') = destClient (self s).
Proof.
  intros (_ & _ & _ & Hc & _). unfold config in Hc.
  injection Hc as _ _ _ _ _ _ H1 H2 _ _. auto.
Qed.

Lemma count_close_of sd evs :
  count_events is_close evs = 0%nat ->
  count_events (is_close_of sd) evs = 0%nat.
Proof.
  unfold count_events. induction evs as [ | e evs IH ]; [ reflexivity | ].
  cbn [List.filter]. destruct e as [ | [ | ] | | | | | | | | | | | | | | | | | ], sd;
    cbn [is_close is_close_of length]; try discriminate; exact IH.
Qed.

(** C2.  Take a plan [pre ++ k :: post] of [n] collections, a run of
    [copyCollections] in which the enumeration returned that plan, the
    confirmation was given (or skipped), the collections of [pre] were
    processed, and the processing of collection [k] raised the error [e]
    (whatever call failed: a cursor read, an insert, a file access).  Then
    the error is caught once, for the whole loop: the job reports the
    failure, closes the two clients and returns, and that is all it does
    after the error.  The collection [k] is not tried again and no
    collection of [post] is processed: the collections whose processing
    started are [pre ++ [k]].  Each client is closed exactly once in the
    run. *)
Theorem streaming_error_aborts (fuel : nat) (s0 s1 s2 s3 s4 : state)
    (pre post : list string) (k : string) (e : error) :
  sourceClient (self s0) = true -> destClient (self s0) = true ->
  listCollections s0 = (Ok (pre ++ k :: post), s1) ->
  (if yes (self s1) then ret true else confirm (pre ++ k :: post)) s1 =
    (Ok true, s2) ->
  for_of pre (process_collection fuel)
    (set_trace (trace s2 ++ [EvSpinner SpStart]) s2) = (Ok tt, s3) ->
  process_collection fuel k s3 = (Throw e, s4) ->
  exists s5 evs,
    copyCollections fuel s0 = (Ok tt, s5) /\
    trace s5 = trace s4 ++ [EvSpinner SpFail; EvLog LError (MsgError e);
                            EvClose Source; EvClose Dest] /\
    src s5 = src s4 /\ dst s5 = dst s4 /\ files s5 = files s4 /\
    dirs s5 = dirs s4 /\ self s5 = self s4 /\
    trace s5 = trace s0 ++ evs /\
    processed_names evs = pre ++ [k] /\
    count_events (is_close_of Source) evs = 1%nat /\
    count_events (is_close_of Dest) evs = 1%nat.
Proof.
  intros Hsc Hdc Hlist Hconf Hpre Hk.
  (* the events up to the error *)
  pose proof (keeps_listCollections _ _ _ Hlist) as St1.
  assert (St2 : step true ev_prelude s1 s2).
  { destruct (yes (self s1)).
    - injection Hconf as <-. apply step_refl.
    - exact (keeps_confirm _ _ _ _ Hconf). }
  destruct St1 as ((ev1 & Ht1 & Hp1) & _ & _ & Hc1 & _).
  destruct St2 as ((ev2 & Ht2 & Hp2) & _ & _ & Hc2 & _).
  destruct (for_of_processed _ _ _ _ Hpre) as (ev3 & Ht3 & Hp3 & Hn3).
  destruct (process_collection_trace _ _ _ _ _ Hk) as (ev4 & Ht4 & Hp4).
  pose proof (keeps_for_of _ (step_refl false ev_job) (step_trans false ev_job)
                pre _ (keeps_process_collection fuel) _ _ _ Hpre)
    as (_ & _ & _ & Hc3 & _).
  pose proof (keeps_process_collection _ _ _ _ _ Hk) as (_ & _ & _ & Hc4 & _).
  cbn [self set_trace trace] in Ht3, Hc3.
  assert (Hcfg : config (self s4) = config (self s0)) by congruence.
  unfold config in Hcfg. injection Hcfg as _ _ _ _ _ _ Hsc4 Hdc4 _ _.
  (* the run *)
  destruct (closeClients_ok
              (set_trace ((trace s4 ++ [EvSpinner SpFail]) ++
                          [EvLog LError (MsgError e)]) s4))
    as (s5 & Hclose & Ht5 & Hsrc & Hdst & Hfiles & Hdirs & _ & _ & Hself).
  cbn [trace src dst files dirs self set_trace]
    in Ht5, Hsrc, Hdst, Hfiles, Hdirs, Hself.
  unfold closes in Ht5. rewrite Hsc4, Hdc4, Hsc, Hdc in Ht5. cbn [app] in Ht5.
  exists s5,
    (ev1 ++ ev2 ++ [EvSpinner SpStart] ++ ev3 ++
     (EvSpinner (SpProcessing k) :: ev4) ++
     [EvSpinner SpFail; EvLog LError (MsgError e); EvClose Source; EvClose Dest]).
  split.
  { unfold copyCollections. run_with (exact Hlist). run_pure.
    run_with (exact Hconf). cbn [negb]. unfold spinner at 1. run_pure.
    assert (E : (for_of (pre ++ k :: post) (process_collection fuel) ;;
                 spinner SpSucceed)
                  (set_trace (trace s2 ++ [EvSpinner SpStart]) s2)
                = (Throw e, s4)).
    { apply bind_throw. rewrite for_of_app.
      erewrite bind_ok by exact Hpre. cbn [for_of].
      apply bind_throw. exact Hk. }
    unfold try_finally, try_catch. rewrite E. cbv beta iota.
    change ((spinner SpFail ;; log LError (MsgError e)) s4)
      with (Ok tt, set_trace ((trace s4 ++ [EvSpinner SpFail]) ++
                              [EvLog LError (MsgError e)]) s4).
    cbv beta iota. rewrite Hclose. reflexivity. }
  rewrite Ht5, <- !app_assoc. cbn [app].
  split; [ reflexivity | ].
  repeat (split; [ assumption | ]).
  split.
  { rewrite Ht4, Ht3, Ht2, Ht1, <- !app_assoc. reflexivity. }
  split.
  { repeat first [ rewrite processed_names_app
                 | progress cbn [processed_names app] ].
    rewrite (prelude_names _ Hp1), (prelude_names _ Hp2), Hn3,
      (processed_names_process _ Hp4). reflexivity. }
  assert (Hz : forall sd,
    count_events (is_close_of sd)
      (ev1 ++ ev2 ++ EvSpinner SpStart :: ev3 ++ EvSpinner (SpProcessing k) :: ev4)
    = 0%nat).
  { intros sd. apply count_close_of.
    rewrite !count_events_app.
    rewrite (count_none _ _ _ prelude_has_no_close Hp1),
            (count_none _ _ _ prelude_has_no_close Hp2).
    change (EvSpinner SpStart :: ev3 ++ EvSpinner (SpProcessing k) :: ev4)
      with ([EvSpinner SpStart] ++ ev3 ++ [EvSpinner (SpProcessing k)] ++ ev4).
    rewrite !count_events_app.
    rewrite (count_none _ _ _ job_has_no_close Hp3).
    rewrite (count_none is_close ev_job ev4).
    - reflexivity.
    - apply job_has_no_close.
    - rewrite forallb_forall in *. intros x Hx. apply ev_process_job, Hp4, Hx. }
  split.
  - replace (ev1 ++ ev2 ++ EvSpinner SpStart :: ev3 ++
             EvSpinner (SpProcessing k) :: ev4 ++
             [EvSpinner SpFail; EvLog LError (MsgError e); EvClose Source; EvClose Dest])
      with ((ev1 ++ ev2 ++ EvSpinner SpStart :: ev3 ++
             EvSpinner (SpProcessing k) :: ev4) ++
            [EvSpinner SpFail; EvLog LError (MsgError e); EvClose Source; EvClose Dest])
      by (rewrite <- !app_assoc; cbn [app]; rewrite <- !app_assoc; reflexivity).
    rewrite count_events_app, Hz. reflexivity.
  - replace (ev1 ++ ev2 ++ EvSpinner SpStart :: ev3 ++
             EvSpinner (SpProcessing k) :: ev4 ++
             [EvSpinner SpFail; EvLog LError (MsgError e); EvClose Source; EvClose Dest])
      with ((ev1 ++ ev2 ++ EvSpinner SpStart :: ev3 ++
             EvSpinner (SpProcessing k) :: ev4) ++
            [EvSpinner SpFail; EvLog LError (MsgError e); EvClose Source; EvClose Dest])
      by (rewrite <- !app_assoc; cbn [app]; rewrite <- !app_assoc; reflexivity).
    rewrite count_events_app, Hz. reflexivity.
Qed.

Lemma streaming_error_aborts_witness :
  exists s5 evs,
    copyCollections 4 abort_state = (Ok tt, s5) /\
    trace s5 = trace abort_at ++
               [EvSpinner SpFail; EvLog LError (MsgError (DriverError 14));
                EvClose Source; EvClose Dest] /\
    src s5 = src abort_at /\ dst s5 = dst abort_at /\
    files s5 = files abort_at /\ dirs s5 = dirs abort_at /\
    self s5 = self abort_at /\
    trace s5 = trace abort_state ++ evs /\
    processed_names evs = ["tags"] ++ ["users"] /\
    count_events (is_close_of Source) evs = 1%nat /\
    count_events (is_close_of Dest) evs = 1%nat.
Proof.
  apply (streaming_error_aborts 4 abort_state abort_listed abort_listed
           abort_before abort_at ["tags"] ["posts"] "users" (DriverError 14));
    vm_compute; reflexivity.
Defined.

(** The insert of the first batch of [users] fails: [tags] was copied,
    [posts] is never looked at, and the clients are closed once. *)
Example abort_scenario :
  let r := copyCollections 4 abort_state in
  fst r = Ok tt /\
  processed_names (trace (snd r)) = ["tags"; "users"] /\
  dst (snd r) !! "tags" = Some [doc 7] /\
  dst (snd r) !! "users" = None /\
  dst (snd r) !! "posts" = None /\
  count_events is_close (trace (snd r)) = 2%nat.
Proof. vm_compute. repeat split. Qed.

Lemma dry_run_is_log_only_witness :
  (exists r s' evs,
     copyCollections 4 dry_state = (r, s') /\
     trace s' = trace dry_state ++ evs /\
     dst s' = dst dry_state /\ files s' = files dry_state /\
     dirs s' = dirs dry_state /\
     count_events is_store_write evs = 0%nat /\
     count_events is_file_access evs = 0%nat /\
     count_events is_collection_use evs = 0%nat) /\
  (forall plan,
     sourceDb (self dry_state) = true -> destDb (self dry_state) = true ->
     for_of plan (process_collection 4) dry_state =
     (Ok tt, set_trace (trace dry_state ++ flat_map dry_events plan) dry_state)).
Proof. apply (dry_run_is_log_only 4 dry_state). reflexivity. Defined.

Example dry_scenario :
  let r := copyCollections 4 dry_state in
  fst r = Ok tt /\
  trace (snd r) =
    [EvListCollections; EvSpinner SpStart] ++
    dry_events "posts" ++ dry_events "users" ++ dry_events "tags" ++
    [EvSpinner SpSucceed; EvClose Source; EvClose Dest] /\
  clock (snd r) = 3%nat.
Proof. vm_compute. repeat split. Qed.

(** ** C1: the exits of a job and the cleanup *)

Lemma bind_exit {A B} (m : M A) (k : A -> M B) s c s1 :
  m s = (Exit c, s1) -> bind m k s = (Exit c, s1).
Proof. intros E. unfold bind. rewrite E. reflexivity. Qed.

(** Declining the confirmation returns before the [try]: nothing is closed. *)
Lemma copyCollections_declined fuel s :
  sourceDb (self s) = true -> yes (self s) = false ->
  bool_decide (clock s ∈ faults s) = false ->
  bool_decide (S (clock s) ∈ faults s) = false ->
  hd false (answers s) = false ->
  exists s',
    copyCollections fuel s = (Ok tt, s') /\
    trace s' = trace s ++
      [EvListCollections;
       EvConfirm (resolve (collections (self s)) (map fst (src s)));
       EvLog LWarn MsgCancelled] /\
    self s' = set_collections (resolve (collections (self s)) (map fst (src s)))
                (self s).
Proof.
  intros Hdb Hyes Ht1 Ht2 Hans.
  unfold copyCollections, listCollections.
  rewrite !bind_assoc. run_pure. rewrite Hdb.
  rewrite !bind_assoc. run_pure. rewrite !bind_assoc. run_pure.
  rewrite !bind_assoc. run_tick Ht1.
  rewrite !bind_assoc. run_pure. rewrite !bind_assoc. run_pure. run_pure.
  run_pure. cbn [self set_self set_clock set_trace yes set_collections].
  rewrite Hyes. unfold confirm.
  rewrite !bind_assoc. run_pure. rewrite !bind_assoc.
  run_tick Ht2. rewrite !bind_assoc. run_pure.
  cbn [answers set_self set_clock set_trace].
  destruct (answers s) as [ | a rest ]; cbn [hd] in Hans.
  - run_pure. cbn [negb]. unfold log, emit, modify.
    eexists. split; [ reflexivity | ].
    cbn [trace self set_trace set_clock set_self src].
    rewrite <- !app_assoc. split; reflexivity.
  - subst a. rewrite !bind_assoc. run_pure. run_pure. cbn [negb].
    unfold log, emit, modify.
    eexists. split; [ reflexivity | ].
    cbn [trace self set_trace set_clock set_self set_answers src].
    rewrite <- !app_assoc. split; reflexivity.
Qed.

(** A failure of the enumeration is thrown to the caller from before the
    [try]: nothing is closed. *)
Lemma copyCollections_unlisted fuel s :
  sourceDb (self s) = true ->
  bool_decide (clock s ∈ faults s) = true ->
  copyCollections fuel s =
  (Throw (DriverError (clock s)),
   set_clock (S (clock s)) (set_trace (trace s ++ [EvListCollections]) s)).
Proof.
  intros Hdb Ht. unfold copyCollections, listCollections.
  rewrite !bind_assoc. run_pure. rewrite Hdb.
  rewrite !bind_assoc. run_pure. rewrite !bind_assoc. run_pure.
  rewrite !bind_assoc. apply bind_throw.
  etransitivity; [ apply tick_fault; exact Ht | reflexivity ].
Qed.

(** C1.  The claim does not hold of [copyCollections]: the enumeration and
    the confirmation come before the [try], so that two of its exits skip
    the [finally].  With both clients open, a run in which the user declines
    returns normally, and a run in which [listCollections] fails throws,
    having closed no client; the runs that reach the loop close each
    client once. *)
Theorem cleanup_skipped_before_try :
  (let r := copyCollections 4 declined_state in
   sourceClient (self declined_state) = true /\
   destClient (self declined_state) = true /\
   fst r = Ok tt /\
   trace (snd r) =
     [EvListCollections; EvConfirm ["posts"; "users"; "tags"];
      EvLog LWarn MsgCancelled] /\
   count_events is_close (trace (snd r)) = 0%nat) /\
  (let r := copyCollections 4 unlisted_state in
   sourceClient (self unlisted_state) = true /\
   destClient (self unlisted_state) = true /\
   fst r = Throw (DriverError 0) /\
   trace (snd r) = [EvListCollections] /\
   count_events is_close (trace (snd r)) = 0%nat) /\
  (let r := copyCollections 4 sample_state in
   fst r = Ok tt /\
   count_events (is_close_of Source) (trace (snd r)) = 1%nat /\
   count_events (is_close_of Dest) (trace (snd r)) = 1%nat).
Proof. vm_compute. repeat split. Qed.

(** The driver calls [closeClients] once more after [copyCollections]: in
    the whole program a declined job closes each client once, a completed
    one twice, and a job whose enumeration fails exits with status 1
    without closing. *)
Example main_closes :
  (let r := main 4 sample_cli sample_env fresh_state in
   fst r = Exit 0 /\
   count_events (is_close_of Source) (trace (snd r)) = 2%nat /\
   count_events (is_close_of Dest) (trace (snd r)) = 2%nat) /\
  (let r := main 4 sample_cli sample_env
              (State sample_store ∅ ∅ ∅ [] [3%nat] 0 [] (self fresh_state)) in
   fst r = Exit 1 /\
   trace (snd r) =
     [EvLog LInfo MsgConfirmationSkipped; EvImport; EvConnect Source;
      EvConnect Dest; EvListCollections;
      EvLog LError (MsgOperationFailed (DriverError 3))] /\
   count_events is_close (trace (snd r)) = 0%nat).
Proof. vm_compute. repeat split. Qed.

(** ** C6: the export and the import flags together *)

Lemma write_batch_mode batch name s :
  write_batch batch name s =
  match mode_of (self s) with
  | Live => insertMany name (JArr batch) s
  | ExportJson => exportBatchToJson batch name s
  | ImportJson => importBatchFromJson name s
  end.
Proof.
  unfold write_batch, mode_of. run_pure.
  destruct (exportJson (self s)), (importJson (self s)); reflexivity.
Qed.

Lemma mode_of_config v v' : config v' = config v -> mode_of v' = mode_of v.
Proof.
  unfold config, mode_of. intros H. injection H as _ _ _ He Hi _ _ _ _ _.
  rewrite He, Hi. reflexivity.
Qed.

(** C6.  [main] rejects a command line that has both the export and the
    import flag: it logs an error and exits with status 1 before the service
    is constructed and before any call to a store, to the file system or to
    the prompt (the state is what it was, but for the one log line).  A job
    therefore has one sink: the mode read off the flags does not change
    during [copyCollections], and every batch goes to the sink of that mode
    and to no other. *)
Theorem both_flags_rejected (fuel : nat) (opts : cli_opts) (env : environment)
    (s : state) :
  cli_exportJson opts = true -> cli_importJson opts = true ->
  (exists m,
     main fuel opts env s = (Exit 1, set_trace (trace s ++ [EvLog LError m]) s) /\
     (m = MsgMissingEnv \/ m = MsgConflict)) /\
  (forall s0 r s', copyCollections fuel s0 = (r, s') ->
                   mode_of (self s') = mode_of (self s0)) /\
  (forall batch name s0,
     write_batch batch name s0 =
     match mode_of (self s0) with
     | Live => insertMany name (JArr batch) s0
     | ExportJson => exportBatchToJson batch name s0
     | ImportJson => importBatchFromJson name s0
     end).
Proof.
  intros He Hi. split; [ | split ].
  - unfold main.
    destruct (negb (truthy (env_SOURCE_DB_URI env) || truthy (penv_SOURCE_DB_URI env))
              || negb (truthy (env_TARGET_DB_URI env) || truthy (penv_TARGET_DB_URI env))
              || negb (truthy (env_DB_NAME env) || truthy (penv_DB_NAME env))).
    + exists MsgMissingEnv. split; [ | auto ].
      apply bind_exit. reflexivity.
    + exists MsgConflict. split; [ | auto ].
      run_pure. rewrite He, Hi. cbn [negb]. rewrite !andb_false_r.
      run_pure. cbn [andb]. apply bind_exit. reflexivity.
  - intros s0 r s' Hrun. apply mode_of_config.
    apply (keeps_copyCollections fuel) in Hrun as (_ & _ & _ & Hc & _).
    exact Hc.
  - apply write_batch_mode.
Qed.

Lemma both_flags_rejected_witness :
  (exists m,
     main 4 conflicting_cli sample_env fresh_state =
       (Exit 1, set_trace (trace fresh_state ++ [EvLog LError m]) fresh_state) /\
     (m = MsgMissingEnv \/ m = MsgConflict)) /\
  (forall s0 r s', copyCollections 4 s0 = (r, s') ->
                   mode_of (self s') = mode_of (self s0)) /\
  (forall batch name s0,
     write_batch batch name s0 =
     match mode_of (self s0) with
     | Live => insertMany name (JArr batch) s0
     | ExportJson => exportBatchToJson batch name s0
     | ImportJson => importBatchFromJson name s0
     end).
Proof.
  apply (both_flags_rejected 4 conflicting_cli sample_env fresh_state);
    reflexivity.
Defined.

Example conflicting_flags_scenario :
  let r := main 4 conflicting_cli sample_env fresh_state in
  fst r = Exit 1 /\ trace (snd r) = [EvLog LError MsgConflict] /\
  clock (snd r) = 0%nat /\ self (snd r) = self fresh_state.
Proof. vm_compute. repeat split. Qed.

(** The constructor itself does not look at the pair of flags: called with
    both, it builds a service whose batches go to the export sink. *)
Example constructor_with_both_flags :
  mode_of (constructor both_flags) = ExportJson.
Proof. reflexivity. Qed.

(* ===================================================================== *)
(** * Part III — further properties of the code                           *)
(* ===================================================================== *)

(** ** [listCollections] *)

Lemma filter_members (l m : list string) :
  (forall c, c ∈ m -> c ∈ l) -> filter (fun c => c ∈ l) m = m.
Proof.
  induction m as [ | x m IHm ]; intros Hsub; [ reflexivity | ].
  rewrite filter_cons_True by (apply Hsub; left).
  rewrite IHm; [ reflexivity | ].
  intros c Hc. apply Hsub. right. exact Hc.
Qed.

Lemma resolve_members requested names c :
  c ∈ resolve requested names -> c ∈ names.
Proof.
  unfold resolve. destruct requested as [ | r l ]; [ auto | ].
  cbn [length]. rewrite bool_decide_eq_false_2 by discriminate.
  rewrite list_elem_of_filter. tauto.
Qed.

(** X1.  Every name of the plan is a collection of the source store, in
    both branches; a request without duplicates gives a plan without
    duplicates; and resolving a plan that is not empty against the same
    store gives it back. *)
Theorem resolve_within_store (requested names : list string) :
  (forall c, c ∈ resolve requested names -> c ∈ names) /\
  (requested <> [] -> NoDup requested -> NoDup (resolve requested names)) /\
  (resolve requested names <> [] ->
   resolve (resolve requested names) names = resolve requested names).
Proof.
  split; [ | split ].
  - intros c. apply resolve_members.
  - intros Hne Hnd. rewrite resolve_nonempty by exact Hne.
    apply NoDup_filter, Hnd.
  - intros Hplan. rewrite (resolve_nonempty (resolve requested names)) by exact Hplan.
    apply filter_members. intros c. apply resolve_members.
Qed.

Lemma resolve_within_store_witness :
  (forall c, c ∈ resolve ["users"; "ghost"] ["posts"; "users"] ->
             c ∈ ["posts"; "users"]) /\
  (["users"; "ghost"] <> [] -> NoDup ["users"; "ghost"] ->
   NoDup (resolve ["users"; "ghost"] ["posts"; "users"])) /\
  (resolve ["users"; "ghost"] ["posts"; "users"] <> [] ->
   resolve (resolve ["users"; "ghost"] ["posts"; "users"]) ["posts"; "users"] =
   resolve ["users"; "ghost"] ["posts"; "users"]).
Proof. exact (resolve_within_store ["users"; "ghost"] ["posts"; "users"]). Defined.

Lemma resolve_all_missing requested names :
  requested <> [] -> (forall c, c ∈ requested -> c ∉ names) ->
  resolve requested names = [].
Proof.
  intros Hne Hmiss. rewrite resolve_nonempty by exact Hne.
  induction requested as [ | r l IH ]; [ reflexivity | ].
  rewrite filter_cons_False by (apply Hmiss; left).
  destruct l as [ | r' l' ]; [ reflexivity | ].
  apply IH; [ discriminate | ]. intros c Hc. apply Hmiss. right. exact Hc.
Qed.

(** X2.  [listCollections] overwrites [this.collections] with the plan, so
    it is not idempotent: when names were requested and the store has none
    of them, the first call returns the empty plan, and a second call,
    finding [this.collections] empty, returns every collection of the
    store. *)
Theorem listCollections_twice_when_all_missing (s : state) :
  sourceDb (self s) = true ->
  bool_decide (clock s ∈ faults s) = false ->
  bool_decide (S (clock s) ∈ faults s) = false ->
  collections (self s) <> [] ->
  forallb (fun c => bool_decide (c ∉ map fst (src s))) (collections (self s))
    = true ->
  exists s1 s2,
    listCollections s = (Ok [], s1) /\
    listCollections s1 = (Ok (map fst (src s)), s2).
Proof.
  intros Hdb Ht1 Ht2 Hne Hall.
  assert (Hmiss : forall c, c ∈ collections (self s) -> c ∉ map fst (src s)).
  { intros c Hc. rewrite forallb_forall in Hall.
    apply list_elem_of_In, Hall in Hc. apply bool_decide_eq_true in Hc. exact Hc. }
  assert (E1 : listCollections s =
    (Ok [], set_self (set_collections [] (self s))
              (set_clock (S (clock s))
                 (set_trace (trace s ++ [EvListCollections]) s)))).
  { unfold listCollections. run_pure. rewrite Hdb. run_pure. run_pure.
    run_tick Ht1. run_pure. run_pure.
    cbn [src set_clock set_trace self].
    rewrite (resolve_all_missing _ _ Hne Hmiss). reflexivity. }
  do 2 eexists. split; [ exact E1 | ].
  unfold listCollections. run_pure.
  cbn [self set_self set_collections sourceDb]. rewrite Hdb.
  run_pure. run_pure. run_tick Ht2. run_pure. run_pure. reflexivity.
Qed.

Lemma listCollections_twice_when_all_missing_witness :
  exists s1 s2,
    listCollections missing_state = (Ok [], s1) /\
    listCollections s1 = (Ok (map fst (src missing_state)), s2).
Proof.
  apply (listCollections_twice_when_all_missing missing_state);
    [ reflexivity | reflexivity | reflexivity | discriminate
    | vm_compute; reflexivity ].
Defined.

(** X3.  On a service whose [initClients] was not called the database
    handles are [undefined]: [listCollections], and with it
    [copyCollections], throws a [TypeError] at once, having called nothing
    and changed nothing. *)
Theorem copyCollections_before_initClients (fuel : nat) (s : state) :
  sourceDb (self s) = false ->
  listCollections s = (Throw TypeError, s) /\
  copyCollections fuel s = (Throw TypeError, s).
Proof.
  intros Hdb.
  assert (E : listCollections s = (Throw TypeError, s)).
  { unfold listCollections. run_pure. rewrite Hdb. reflexivity. }
  split; [ exact E | ].
  unfold copyCollections. apply bind_throw. exact E.
Qed.

Lemma copyCollections_before_initClients_witness :
  listCollections unconnected_state = (Throw TypeError, unconnected_state) /\
  copyCollections 4 unconnected_state = (Throw TypeError, unconnected_state).
Proof.
  apply (copyCollections_before_initClients 4 unconnected_state). reflexivity.
Defined.

(** ** [initClients] and [closeClients] *)



(** X5.  [closeClients] never throws and never ends the process, in any
    state: it closes the clients that were assigned, those only, and leaves
    the stores, the files and the service as they are.  On a service that
    was only constructed it does nothing at all. *)
Theorem closeClients_never_throws (s : state) :
  exists s',
    closeClients s = (Ok tt, s') /\
    trace s' = trace s ++ closes (self s) /\
    src s' = src s /\ dst s' = dst s /\ files s' = files s /\
    dirs s' = dirs s /\ self s' = self s /\
    (sourceClient (self s) = false -> destClient (self s) = false ->
     trace s' = trace s /\ clock s' = clock s).
Proof.
  unfold closeClients, close, closes. run_pure.
  destruct (sourceClient (self s)), (destClient (self s));
    eexists; (split; [ reflexivity | ]);
    cbn [trace src dst files dirs answers faults self clock set_trace
         set_clock app];
    rewrite <- ?app_assoc, ?app_nil_r; repeat split; try reflexivity;
    discriminate.
Qed.

Lemma closeClients_never_throws_witness :
  exists s',
    closeClients unconnected_state = (Ok tt, s') /\
    trace s' = trace unconnected_state ++ closes (self unconnected_state) /\
    src s' = src unconnected_state /\ dst s' = dst unconnected_state /\
    files s' = files unconnected_state /\
    dirs s' = dirs unconnected_state /\ self s' = self unconnected_state /\
    (sourceClient (self unconnected_state) = false ->
     destClient (self unconnected_state) = false ->
     trace s' = trace unconnected_state /\ clock s' = clock unconnected_state).
Proof. exact (closeClients_never_throws unconnected_state). Defined.

(** ** What [copyCollections] lets out *)

Lemma step_grows strict P s s' : step strict P s s' -> grows P s s'.
Proof. intros (H & _). exact H. Qed.

Lemma grows_refl P s : grows P s s.
Proof. exists []. rewrite app_nil_r. split; reflexivity. Qed.

Lemma grows_trans P s1 s2 s3 : grows P s1 s2 -> grows P s2 s3 -> grows P s1 s3.
Proof.
  intros (e1 & H1 & P1) (e2 & H2 & P2). exists (e1 ++ e2).
  rewrite H2, H1, <- app_assoc, forallb_app, P1, P2. split; reflexivity.
Qed.

Lemma grows_weaken (P Q : event -> bool) s s' :
  (forall e, P e = true -> Q e = true) -> grows P s s' -> grows Q s s'.
Proof.
  intros HPQ (evs & Ht & Hp). exists evs. split; [ exact Ht | ].
  rewrite forallb_forall in *. intros e He. apply HPQ, Hp, He.
Qed.

Lemma grows_emit P e s :
  P e = true -> grows P s (set_trace (trace s ++ [e]) s).
Proof. intros He. exists [e]. cbn. rewrite He. split; reflexivity. Qed.

(** The [try ... catch ... finally] of [copyCollections] lets no exception
    out: the handler only reports, and [closeClients] does not throw. *)
Lemma guarded_loop_never_throws fuel plan :
  never_throws
    (try_finally
       (try_catch
          (for_of plan (process_collection fuel) ;; spinner SpSucceed)
          (fun err => spinner SpFail ;; log LError (MsgError err)))
       closeClients).
Proof.
  intros s r s' e Hrun ->. unfold try_finally, try_catch in Hrun.
  destruct ((for_of plan (process_collection fuel) ;; spinner SpSucceed) s)
    as [[[] | e0 | c | ] s1].
  - destruct (closeClients_ok s1) as (s2 & E & _). rewrite E in Hrun.
    discriminate Hrun.
  - change ((spinner SpFail ;; log LError (MsgError e0)) s1)
      with (Ok tt, set_trace ((trace s1 ++ [EvSpinner SpFail]) ++
                              [EvLog LError (MsgError e0)]) s1) in Hrun.
    cbv beta iota in Hrun.
    destruct (closeClients_ok
                (set_trace ((trace s1 ++ [EvSpinner SpFail]) ++
                            [EvLog LError (MsgError e0)]) s1))
      as (s2 & E & _).
    rewrite E in Hrun. discriminate Hrun.
  - discriminate Hrun.
  - discriminate Hrun.
Qed.

(** X6.  [copyCollections] throws only from before its [try]: when a run
    of it ends in an exception, the enumeration or the confirmation prompt
    raised it, nothing was copied (the only calls made were the listing and
    the prompt, and the store and the files are untouched), and no client
    was closed.  An error raised once the loop has started never reaches
    the caller. *)
Theorem copyCollections_throws_only_before_copying (fuel : nat) (s s' : state)
    (e : error) :
  copyCollections fuel s = (Throw e, s') ->
  exists evs,
    trace s' = trace s ++ evs /\ forallb ev_prelude evs = true /\
    count_events is_spinner_start evs = 0%nat /\
    count_events is_close evs = 0%nat /\
    dst s' = dst s /\ files s' = files s /\ dirs s' = dirs s.
Proof.
  intros Hrun.
  assert (St : step true ev_prelude s s').
  { unfold copyCollections in Hrun. unfold bind at 1 in Hrun.
    destruct (listCollections s) as [[plan | e1 | c | ] s1] eqn:E1;
      try discriminate Hrun;
      pose proof (keeps_listCollections _ _ _ E1) as St1.
    2: { injection Hrun as _ <-. exact St1. }
    unfold bind at 1 in Hrun. unfold this at 1 in Hrun.
    unfold bind at 1 in Hrun.
    destruct ((if yes (self s1) then ret true else confirm plan) s1)
      as [[ok | e2 | c | ] s2] eqn:E2; try discriminate Hrun.
    - destruct ok; cbn [negb] in Hrun.
      + exfalso. unfold bind at 1, spinner at 1, emit at 1, modify at 1 in Hrun.
        eapply guarded_loop_never_throws; [ exact Hrun | reflexivity ].
      + discriminate Hrun.
    - injection Hrun as _ <-. eapply step_trans; [ exact St1 | ].
      destruct (yes (self s1)); [ discriminate E2 | ].
      exact (keeps_confirm _ _ _ _ E2). }
  destruct St as ((evs & Ht & Hp) & _ & _ & _ & Hst).
  destruct (Hst eq_refl) as (Hd & Hf & Hdi).
  exists evs. repeat split; try assumption.
  - apply (count_none _ ev_prelude); [ | exact Hp ].
    intros x. destruct x as [ | | | | | | | | | | | | | | | | [ | | | | ] | | ];
      cbn; congruence.
  - apply (count_none _ ev_prelude); [ | exact Hp ]. apply prelude_has_no_close.
Qed.

Lemma copyCollections_throws_only_before_copying_witness :
  exists evs,
    trace (snd (copyCollections 4 unlisted_state)) =
      trace unlisted_state ++ evs /\
    forallb ev_prelude evs = true /\
    count_events is_spinner_start evs = 0%nat /\
    count_events is_close evs = 0%nat /\
    dst (snd (copyCollections 4 unlisted_state)) = dst unlisted_state /\
    files (snd (copyCollections 4 unlisted_state)) = files unlisted_state /\
    dirs (snd (copyCollections 4 unlisted_state)) = dirs unlisted_state.
Proof.
  apply (copyCollections_throws_only_before_copying 4 unlisted_state
           (snd (copyCollections 4 unlisted_state)) (DriverError 0)).
  vm_compute. reflexivity.
Defined.

(** ** How a run can end *)

Lemma exits_bind {A B} ok (m : M A) (k : A -> M B) :
  exits_in ok m -> (forall a, exits_in ok (k a)) -> exits_in ok (bind m k).
Proof.
  intros Hm Hk s r s' c Hrun ->. unfold bind in Hrun.
  destruct (m s) as [[a | e | c0 | ] s1] eqn:E.
  - eapply Hk; [ exact Hrun | reflexivity ].
  - discriminate Hrun.
  - injection Hrun as <- <-. eapply Hm; [ exact E | reflexivity ].
  - discriminate Hrun.
Qed.

Lemma exits_try_catch {A} ok (m : M A) (h : error -> M A) :
  exits_in ok m -> (forall e, exits_in ok (h e)) -> exits_in ok (try_catch m h).
Proof.
  intros Hm Hh s r s' c Hrun ->. unfold try_catch in Hrun.
  destruct (m s) as [[a | e | c0 | ] s1] eqn:E.
  - discriminate Hrun.
  - eapply Hh; [ exact Hrun | reflexivity ].
  - injection Hrun as <- <-. eapply Hm; [ exact E | reflexivity ].
  - discriminate Hrun.
Qed.

Lemma exits_try_finally {A} ok (m : M A) (cl : M unit) :
  exits_in ok m -> exits_in ok cl -> exits_in ok (try_finally m cl).
Proof.
  intros Hm Hc s r s' c Hrun ->. unfold try_finally in Hrun.
  destruct (m s) as [[a | e | c0 | ] s1] eqn:E.
  - destruct (cl s1) as [[u | e | c1 | ] s2] eqn:E2; try discriminate Hrun.
    injection Hrun as <- <-. eapply Hc; [ exact E2 | reflexivity ].
  - destruct (cl s1) as [[u | e' | c1 | ] s2] eqn:E2; try discriminate Hrun.
    injection Hrun as <- <-. eapply Hc; [ exact E2 | reflexivity ].
  - injection Hrun as <- <-. eapply Hm; [ exact E | reflexivity ].
  - discriminate Hrun.
Qed.

Lemma exits_if {A} ok (b : bool) (m1 m2 : M A) :
  exits_in ok m1 -> exits_in ok m2 -> exits_in ok (if b then m1 else m2).
Proof. destruct b; auto. Qed.

Lemma exits_exit {A} (ok : Z -> Prop) c : ok c -> exits_in ok (@process_exit A c).
Proof. intros Hc s r s' c' [= <- <-] [= <-]. exact Hc. Qed.

Lemma exits_ret {A} ok (a : A) : exits_in ok (ret a).
Proof. intros s r s' c [= <- <-]. discriminate. Qed.

Lemma exits_throw {A} ok e : exits_in ok (@throw A e).
Proof. intros s r s' c [= <- <-]. discriminate. Qed.

Lemma exits_diverge {A} ok : exits_in ok (@diverge A).
Proof. intros s r s' c [= <- <-]. discriminate. Qed.

Lemma exits_this ok : exits_in ok this.
Proof. intros s r s' c [= <- <-]. discriminate. Qed.

Lemma exits_get ok : exits_in ok get.
Proof. intros s r s' c [= <- <-]. discriminate. Qed.

Lemma exits_modify ok f : exits_in ok (modify f).
Proof. intros s r s' c [= <- <-]. discriminate. Qed.

Lemma exits_tick ok : exits_in ok tick.
Proof.
  intros s r s' c Hrun ->. unfold tick in Hrun.
  destruct (bool_decide _); discriminate Hrun.
Qed.

Lemma exits_for_of {A} ok (l : list A) (body : A -> M unit) :
  (forall x, exits_in ok (body x)) -> exits_in ok (for_of l body).
Proof.
  intros Hb. induction l as [ | x l IHl ]; cbn [for_of].
  - apply exits_ret.
  - apply exits_bind; [ apply Hb | intros _; exact IHl ].
Qed.

(** One step of the decomposition. *)
Ltac exits_step :=
  lazymatch goal with
  | |- exits_in _ (bind _ _) => apply exits_bind; [ | intros ? ]
  | |- exits_in _ (try_catch _ _) => apply exits_try_catch; [ | intros ? ]
  | |- exits_in _ (try_finally _ _) => apply exits_try_finally
  | |- exits_in _ (for_of _ _) => apply exits_for_of; intros ?
  | |- exits_in _ (if _ then _ else _) => apply exits_if
  | |- exits_in _ (ret _) => apply exits_ret
  | |- exits_in _ (throw _) => apply exits_throw
  | |- exits_in _ diverge => apply exits_diverge
  | |- exits_in _ this => apply exits_this
  | |- exits_in _ get => apply exits_get
  | |- exits_in _ tick => apply exits_tick
  | |- exits_in _ tick_settled => apply exits_modify
  | |- exits_in _ (emit _) => apply exits_modify
  | |- exits_in _ (log _ _) => apply exits_modify
  | |- exits_in _ (spinner _) => apply exits_modify
  | |- exits_in _ (modify _) => apply exits_modify
  end.

Ltac exits_all := repeat exits_step.

(** Nothing in the service ends the process. *)

Lemma exits_initClients ok : exits_in ok initClients.
Proof. unfold initClients. exits_all. Qed.

Lemma exits_closeClients ok : exits_in ok closeClients.
Proof. unfold closeClients, close. exits_all. Qed.

Lemma exits_listCollections ok : exits_in ok listCollections.
Proof. unfold listCollections. exits_all. Qed.

Lemma exits_confirm ok plan : exits_in ok (confirm plan).
Proof. unfold confirm. exits_all. destruct (answers _); exits_all. Qed.

Lemma exits_collection ok sd name : exits_in ok (collection sd name).
Proof. unfold collection. exits_all. Qed.

Lemma exits_hasNext ok name cursor : exits_in ok (hasNext name cursor).
Proof. unfold hasNext. exits_all. Qed.

Lemma exits_read_batch ok b name cursor :
  forall i batch, exits_in ok (read_batch b name i cursor batch).
Proof.
  induction cursor as [ | d rest IH ]; intros i batch; cbn [read_batch];
    (destruct (Z.ltb i b); [ | exits_all ]);
    (apply exits_bind; [ apply exits_hasNext | intros [ | ]; exits_all ]).
  apply IH.
Qed.

Lemma exits_insertMany ok name docs : exits_in ok (insertMany name docs).
Proof. unfold insertMany. exits_all. destruct docs; exits_all. Qed.

Lemma exits_exportBatchToJson ok batch name :
  exits_in ok (exportBatchToJson batch name).
Proof. unfold exportBatchToJson. exits_all. Qed.

Lemma exits_importBatchFromJson ok name :
  exits_in ok (importBatchFromJson name).
Proof.
  unfold importBatchFromJson. exits_all.
  destruct (files _ !! _) as [content | ]; [ | exits_all ].
  exits_all. destruct (JSON_parse content) as [j | ]; [ | exits_all ].
  apply exits_bind; [ apply exits_collection | intros _ ].
  apply exits_bind; [ apply exits_insertMany | intros _ ]. exits_all.
Qed.

Lemma exits_write_batch ok batch name : exits_in ok (write_batch batch name).
Proof.
  unfold write_batch. exits_all.
  - apply exits_exportBatchToJson.
  - apply exits_importBatchFromJson.
  - apply exits_insertMany.
Qed.

Lemma exits_copy_loop ok fuel name totalDocs :
  forall cursor processed,
    exits_in ok (copy_loop fuel name totalDocs cursor processed).
Proof.
  induction fuel as [ | fuel IH ]; intros cursor processed; cbn [copy_loop];
    [ exits_step | ].
  apply exits_bind; [ apply exits_hasNext | ].
  intros [ | ]; [ | exits_all ].
  apply exits_bind; [ exits_all | intros v ].
  apply exits_bind; [ apply exits_read_batch | intros read ].
  apply exits_bind; [ apply exits_write_batch | intros _ ].
  apply exits_bind; [ exits_all | intros _ ]. apply IH.
Qed.

Lemma exits_copyCollection ok fuel name : exits_in ok (copyCollection fuel name).
Proof.
  unfold copyCollection, countDocuments, find. exits_all.
  apply exits_copy_loop.
Qed.

Lemma exits_process_collection ok fuel name :
  exits_in ok (process_collection fuel name).
Proof.
  unfold process_collection. apply exits_bind; [ exits_all | intros _ ].
  apply exits_bind; [ apply exits_collection | intros _ ].
  apply exits_bind; [ apply exits_collection | intros _ ].
  exits_all. apply exits_copyCollection.
Qed.

Lemma exits_copyCollections ok fuel : exits_in ok (copyCollections fuel).
Proof.
  unfold copyCollections.
  apply exits_bind; [ apply exits_listCollections | intros plan ].
  apply exits_bind; [ exits_all | intros v ].
  apply exits_bind; [ apply exits_if; [ exits_all | apply exits_confirm ] | ].
  intros ok0. apply exits_if; [ exits_all | ].
  apply exits_bind; [ exits_all | intros _ ].
  apply exits_try_finally; [ | apply exits_closeClients ].
  apply exits_try_catch; [ | intros e; exits_all ].
  apply exits_bind; [ | intros _; exits_all ].
  apply exits_for_of. intros name. apply exits_process_collection.
Qed.

Lemma exits_confirmAction ok : exits_in ok confirmAction.
Proof. unfold confirmAction. exits_all. destruct (answers _); exits_all. Qed.

Lemma exits_dynamicImportCopyService ok : exits_in ok dynamicImportCopyService.
Proof. unfold dynamicImportCopyService. exits_all. Qed.

(** Runs that do not return, and runs that do not throw. *)

Lemma never_returns_bind {A B} (m : M A) (k : A -> M B) :
  (forall a, never_returns (k a)) -> never_returns (bind m k).
Proof.
  intros Hk s r s' b Hrun ->. unfold bind in Hrun.
  destruct (m s) as [[a | e | c | ] s1]; try discriminate Hrun.
  eapply Hk; [ exact Hrun | reflexivity ].
Qed.

Lemma never_returns_exit {A} c : never_returns (@process_exit A c).
Proof. intros s r s' a [= <- <-]. discriminate. Qed.

Lemma never_returns_try_catch {A} (m : M A) (h : error -> M A) :
  never_returns m -> (forall e, never_returns (h e)) ->
  never_returns (try_catch m h).
Proof.
  intros Hm Hh s r s' b Hrun ->. unfold try_catch in Hrun.
  destruct (m s) as [[a | e | c | ] s1] eqn:E; try discriminate Hrun.
  - eapply Hm; [ exact E | reflexivity ].
  - eapply Hh; [ exact Hrun | reflexivity ].
Qed.

Lemma never_throws_bind {A B} (m : M A) (k : A -> M B) :
  never_throws m -> (forall a, never_throws (k a)) -> never_throws (bind m k).
Proof.
  intros Hm Hk s r s' e Hrun ->. unfold bind in Hrun.
  destruct (m s) as [[a | e0 | c | ] s1] eqn:E; try discriminate Hrun.
  - eapply Hk; [ exact Hrun | reflexivity ].
  - eapply Hm; [ exact E | reflexivity ].
Qed.

Lemma never_throws_try_catch {A} (m : M A) (h : error -> M A) :
  (forall e, never_throws (h e)) -> never_throws (try_catch m h).
Proof.
  intros Hh s r s' e Hrun ->. unfold try_catch in Hrun.
  destruct (m s) as [[a | e0 | c | ] s1] eqn:E; try discriminate Hrun.
  eapply Hh; [ exact Hrun | reflexivity ].
Qed.

Lemma never_throws_modify f : never_throws (modify f).
Proof. intros s r s' e [= <- <-]. discriminate. Qed.

Lemma never_throws_exit {A} c : never_throws (@process_exit A c).
Proof. intros s r s' e [= <- <-]. discriminate. Qed.

Lemma never_throws_closeClients : never_throws closeClients.
Proof.
  intros s r s' e Hrun ->. destruct (closeClients_ok s) as (s1 & E & _).
  rewrite E in Hrun. discriminate Hrun.
Qed.

Lemma never_throws_report {A} l m c :
  never_throws (log l m ;; @process_exit A c).
Proof.
  apply never_throws_bind; [ apply never_throws_modify | intros _ ].
  apply never_throws_exit.
Qed.

Lemma never_throws_main_service fuel opts env :
  never_throws (main_service fuel opts env).
Proof.
  unfold main_service. apply never_throws_bind; [ | intros _ ];
    apply never_throws_try_catch; intros e; apply never_throws_report.
Qed.

Lemma never_returns_main_service fuel opts env :
  never_returns (main_service fuel opts env).
Proof.
  unfold main_service, main_job. apply never_returns_bind. intros _.
  apply never_returns_try_catch.
  - do 5 (apply never_returns_bind; intros ?). apply never_returns_exit.
  - intros e. apply never_returns_bind. intros _. apply never_returns_exit.
Qed.

Lemma exits_main_job fuel opts env :
  exits_in (fun c => c = 0) (main_job fuel opts env).
Proof.
  unfold main_job. exits_step; [ exits_step | ].
  exits_step; [ apply exits_initClients | ].
  exits_step; [ apply exits_copyCollections | ].
  exits_step; [ apply exits_closeClients | ].
  exits_step; [ exits_step | ]. apply exits_exit. reflexivity.
Qed.

Lemma exits_weaken {A} (ok ok' : Z -> Prop) (m : M A) :
  (forall c, ok c -> ok' c) -> exits_in ok m -> exits_in ok' m.
Proof. intros H Hm s r s' c Hrun Hr. apply H. eapply Hm; eassumption. Qed.

Lemma exits_main_service fuel opts env :
  exits_in (fun c => c = 0 \/ c = 1) (main_service fuel opts env).
Proof.
  unfold main_service. exits_step.
  - exits_step; [ apply exits_dynamicImportCopyService | ].
    exits_step; [ exits_step | ]. apply exits_exit. right. reflexivity.
  - exits_step.
    + eapply exits_weaken; [ | apply exits_main_job ]. intros c ->. left.
      reflexivity.
    + exits_step; [ exits_step | ]. apply exits_exit. right. reflexivity.
Qed.

(** ** [main] *)

(** [main] as its three checks followed by its two halves. *)
Lemma main_unfold fuel opts env s :
  main fuel opts env s =
  if negb (env_complete env) then
    (Exit 1, set_trace (trace s ++ [EvLog LError MsgMissingEnv]) s)
  else if negb (selects opts) then
    (Exit 0,
     set_trace ((trace s ++ [EvLog LInfo MsgUsage]) ++ [EvHelp]) s)
  else if cli_exportJson opts && cli_importJson opts then
    (Exit 1, set_trace (trace s ++ [EvLog LError MsgConflict]) s)
  else (main_confirmation opts ;; main_service fuel opts env) s.
Proof.
  unfold main, env_complete, selects.
  destruct (truthy (env_SOURCE_DB_URI env) || truthy (penv_SOURCE_DB_URI env));
    [ | reflexivity ].
  destruct (truthy (env_TARGET_DB_URI env) || truthy (penv_TARGET_DB_URI env));
    [ | reflexivity ].
  destruct (truthy (env_DB_NAME env) || truthy (penv_DB_NAME env));
    [ | reflexivity ].
  destruct (cli_all opts), (bool_decide _), (cli_exportJson opts),
    (cli_importJson opts); reflexivity.
Qed.

Lemma main_confirmation_run opts s :
  main_confirmation opts s =
  if cli_yes opts then
    (Ok tt, set_trace (trace s ++ [EvLog LInfo MsgConfirmationSkipped]) s)
  else
    let s1 := set_clock (S (clock s)) (set_trace (trace s ++ [EvConfirmAction]) s) in
    if bool_decide (clock s ∈ faults s) then (Throw (DriverError (clock s)), s1)
    else
      match answers s with
      | true :: rest => (Ok tt, set_answers rest s1)
      | false :: rest =>
          (Exit 0,
           set_trace (trace s1 ++ [EvLog LWarn MsgCancelled]) (set_answers rest s1))
      | [] => (Exit 0, set_trace (trace s1 ++ [EvLog LWarn MsgCancelled]) s1)
      end.
Proof.
  unfold main_confirmation. destruct (cli_yes opts); [ reflexivity | ].
  cbn [negb]. unfold confirmAction. cbv zeta.
  rewrite !bind_assoc. run_pure. rewrite !bind_assoc.
  destruct (bool_decide (clock s ∈ faults s)) eqn:F.
  - erewrite bind_throw; [ reflexivity | ].
    etransitivity; [ apply tick_fault; exact F | reflexivity ].
  - run_tick F. rewrite ?bind_assoc. run_pure.
    cbn [answers set_clock set_trace].
    destruct (answers s) as [ | [ | ] rest ]; reflexivity.
Qed.

Lemma untouched_refl P s : untouched P s s.
Proof. split; [ apply grows_refl | repeat split ]. Qed.

Lemma untouched_trans P s1 s2 s3 :
  untouched P s1 s2 -> untouched P s2 s3 -> untouched P s1 s3.
Proof.
  intros (G1 & A1 & B1 & C1 & D1) (G2 & A2 & B2 & C2 & D2).
  split; [ eapply grows_trans; eassumption | ].
  repeat split; congruence.
Qed.

Lemma untouched_weaken (P Q : event -> bool) s s' :
  (forall e, P e = true -> Q e = true) -> untouched P s s' -> untouched Q s s'.
Proof.
  intros HPQ (G & H). split; [ eapply grows_weaken; eassumption | exact H ].
Qed.

Lemma untouched_of_step P s s' : step true P s s' -> untouched P s s'.
Proof.
  intros (G & Hs & _ & _ & Hst). destruct (Hst eq_refl) as (Hd & Hf & Hdi).
  repeat split; assumption.
Qed.

Lemma untouched_emit P e s :
  P e = true -> untouched P s (set_trace (trace s ++ [e]) s).
Proof. intros He. split; [ apply grows_emit, He | repeat split ]. Qed.

Lemma keeps_untouched_emit P e : P e = true -> keeps (untouched P) (emit e).
Proof. intros He s r s' [= <- <-]. apply untouched_emit, He. Qed.

Lemma keeps_untouched_tick P : keeps (untouched P) tick.
Proof.
  intros s r s' Hrun. unfold tick in Hrun.
  destruct (bool_decide _); injection Hrun as <- <-;
    (split; [ exists []; rewrite app_nil_r; split; reflexivity | repeat split ]).
Qed.

Lemma keeps_untouched_set_self P (f : state -> service) :
  keeps (untouched P) (modify (fun s => set_self (f s) s)).
Proof.
  intros s r s' [= <- <-].
  split; [ exists []; rewrite app_nil_r; split; reflexivity | repeat split ].
Qed.

Lemma keeps_untouched_initClients :
  keeps (untouched ev_early) initClients.
Proof.
  unfold initClients.
  repeat (apply keeps_bind; [ apply untouched_trans | | intros _ ]);
    first [ apply keeps_untouched_set_self
          | apply keeps_untouched_tick
          | apply keeps_untouched_emit; reflexivity ].
Qed.

Lemma keeps_untouched_dynamicImportCopyService :
  keeps (untouched ev_early)
    (try_catch dynamicImportCopyService
       (fun err => log LError (MsgError err) ;; process_exit 1)).
Proof.
  unfold dynamicImportCopyService.
  assert (Hi : keeps (untouched ev_early) (emit EvImport ;; tick)).
  { apply keeps_bind; [ apply untouched_trans | | intros _ ];
      [ apply keeps_untouched_emit; reflexivity | apply keeps_untouched_tick ]. }
  apply keeps_try_catch; [ apply untouched_trans | | intros e ].
  - apply keeps_try_catch; [ apply untouched_trans | exact Hi | intros e ].
    apply keeps_try_catch; [ apply untouched_trans | exact Hi | intros e' ].
    apply keeps_throw, untouched_refl.
  - apply keeps_bind; [ apply untouched_trans | | intros _ ].
    + apply keeps_untouched_emit. reflexivity.
    + apply keeps_exit, untouched_refl.
Qed.

(** An exception of [copyCollections] comes from before its [try]. *)
Lemma copyCollections_throw_step fuel s s' e :
  copyCollections fuel s = (Throw e, s') -> step true ev_prelude s s'.
Proof.
  intros Hrun. unfold copyCollections in Hrun. unfold bind at 1 in Hrun.
  destruct (listCollections s) as [[plan | e1 | c | ] s1] eqn:E1;
    try discriminate Hrun;
    pose proof (keeps_listCollections _ _ _ E1) as St1.
  2: { injection Hrun as _ <-. exact St1. }
  unfold bind at 1 in Hrun. unfold this at 1 in Hrun.
  unfold bind at 1 in Hrun.
  destruct ((if yes (self s1) then ret true else confirm plan) s1)
    as [[ok | e2 | c | ] s2] eqn:E2; try discriminate Hrun.
  - destruct ok; cbn [negb] in Hrun.
    + exfalso. unfold bind at 1, spinner at 1, emit at 1, modify at 1 in Hrun.
      eapply guarded_loop_never_throws; [ exact Hrun | reflexivity ].
    + discriminate Hrun.
  - injection Hrun as _ <-. eapply step_trans; [ exact St1 | ].
    destruct (yes (self s1)); [ discriminate E2 | ].
    exact (keeps_confirm _ _ _ _ E2).
Qed.

Lemma ev_prelude_early e : ev_prelude e = true -> ev_early e = true.
Proof. destruct e; cbn; congruence. Qed.

Lemma ev_cli_early e : ev_cli e = true -> ev_early e = true.
Proof. destruct e; cbn; congruence. Qed.

(** When the job throws, the copying had not started. *)
Lemma main_job_throw fuel opts env s s' e :
  main_job fuel opts env s = (Throw e, s') -> untouched ev_early s s'.
Proof.
  intros Hrun. unfold main_job in Hrun. unfold bind at 1, modify at 1 in Hrun.
  set (s0 := set_self _ s) in Hrun.
  assert (H0 : untouched ev_early s s0).
  { split; [ exists []; rewrite app_nil_r; split; reflexivity | repeat split ]. }
  eapply untouched_trans; [ exact H0 | ]. clearbody s0. clear H0.
  unfold bind at 1 in Hrun.
  destruct (initClients s0) as [[[] | e1 | c | ] s1] eqn:E1;
    try discriminate Hrun;
    pose proof (keeps_untouched_initClients _ _ _ E1) as U1.
  2: { injection Hrun as _ <-. exact U1. }
  eapply untouched_trans; [ exact U1 | ].
  unfold bind at 1 in Hrun.
  destruct (copyCollections fuel s1) as [[[] | e2 | c | ] s2] eqn:E2;
    try discriminate Hrun.
  - exfalso.
    assert (Hn : never_throws
                   (closeClients ;; log LSuccess MsgOperationFinished ;;
                    @process_exit unit 0)).
    { apply never_throws_bind; [ apply never_throws_closeClients | intros _ ].
      apply never_throws_report. }
    eapply Hn; [ exact Hrun | reflexivity ].
  - injection Hrun as _ <-.
    eapply untouched_weaken; [ apply ev_prelude_early | ].
    apply untouched_of_step. eapply copyCollections_throw_step. exact E2.
Qed.

Lemma main_service_exit_1 fuel opts env s s' :
  main_service fuel opts env s = (Exit 1, s') -> untouched ev_early s s'.
Proof.
  intros Hrun. unfold main_service in Hrun. unfold bind at 1 in Hrun.
  destruct (try_catch dynamicImportCopyService _ s) as [[[] | e | c | ] s1] eqn:E1;
    try discriminate Hrun;
    pose proof (keeps_untouched_dynamicImportCopyService _ _ _ E1) as U1.
  2: { injection Hrun as _ <-. exact U1. }
  eapply untouched_trans; [ exact U1 | ].
  unfold try_catch in Hrun.
  destruct (main_job fuel opts env s1) as [[[] | e | c | ] s2] eqn:E2;
    try discriminate Hrun.
  - apply main_job_throw in E2.
    eapply untouched_trans; [ exact E2 | ].
    change ((log LError (MsgOperationFailed e) ;; @process_exit unit 1) s2)
      with (@Exit unit 1,
            set_trace (trace s2 ++ [EvLog LError (MsgOperationFailed e)]) s2)
      in Hrun.
    injection Hrun as <-. apply untouched_emit. reflexivity.
  - injection Hrun as -> <-.
    pose proof (exits_main_job fuel opts env _ _ _ _ E2 eq_refl) as Hc.
    discriminate Hc.
Qed.

(** X7.  However [main] ends, it does not return: it ends the process with
    status [0] or [1], or its loop does not end.  The one exception it lets
    out is a failure of its own confirmation prompt, which sits outside
    every [try]: then nothing but the prompt has happened. *)
Theorem main_outcomes (fuel : nat) (opts : cli_opts) (env : environment)
    (s s' : state) (r : outcome unit) :
  main fuel opts env s = (r, s') ->
  (forall a, r <> Ok a) /\
  (forall c, r = Exit c -> c = 0 \/ c = 1) /\
  (forall e, r = Throw e ->
     cli_yes opts = false /\ bool_decide (clock s ∈ faults s) = true /\
     e = DriverError (clock s) /\
     trace s' = trace s ++ [EvConfirmAction]).
Proof.
  intros Hrun. rewrite main_unfold in Hrun.
  destruct (negb (env_complete env));
    [ injection Hrun as <- <-; repeat split; try discriminate;
      intros c [= <-]; auto | ].
  destruct (negb (selects opts));
    [ injection Hrun as <- <-; repeat split; try discriminate;
      intros c [= <-]; auto | ].
  destruct (cli_exportJson opts && cli_importJson opts);
    [ injection Hrun as <- <-; repeat split; try discriminate;
      intros c [= <-]; auto | ].
  unfold bind in Hrun. rewrite main_confirmation_run in Hrun.
  assert (Hs : forall s1,
             main_service fuel opts env s1 = (r, s') ->
             (forall a, r <> Ok a) /\
             (forall c, r = Exit c -> c = 0 \/ c = 1) /\
             (forall e, r <> Throw e)).
  { intros s1 E. repeat split.
    - intros a Hr. eapply never_returns_main_service; eassumption.
    - intros c Hr. eapply exits_main_service; eassumption.
    - intros e Hr. eapply never_throws_main_service; eassumption. }
  destruct (cli_yes opts).
  - destruct (Hs _ Hrun) as (H1 & H2 & H3). repeat split; auto;
      exfalso; eapply H3; eassumption.
  - cbv zeta in Hrun. destruct (bool_decide (clock s ∈ faults s)).
    + injection Hrun as <- <-. repeat split; try discriminate; congruence.
    + destruct (answers s) as [ | [ | ] rest ].
      * injection Hrun as <- <-. repeat split; try discriminate.
        intros c [= <-]. auto.
      * destruct (Hs _ Hrun) as (H1 & H2 & H3). repeat split; auto;
          exfalso; eapply H3; eassumption.
      * injection Hrun as <- <-. repeat split; try discriminate.
        intros c [= <-]. auto.
Qed.

Lemma main_outcomes_witness :
  (forall a, fst (main 4 sample_cli sample_env fresh_state) <> Ok a) /\
  (forall c, fst (main 4 sample_cli sample_env fresh_state) = Exit c ->
             c = 0 \/ c = 1) /\
  (forall e, fst (main 4 sample_cli sample_env fresh_state) = Throw e ->
     cli_yes sample_cli = false /\
     bool_decide (clock fresh_state ∈ faults fresh_state) = true /\
     e = DriverError (clock fresh_state) /\
     trace (snd (main 4 sample_cli sample_env fresh_state)) =
       trace fresh_state ++ [EvConfirmAction]).
Proof.
  apply (main_outcomes 4 sample_cli sample_env fresh_state).
  apply surjective_pairing.
Defined.

(** X8.  [main] does nothing but report and ask until it is cleared to go
    on: when a required variable is missing, when nothing is selected, when
    both file modes are asked for, when its prompt fails or the user does
    not agree, every event is a message, the help text or the prompt, the
    service module is not loaded, no client is created, the stores and the
    files are untouched, and the process ends with a status or with the
    error of the prompt. *)
Theorem main_acts_only_when_cleared (fuel : nat) (opts : cli_opts)
    (env : environment) (s s' : state) (r : outcome unit) :
  main fuel opts env s = (r, s') ->
  cleared opts env s = false ->
  (exists evs, trace s' = trace s ++ evs /\ forallb ev_cli evs = true) /\
  src s' = src s /\ dst s' = dst s /\ files s' = files s /\
  dirs s' = dirs s /\ self s' = self s /\
  (r = Exit 0 \/ r = Exit 1 \/ r = Throw (DriverError (clock s))).
Proof.
  intros Hrun Hc. rewrite main_unfold in Hrun. unfold cleared in Hc.
  destruct (env_complete env); cbn [negb andb] in *.
  2: { injection Hrun as <- <-. repeat split; auto.
       eexists. split; reflexivity. }
  destruct (selects opts); cbn [negb andb] in *.
  2: { injection Hrun as <- <-. repeat split; auto.
       eexists. cbn [trace set_trace]. rewrite <- app_assoc.
       split; reflexivity. }
  destruct (cli_exportJson opts && cli_importJson opts); cbn [negb andb] in *.
  { injection Hrun as <- <-. repeat split; auto.
    eexists. split; reflexivity. }
  unfold bind in Hrun. rewrite main_confirmation_run in Hrun.
  destruct (cli_yes opts); [ discriminate Hc | ]. cbn [orb] in Hc.
  cbv zeta in Hrun. destruct (bool_decide (clock s ∈ faults s)).
  { injection Hrun as <- <-. repeat split; auto.
    eexists. split; reflexivity. }
  cbn [negb andb] in Hc.
  destruct (answers s) as [ | [ | ] rest ]; cbn [hd] in Hc;
    try discriminate Hc;
    injection Hrun as <- <-; repeat split; auto;
    eexists; cbn [trace set_trace set_clock set_answers];
    rewrite <- app_assoc; split; reflexivity.
Qed.

Lemma main_acts_only_when_cleared_witness :
  (exists evs,
     trace (snd (main 4 conflicting_cli sample_env fresh_state)) =
       trace fresh_state ++ evs /\ forallb ev_cli evs = true) /\
  src (snd (main 4 conflicting_cli sample_env fresh_state)) = src fresh_state /\
  dst (snd (main 4 conflicting_cli sample_env fresh_state)) = dst fresh_state /\
  files (snd (main 4 conflicting_cli sample_env fresh_state)) =
    files fresh_state /\
  dirs (snd (main 4 conflicting_cli sample_env fresh_state)) = dirs fresh_state /\
  self (snd (main 4 conflicting_cli sample_env fresh_state)) = self fresh_state /\
  (fst (main 4 conflicting_cli sample_env fresh_state) = Exit 0 \/
   fst (main 4 conflicting_cli sample_env fresh_state) = Exit 1 \/
   fst (main 4 conflicting_cli sample_env fresh_state) =
     Throw (DriverError (clock fresh_state))).
Proof.
  apply (main_acts_only_when_cleared 4 conflicting_cli sample_env fresh_state).
  - apply surjective_pairing.
  - reflexivity.
Defined.

(** X9.  Status [1] means that nothing was copied: when [main] ends the
    process with status [1], the loop over the collections was never
    started (no spinner was started, no collection was opened, counted or
    read), and the destination store and the files are what they were.
    The converse does not hold: see [main_exit_0_after_failed_copy]. *)
Theorem main_exit_1_before_copying (fuel : nat) (opts : cli_opts)
    (env : environment) (s s' : state) :
  main fuel opts env s = (Exit 1, s') ->
  (exists evs,
     trace s' = trace s ++ evs /\ forallb ev_early evs = true /\
     count_events is_spinner_start evs = 0%nat /\
     count_events is_collection_use evs = 0%nat /\
     inserted evs = [] /\ appended evs = []) /\
  dst s' = dst s /\ files s' = files s /\ dirs s' = dirs s.
Proof.
  intros Hrun.
  assert (U : untouched ev_early s s').
  { rewrite main_unfold in Hrun.
    destruct (negb (env_complete env));
      [ injection Hrun as <-; apply untouched_emit; reflexivity | ].
    destruct (negb (selects opts)); [ discriminate Hrun | ].
    destruct (cli_exportJson opts && cli_importJson opts);
      [ injection Hrun as <-; apply untouched_emit; reflexivity | ].
    unfold bind in Hrun. rewrite main_confirmation_run in Hrun.
    destruct (cli_yes opts).
    - eapply untouched_trans; [ | eapply main_service_exit_1; exact Hrun ].
      apply untouched_emit. reflexivity.
    - cbv zeta in Hrun.
      destruct (bool_decide (clock s ∈ faults s)); [ discriminate Hrun | ].
      destruct (answers s) as [ | [ | ] rest ]; try discriminate Hrun.
      eapply untouched_trans; [ | eapply main_service_exit_1; exact Hrun ].
      split; [ | repeat split ].
      exists [EvConfirmAction]. split; reflexivity. }
  destruct U as ((evs & Ht & Hp) & _ & Hd & Hf & Hdi).
  split; [ | auto ]. exists evs. split; [ exact Ht | ]. split; [ exact Hp | ].
  clear Ht. induction evs as [ | x evs IH ]; [ repeat split | ].
  cbn [forallb] in Hp. apply andb_true_iff in Hp as (Hx & Hp).
  destruct (IH Hp) as (I1 & I2 & I3 & I4).
  unfold count_events in *.
  destruct x as [ | | | | | | | | | | | | | | | | [ | | | | ] | | ];
    try discriminate Hx; cbn; auto.
Qed.

Lemma main_exit_1_before_copying_witness :
  (exists evs,
     trace (snd (main 4 conflicting_cli sample_env fresh_state)) =
       trace fresh_state ++ evs /\ forallb ev_early evs = true /\
     count_events is_spinner_start evs = 0%nat /\
     count_events is_collection_use evs = 0%nat /\
     inserted evs = [] /\ appended evs = []) /\
  dst (snd (main 4 conflicting_cli sample_env fresh_state)) = dst fresh_state /\
  files (snd (main 4 conflicting_cli sample_env fresh_state)) =
    files fresh_state /\
  dirs (snd (main 4 conflicting_cli sample_env fresh_state)) = dirs fresh_state.
Proof.
  apply (main_exit_1_before_copying 4 conflicting_cli sample_env fresh_state).
  reflexivity.
Defined.

(** A run of [main] in which reading the first collection that has
    documents fails: the copy is reported as failed, and the process still
    ends with status [0], after the message that the operation finished. *)
Example main_exit_0_after_failed_copy :
  let r := main 4 sample_cli sample_env
             (State sample_store ∅ ∅ ∅ [] [8%nat] 0 [] (self fresh_state)) in
  fst r = Exit 0 /\
  count_events (fun e => match e with EvSpinner SpFail => true | _ => false end)
    (trace (snd r)) = 1%nat /\
  last (trace (snd r)) = Some (EvLog LSuccess MsgOperationFinished).
Proof. vm_compute. repeat split. Qed.

(** ** One sink per run *)

Lemma frame_refl m s : frame m s s.
Proof. destruct m; cbn; auto. Qed.

Lemma frame_trans m s1 s2 s3 : frame m s1 s2 -> frame m s2 s3 -> frame m s1 s3.
Proof. destruct m; cbn; intuition congruence. Qed.

Lemma step_mode_refl m s : step_mode m s s.
Proof. split; [ apply step_refl | apply frame_refl ]. Qed.

Lemma step_mode_trans m s1 s2 s3 :
  step_mode m s1 s2 -> step_mode m s2 s3 -> step_mode m s1 s3.
Proof.
  intros (S1 & F1) (S2 & F2).
  split; [ eapply step_trans | eapply frame_trans ]; eassumption.
Qed.

Lemma in_mode_kept m s s' : in_mode m s -> step_mode m s s' -> in_mode m s'.
Proof.
  unfold in_mode. intros Hm ((_ & _ & _ & Hc & _) & _).
  rewrite (mode_of_config _ _ Hc). exact Hm.
Qed.

Lemma step_mode_of_strict m (P : event -> bool) s s' :
  (forall e, P e = true -> ev_mode m e = true) ->
  step true P s s' -> step_mode m s s'.
Proof.
  intros HP St. split.
  - eapply step_weaken; [ exact HP | | exact St ]. auto.
  - destruct St as (_ & _ & _ & _ & Hst).
    destruct (Hst eq_refl) as (Hd & Hf & Hdi). destruct m; cbn; auto.
Qed.

Lemma keeps_mode_of_strict {A} m (P : event -> bool) (c : M A) :
  (forall e, P e = true -> ev_mode m e = true) ->
  keeps (step true P) c -> keeps (step_mode m) c.
Proof.
  intros HP Hc s r s' Hrun. eapply step_mode_of_strict; [ exact HP | ].
  eapply Hc, Hrun.
Qed.

Lemma keeps_mode_emit m e : ev_mode m e = true -> keeps (step_mode m) (emit e).
Proof.
  intros He. apply (keeps_mode_of_strict m (fun x => ev_mode m x)); [ auto | ].
  apply keeps_emit, He.
Qed.

Lemma keeps_mode_tick m : keeps (step_mode m) tick.
Proof.
  apply (keeps_mode_of_strict m (fun x => ev_mode m x)); [ auto | ].
  apply keeps_tick.
Qed.

Lemma keeps_mode_set_dst m f :
  m <> ExportJson -> keeps (step_mode m) (modify (fun s => set_dst (f s) s)).
Proof.
  intros Hm s r s' [= <- <-]. split.
  - repeat split; try discriminate. exists []. rewrite app_nil_r.
    split; reflexivity.
  - destruct m; cbn; auto. contradiction.
Qed.

Lemma keeps_mode_set_files f :
  keeps (step_mode ExportJson) (modify (fun s => set_files (f s) s)).
Proof.
  intros s r s' [= <- <-]. split; [ | reflexivity ].
  repeat split; try discriminate. exists []. rewrite app_nil_r.
  split; reflexivity.
Qed.

Lemma keeps_mode_set_dirs f :
  keeps (step_mode ExportJson) (modify (fun s => set_dirs (f s) s)).
Proof.
  intros s r s' [= <- <-]. split; [ | reflexivity ].
  repeat split; try discriminate. exists []. rewrite app_nil_r.
  split; reflexivity.
Qed.

Ltac mode_step :=
  lazymatch goal with
  | |- keeps (step_mode _) (bind _ _) =>
      apply keeps_bind; [ apply step_mode_trans | | intros ? ]
  | |- keeps (step_mode _) (ret _) => apply keeps_ret, step_mode_refl
  | |- keeps (step_mode _) (throw _) => apply keeps_throw, step_mode_refl
  | |- keeps (step_mode _) diverge => apply keeps_diverge, step_mode_refl
  | |- keeps (step_mode _) this => apply keeps_this, step_mode_refl
  | |- keeps (step_mode _) get => apply keeps_get, step_mode_refl
  | |- keeps (step_mode _) tick => apply keeps_mode_tick
  | |- keeps (step_mode _) (emit _) => apply keeps_mode_emit; reflexivity
  | |- keeps (step_mode _) (log _ _) => apply keeps_mode_emit; reflexivity
  | |- keeps (step_mode _) (spinner _) => apply keeps_mode_emit; reflexivity
  | |- keeps (step_mode _) (if _ then _ else _) => apply keeps_if
  end.

Ltac mode_all := repeat mode_step.

Lemma ev_read_mode m e : ev_read e = true -> ev_mode m e = true.
Proof. destruct m, e; cbn; congruence. Qed.

Lemma ev_collection_mode m sd e : ev_collection sd e = true -> ev_mode m e = true.
Proof. destruct m, e; cbn; congruence. Qed.

Lemma ev_prelude_mode m e : ev_prelude e = true -> ev_mode m e = true.
Proof. destruct m, e; cbn; congruence. Qed.

Lemma is_close_mode m e : is_close e = true -> ev_mode m e = true.
Proof. destruct m, e; cbn; congruence. Qed.

Lemma keeps_mode_insertMany m name docs :
  m <> ExportJson -> keeps (step_mode m) (insertMany name docs).
Proof.
  intros Hm. unfold insertMany.
  apply keeps_bind; [ apply step_mode_trans | | intros _ ].
  { apply keeps_mode_emit. destruct m; [ reflexivity | contradiction | reflexivity ]. }
  mode_step; [ mode_step | ].
  destruct docs; mode_all. apply keeps_mode_set_dst, Hm.
Qed.

Lemma keeps_mode_exportBatchToJson batch name :
  keeps (step_mode ExportJson) (exportBatchToJson batch name).
Proof.
  unfold exportBatchToJson. mode_all.
  - apply keeps_mode_set_dirs.
  - apply keeps_mode_set_files.
Qed.

Lemma keeps_mode_importBatchFromJson name :
  keeps (step_mode ImportJson) (importBatchFromJson name).
Proof.
  unfold importBatchFromJson, log. mode_all.
  destruct (files _ !! _) as [content | ]; [ | mode_all ].
  mode_all. destruct (JSON_parse content) as [j | ]; [ | mode_all ].
  mode_step.
  { eapply keeps_mode_of_strict;
      [ apply (ev_collection_mode _ Dest) | apply (keeps_collection true Dest) ]. }
  mode_step; [ apply keeps_mode_insertMany; discriminate | ]. mode_all.
Qed.

Lemma keeps_mode_write_batch m batch name :
  keeps_from (in_mode m) (step_mode m) (write_batch batch name).
Proof.
  intros s r s' Hm Hrun. rewrite write_batch_mode in Hrun.
  unfold in_mode in Hm. rewrite Hm in Hrun. destruct m.
  - eapply keeps_mode_insertMany; [ discriminate | exact Hrun ].
  - eapply keeps_mode_exportBatchToJson; exact Hrun.
  - eapply keeps_mode_importBatchFromJson; exact Hrun.
Qed.

Ltac mode_from :=
  eapply keeps_from_bind;
    [ apply step_mode_trans | apply in_mode_kept | | intros ? ].

Ltac mode_plain := apply keeps_from_keeps.

Lemma keeps_mode_hasNext m name cursor :
  keeps (step_mode m) (hasNext name cursor).
Proof.
  eapply keeps_mode_of_strict; [ apply ev_read_mode | apply keeps_hasNext ].
Qed.

Lemma keeps_mode_copy_loop m fuel name totalDocs :
  forall cursor processed,
    keeps_from (in_mode m) (step_mode m)
      (copy_loop fuel name totalDocs cursor processed).
Proof.
  induction fuel as [ | fuel IH ]; intros cursor processed; cbn [copy_loop];
    [ mode_plain; mode_step | ].
  mode_from; [ mode_plain; apply keeps_mode_hasNext | ].
  destruct a; [ | mode_plain; mode_step ].
  mode_from; [ mode_plain; mode_step | ].
  mode_from.
  { mode_plain. eapply keeps_mode_of_strict;
      [ apply ev_read_mode | apply keeps_read_batch ]. }
  mode_from; [ apply keeps_mode_write_batch | ].
  mode_from; [ mode_plain; mode_step | ]. apply IH.
Qed.

Lemma keeps_mode_copyCollection m fuel name :
  keeps_from (in_mode m) (step_mode m) (copyCollection fuel name).
Proof.
  unfold copyCollection, countDocuments, find.
  mode_from; [ mode_plain; mode_all | ].
  mode_from; [ mode_plain; mode_all | ].
  mode_from; [ apply keeps_mode_copy_loop | ].
  mode_plain. mode_step.
Qed.

Lemma keeps_mode_process_collection m fuel name :
  keeps_from (in_mode m) (step_mode m) (process_collection fuel name).
Proof.
  unfold process_collection.
  mode_from; [ mode_plain; mode_step | ].
  mode_from.
  { mode_plain. eapply keeps_mode_of_strict;
      [ apply (ev_collection_mode _ Source) | apply keeps_collection ]. }
  mode_from.
  { mode_plain. eapply keeps_mode_of_strict;
      [ apply (ev_collection_mode _ Dest) | apply keeps_collection ]. }
  mode_from; [ mode_plain; mode_step | ].
  destruct (dryRun _); [ mode_plain; mode_step | apply keeps_mode_copyCollection ].
Qed.

Lemma keeps_mode_copyCollections m fuel :
  keeps_from (in_mode m) (step_mode m) (copyCollections fuel).
Proof.
  unfold copyCollections.
  mode_from.
  { mode_plain. eapply keeps_mode_of_strict;
      [ apply ev_prelude_mode | apply keeps_listCollections ]. }
  mode_from; [ mode_plain; mode_step | ].
  mode_from.
  { mode_plain. apply keeps_if; [ mode_step | ].
    eapply keeps_mode_of_strict; [ apply ev_prelude_mode | apply keeps_confirm ]. }
  destruct (negb _); [ mode_plain; mode_step | ].
  mode_from; [ mode_plain; mode_step | ].
  eapply keeps_from_try_finally;
    [ apply step_mode_trans | apply in_mode_kept | | ].
  - eapply keeps_from_try_catch;
      [ apply step_mode_trans | apply in_mode_kept | | intros e ].
    + mode_from; [ | mode_plain; mode_step ].
      eapply keeps_from_for_of;
        [ apply step_mode_refl | apply step_mode_trans | apply in_mode_kept | ].
      intros name. apply keeps_mode_process_collection.
    + mode_plain. mode_all.
  - mode_plain. eapply keeps_mode_of_strict;
      [ apply is_close_mode | apply keeps_closeClients ].
Qed.

(** X10.  An export never writes to the destination store: in a run of
    [copyCollections] with [exportJson] set, whatever fails and however the
    run ends, and also when [importJson] is set as well, [insertMany] is
    never called, no file is read, and the destination store is what it
    was. *)
Theorem export_never_inserts (fuel : nat) (s s' : state) (r : outcome unit) :
  exportJson (self s) = true ->
  copyCollections fuel s = (r, s') ->
  dst s' = dst s /\
  exists evs,
    trace s' = trace s ++ evs /\ inserted evs = [] /\
    count_events is_store_write evs = 0%nat /\
    count_events is_file_read evs = 0%nat.
Proof.
  intros He Hrun.
  assert (Hm : in_mode ExportJson s) by (unfold in_mode, mode_of; rewrite He; reflexivity).
  destruct (keeps_mode_copyCollections ExportJson fuel s r s' Hm Hrun)
    as (((evs & Ht & Hp) & _) & Hd).
  split; [ exact Hd | ]. exists evs. split; [ exact Ht | ].
  split; [ | split ].
  - revert Hp. apply skipped; [ reflexivity | ].
    intros e t. destruct e; cbn; congruence.
  - apply (count_none _ (ev_mode ExportJson)); [ | exact Hp ].
    intros e. destruct e; cbn; congruence.
  - apply (count_none _ (ev_mode ExportJson)); [ | exact Hp ].
    intros e. destruct e; cbn; congruence.
Qed.

Lemma export_never_inserts_witness :
  dst (snd (copyCollections 4 export_state)) = dst export_state /\
  exists evs,
    trace (snd (copyCollections 4 export_state)) = trace export_state ++ evs /\
    inserted evs = [] /\
    count_events is_store_write evs = 0%nat /\
    count_events is_file_read evs = 0%nat.
Proof.
  apply (export_never_inserts 4 export_state
           (snd (copyCollections 4 export_state))
           (fst (copyCollections 4 export_state))).
  - reflexivity.
  - apply surjective_pairing.
Defined.

(** X11.  Only an export writes files: in a run of [copyCollections]
    without [exportJson], whatever fails and however the run ends, no
    directory is created, nothing is appended to a file, and the files and
    the directories are what they were; without [importJson] either, the
    file system is not even looked at. *)
Theorem files_written_only_by_export (fuel : nat) (s s' : state)
    (r : outcome unit) :
  exportJson (self s) = false ->
  copyCollections fuel s = (r, s') ->
  files s' = files s /\ dirs s' = dirs s /\
  exists evs,
    trace s' = trace s ++ evs /\ appended evs = [] /\
    count_events is_mkdir evs = 0%nat /\
    (importJson (self s) = false -> count_events is_file_access evs = 0%nat).
Proof.
  intros He Hrun. destruct (importJson (self s)) eqn:Hi.
  - assert (Hm : in_mode ImportJson s)
      by (unfold in_mode, mode_of; rewrite He, Hi; reflexivity).
    destruct (keeps_mode_copyCollections ImportJson fuel s r s' Hm Hrun)
      as (((evs & Ht & Hp) & _) & Hf & Hd).
    split; [ exact Hf | ]. split; [ exact Hd | ]. exists evs.
    split; [ exact Ht | ]. split; [ | split ]; [ | | discriminate ].
    + revert Hp. apply skipped; [ reflexivity | ].
      intros e t. destruct e; cbn; congruence.
    + apply (count_none _ (ev_mode ImportJson)); [ | exact Hp ].
      intros e. destruct e; cbn; congruence.
  - assert (Hm : in_mode Live s)
      by (unfold in_mode, mode_of; rewrite He, Hi; reflexivity).
    destruct (keeps_mode_copyCollections Live fuel s r s' Hm Hrun)
      as (((evs & Ht & Hp) & _) & Hf & Hd).
    split; [ exact Hf | ]. split; [ exact Hd | ]. exists evs.
    split; [ exact Ht | ]. split; [ | split ]; [ | | intros _ ].
    + revert Hp. apply skipped; [ reflexivity | ].
      intros e t. destruct e; cbn; congruence.
    + apply (count_none _ (ev_mode Live)); [ | exact Hp ].
      intros e. destruct e; cbn; congruence.
    + apply (count_none _ (ev_mode Live)); [ | exact Hp ].
      intros e. destruct e; cbn; congruence.
Qed.

Lemma files_written_only_by_export_witness :
  files (snd (copyCollections 4 sample_state)) = files sample_state /\
  dirs (snd (copyCollections 4 sample_state)) = dirs sample_state /\
  exists evs,
    trace (snd (copyCollections 4 sample_state)) = trace sample_state ++ evs /\
    appended evs = [] /\
    count_events is_mkdir evs = 0%nat /\
    (importJson (self sample_state) = false ->
     count_events is_file_access evs = 0%nat).
Proof.
  apply (files_written_only_by_export 4 sample_state
           (snd (copyCollections 4 sample_state))
           (fst (copyCollections 4 sample_state))).
  - reflexivity.
  - apply surjective_pairing.
Defined.

(** ** A live copy that fails on the way *)

Lemma hasNext_value name cursor s more s1 :
  hasNext name cursor s = (Ok more, s1) ->
  more = match cursor with [] => false | _ :: _ => true end.
Proof.
  cbv beta iota zeta delta [hasNext bind emit modify tick ret].
  destruct (bool_decide _); [ discriminate | ].
  intros [= <- _]. reflexivity.
Qed.

(** The inner loop moves documents from the cursor to the batch: it loses
    none and adds none, whatever fails. *)
Lemma read_batch_conserves b name cursor :
  forall i batch s batch' cursor' s',
    read_batch b name i cursor batch s = (Ok (batch', cursor'), s') ->
    batch' ++ cursor' = batch ++ cursor.
Proof.
  induction cursor as [ | d rest IH ]; intros i batch s batch' cursor' s' H;
    cbn [read_batch] in H; destruct (Z.ltb i b);
    try (injection H as <- <- _; reflexivity);
    unfold bind at 1 in H;
    destruct (hasNext name _ s) as [[more | e | c | ] s1] eqn:E;
    try discriminate H.
  - destruct more; injection H as <- <- _; reflexivity.
  - destruct more; [ | injection H as <- <- _; reflexivity ].
    unfold bind at 1, emit at 1, modify at 1 in H.
    unfold bind at 1 in H.
    destruct (tick _) as [[[] | e | c | ] s2]; try discriminate H.
    apply IH in H. rewrite H, <- app_assoc. reflexivity.
Qed.

Lemma insertMany_cases name ds s r s' :
  insertMany name (JArr ds) s = (r, s') ->
  trace s' = trace s ++ [EvInsertMany name (JArr ds)] /\
  ((r = Ok tt /\
    dst s' = <[name := default [] (dst s !! name) ++ ds]> (dst s)) \/
   ((exists e, r = Throw e) /\ dst s' = dst s)).
Proof.
  cbv beta iota zeta delta [insertMany bind emit modify tick ret].
  destruct (bool_decide _); intros [= <- <-]; (split; [ reflexivity | ]).
  - right. split; [ eexists; reflexivity | reflexivity ].
  - left. split; reflexivity.
Qed.

Lemma step_dst P s s' : step true P s s' -> dst s' = dst s.
Proof. intros (_ & _ & _ & _ & Hst). apply (Hst eq_refl). Qed.

Lemma in_mode_step m strict P s s' :
  in_mode m s -> step strict P s s' -> in_mode m s'.
Proof.
  unfold in_mode. intros Hm (_ & _ & _ & Hc & _).
  rewrite (mode_of_config _ _ Hc). exact Hm.
Qed.

Lemma step_events strict P s s' :
  step strict P s s' ->
  exists evs, trace s' = trace s ++ evs /\ forallb P evs = true.
Proof. intros (H & _). exact H. Qed.

Lemma inserted_read evs : forallb ev_read evs = true -> inserted evs = [].
Proof.
  apply skipped; [ reflexivity | ].
  intros e t. destruct e; cbn; congruence.
Qed.

(** What the loop of a live copy hands to [insertMany], whatever fails:
    batches that, one after the other, make up the first documents of the
    cursor, and all of them when the loop returns. *)
Lemma copy_loop_live_prefix fuel name totalDocs :
  forall cursor processed s r s',
    in_mode Live s ->
    copy_loop fuel name totalDocs cursor processed s = (r, s') ->
    exists bs evs k,
      trace s' = trace s ++ evs /\
      inserted evs = map JArr bs /\
      concat bs = take k cursor /\
      (forall other, other <> name -> dst s' !! other = dst s !! other) /\
      (r = Ok tt ->
       concat bs = cursor /\
       default [] (dst s' !! name) = default [] (dst s !! name) ++ cursor).
Proof.
  induction fuel as [ | fuel IH ]; intros cursor processed s r s' Hm Hrun.
  { injection Hrun as <- <-. exists [], [], 0%nat. rewrite take_0, app_nil_r.
    repeat split; congruence. }
  assert (Hstop : forall s0 evs,
            trace s0 = trace s ++ evs -> forallb ev_read evs = true ->
            dst s0 = dst s -> (forall a, r <> Ok a) ->
            exists bs evs k,
              trace s0 = trace s ++ evs /\
              inserted evs = map JArr bs /\
              concat bs = take k cursor /\
              (forall other, other <> name -> dst s0 !! other = dst s !! other) /\
              (r = Ok tt ->
               concat bs = cursor /\
               default [] (dst s0 !! name) =
                 default [] (dst s !! name) ++ cursor)).
  { intros s0 evs Ht Hq Hd Hr. exists [], evs, 0%nat.
    rewrite take_0, Hd, (inserted_read _ Hq).
    repeat split; try assumption; exfalso; eapply (Hr tt); eassumption. }
  cbn [copy_loop] in Hrun. unfold bind at 1 in Hrun.
  destruct (hasNext name cursor s) as [[more | e | c | ] s1] eqn:E1;
    pose proof (keeps_hasNext true _ _ _ _ _ E1) as St1;
    pose proof (step_dst _ _ _ St1) as Hd1;
    destruct (step_events _ _ _ _ St1) as (evs1 & Ht1 & Hq1);
    try (injection Hrun as <- <-; eapply Hstop;
         [ exact Ht1 | exact Hq1 | exact Hd1 | discriminate ]).
  apply hasNext_value in E1 as ->. destruct cursor as [ | d rest ].
  { injection Hrun as <- <-. exists [], evs1, 0%nat.
    rewrite Hd1, (inserted_read _ Hq1), app_nil_r.
    repeat split; assumption. }
  unfold bind at 1, this at 1 in Hrun. unfold bind at 1 in Hrun.
  destruct (read_batch (batchSize (self s1)) name 0 (d :: rest) [] s1)
    as [[[batch cursor'] | e | c | ] s2] eqn:E2;
    pose proof (keeps_read_batch true _ _ _ _ _ _ _ _ E2) as St2;
    pose proof (step_dst _ _ _ St2) as Hd2;
    destruct (step_events _ _ _ _ St2) as (evs2 & Ht2 & Hq2);
    assert (Hq12 : forallb ev_read (evs1 ++ evs2) = true)
      by (rewrite forallb_app, Hq1, Hq2; reflexivity);
    assert (Ht12 : trace s2 = trace s ++ evs1 ++ evs2)
      by (rewrite Ht2, Ht1, <- app_assoc; reflexivity);
    try (injection Hrun as <- <-; eapply Hstop;
         [ exact Ht12 | exact Hq12 | congruence | discriminate ]).
  apply read_batch_conserves in E2. cbn [app] in E2. cbn [fst snd] in Hrun.
  assert (Hm2 : in_mode Live s2).
  { eapply in_mode_step; [ | exact St2 ]. eapply in_mode_step; eassumption. }
  unfold bind at 1 in Hrun. rewrite write_batch_mode in Hrun.
  unfold in_mode in Hm2. rewrite Hm2 in Hrun.
  destruct (insertMany name (JArr batch) s2) as [[[] | e | c | ] s3] eqn:E3;
    pose proof (keeps_insertMany _ _ _ _ _ E3) as St3;
    apply insertMany_cases in E3
      as (Ht3 & [(Hr & Hd3) | ((e' & Hr) & Hd3)]);
    try discriminate Hr.
  - unfold bind at 1, spinner at 1, emit at 1, modify at 1 in Hrun.
    apply IH in Hrun as (bs & evs5 & k & Ht5 & Hins5 & Hc5 & Ho5 & Hok5).
    2: { unfold in_mode. cbn [self set_trace].
         eapply (in_mode_step Live); [ exact Hm2 | exact St3 ]. }
    cbn [dst trace set_trace] in Ht5, Ho5, Hok5.
    exists (batch :: bs),
      ((evs1 ++ evs2) ++
       EvInsertMany name (JArr batch) ::
       EvSpinner (SpProgress name (processed + length batch) totalDocs) ::
       evs5),
      (length batch + k)%nat.
    rewrite <- E2. split; [ | split; [ | split; [ | split ] ] ].
    + rewrite Ht5, Ht3, Ht12, <- !app_assoc. reflexivity.
    + rewrite inserted_app, (inserted_read _ Hq12).
      cbn [app inserted map]. rewrite Hins5. reflexivity.
    + cbn [concat]. rewrite Hc5, take_app_add. reflexivity.
    + intros other Hne. rewrite Ho5, Hd3 by exact Hne.
      rewrite lookup_insert_ne by congruence. rewrite Hd2, Hd1. reflexivity.
    + intros Hr'. destruct (Hok5 Hr') as (Hc & Hd).
      cbn [concat]. rewrite Hc, Hd, Hd3, lookup_insert_eq, Hd2, Hd1.
      cbn [default]. rewrite app_assoc. split; reflexivity.
  - injection Hrun as <- <-.
    exists [batch], ((evs1 ++ evs2) ++ [EvInsertMany name (JArr batch)]),
      (length batch).
    rewrite <- E2. split; [ | split; [ | split; [ | split ] ] ].
    + rewrite Ht3, Ht12, <- !app_assoc. reflexivity.
    + rewrite inserted_app, (inserted_read _ Hq12). reflexivity.
    + cbn [concat]. rewrite app_nil_r, take_app_length. reflexivity.
    + intros other Hne. rewrite Hd3, Hd2, Hd1. reflexivity.
    + intros H. discriminate H.
Qed.

(** X12.  A live copy of a collection hands each document to [insertMany]
    at most once, in the order of the source and without skipping one,
    whatever fails on the way: however [copyCollection] ends (it returns,
    a call of the driver fails, the loop does not end), the batches given
    to [insertMany], put one after the other, are the first [k] documents
    of the source collection, for some [k]; the other collections of the
    destination are what they were; and when it returns, all the documents
    were handed over and the destination collection holds what it held
    followed by them. *)
Theorem live_copy_is_a_prefix (fuel : nat) (name : string) (s s' : state)
    (r : outcome unit) :
  exportJson (self s) = false -> importJson (self s) = false ->
  copyCollection fuel name s = (r, s') ->
  exists bs evs k,
    trace s' = trace s ++ evs /\
    inserted evs = map JArr bs /\
    concat bs = take k (docs_of (src s) name) /\
    (forall other, other <> name -> dst s' !! other = dst s !! other) /\
    (r = Ok tt ->
     concat bs = docs_of (src s) name /\
     default [] (dst s' !! name) =
       default [] (dst s !! name) ++ docs_of (src s) name).
Proof.
  intros He Hi Hrun.
  unfold copyCollection, countDocuments, find in Hrun.
  rewrite !bind_assoc in Hrun.
  erewrite bind_ok in Hrun by reflexivity. cbv beta iota zeta in Hrun.
  rewrite !bind_assoc in Hrun. unfold bind at 1 in Hrun.
  destruct (tick _) as [[[] | e | c | ] s1] eqn:E1;
    pose proof (keeps_tick true ev_read _ _ _ E1) as St1;
    pose proof (step_dst _ _ _ St1) as Hd1; cbn [dst set_trace] in Hd1;
    destruct (step_events _ _ _ _ St1) as (evs1 & Ht1 & Hq1);
    cbn [trace set_trace] in Ht1;
    try (injection Hrun as <- <-;
         exists [], (EvCount name :: evs1), 0%nat;
         rewrite take_0, Hd1, Ht1, <- app_assoc;
         cbn [inserted app]; rewrite (inserted_read _ Hq1);
         repeat split; congruence).
  repeat (rewrite ?bind_assoc in Hrun;
          erewrite bind_ok in Hrun by reflexivity;
          cbv beta iota zeta in Hrun).
  assert (Hsrc : src s1 = src s).
  { destruct St1 as (_ & Hs & _). exact Hs. }
  cbn [src set_trace] in Hrun. rewrite Hsrc in Hrun.
  unfold bind at 1 in Hrun.
  match type of Hrun with
  | context [copy_loop ?f ?n ?t ?c ?p ?s2] =>
      destruct (copy_loop f n t c p s2) as [[[] | e | c0 | ] s3] eqn:E3;
      apply copy_loop_live_prefix in E3
        as (bs & evs3 & k & Ht3 & Hins3 & Hc3 & Ho3 & Hok3)
  end;
    try (unfold in_mode; cbn [self set_trace];
         eapply (in_mode_step Live); [ | exact St1 ];
         unfold in_mode, mode_of; cbn [self set_trace]; rewrite He, Hi;
         reflexivity);
    cbn [dst trace set_trace] in Ht3, Ho3, Hok3;
    assert (Ho' : forall other, other <> name -> dst s3 !! other = dst s !! other)
      by (intros other Hne; rewrite (Ho3 other Hne), Hd1; reflexivity);
    injection Hrun as <- <-.
  - exists bs,
      ((EvCount name :: evs1) ++ (EvFind name :: evs3) ++
       [EvLog LSuccess (MsgFinished name (length (docs_of (src s) name)))]),
      k.
    cbn [dst trace set_trace]. split; [ | split; [ | split; [ | split ] ] ]; try assumption.
    + rewrite Ht3, Ht1, <- !app_assoc. reflexivity.
    + rewrite !inserted_app. cbn [inserted app].
      rewrite (inserted_read _ Hq1), Hins3, app_nil_r. reflexivity.
    + intros _. destruct (Hok3 eq_refl) as (Hc & Hd). rewrite Hd, Hd1.
      split; [ exact Hc | reflexivity ].
  - exists bs, ((EvCount name :: evs1) ++ EvFind name :: evs3), k.
    split; [ | split; [ | split; [ | split ] ] ]; try assumption;
      try (intros Hr; discriminate Hr).
    + rewrite Ht3, Ht1, <- !app_assoc. reflexivity.
    + rewrite !inserted_app. cbn [inserted app].
      rewrite (inserted_read _ Hq1), Hins3. reflexivity.
  - exists bs, ((EvCount name :: evs1) ++ EvFind name :: evs3), k.
    split; [ | split; [ | split; [ | split ] ] ]; try assumption;
      try (intros Hr; discriminate Hr).
    + rewrite Ht3, Ht1, <- !app_assoc. reflexivity.
    + rewrite !inserted_app. cbn [inserted app].
      rewrite (inserted_read _ Hq1), Hins3. reflexivity.
  - exists bs, ((EvCount name :: evs1) ++ EvFind name :: evs3), k.
    split; [ | split; [ | split; [ | split ] ] ]; try assumption;
      try (intros Hr; discriminate Hr).
    + rewrite Ht3, Ht1, <- !app_assoc. reflexivity.
    + rewrite !inserted_app. cbn [inserted app].
      rewrite (inserted_read _ Hq1), Hins3. reflexivity.
Qed.

Lemma live_copy_is_a_prefix_witness :
  exists bs evs k,
    trace (snd (copyCollection 4 "users" abort_state)) =
      trace abort_state ++ evs /\
    inserted evs = map JArr bs /\
    concat bs = take k (docs_of (src abort_state) "users") /\
    (forall other, other <> "users" ->
       dst (snd (copyCollection 4 "users" abort_state)) !! other =
       dst abort_state !! other) /\
    (fst (copyCollection 4 "users" abort_state) = Ok tt ->
     concat bs = docs_of (src abort_state) "users" /\
     default [] (dst (snd (copyCollection 4 "users" abort_state)) !! "users") =
       default [] (dst abort_state !! "users") ++
       docs_of (src abort_state) "users").
Proof.
  apply (live_copy_is_a_prefix 4 "users" abort_state
           (snd (copyCollection 4 "users" abort_state))
           (fst (copyCollection 4 "users" abort_state))).
  - reflexivity.
  - reflexivity.
  - apply surjective_pairing.
Defined.

(** ** Progress reports *)

Lemma reports_app t1 t2 : reports (t1 ++ t2) = reports t1 ++ reports t2.
Proof.
  induction t1 as [ | e t1 IH ]; [ reflexivity | ].
  destruct e as [ | | | | | | | | | | | | | | | | [ | | | | ] | | ];
    cbn [app reports]; rewrite IH; reflexivity.
Qed.

Lemma quiet_reports evs : forallb quiet evs = true -> reports evs = [].
Proof.
  apply skipped; [ reflexivity | ].
  intros [ | | | | | | | | | | | | | | | | [ | | | | ] | | ] t; cbn;
    congruence.
Qed.

Lemma quiet_within name total evs :
  forallb quiet evs = true -> forallb (progress_within name total) evs = true.
Proof.
  rewrite !forallb_forall. intros H e He. specialize (H e He).
  destruct e as [ | | | | | | | | | | | | | | | | [ | | | | ] | | ];
    try reflexivity. discriminate H.
Qed.

Lemma ev_read_quiet e : ev_read e = true -> quiet e = true.
Proof. destruct e; cbn; congruence. Qed.

Lemma ev_collection_quiet sd e : ev_collection sd e = true -> quiet e = true.
Proof. destruct e as [ | | | | | [ | ] | | | | | | | | | | | | | ], sd; cbn; congruence. Qed.

Lemma keeps_quiet_insertMany name docs :
  keeps (step false quiet) (insertMany name docs).
Proof.
  unfold insertMany. keeps_all. destruct docs; keeps_all.
  apply keeps_modify. intros s0. repeat split; try discriminate.
  exists []. rewrite app_nil_r. split; reflexivity.
Qed.

Lemma keeps_quiet_write_batch batch name :
  keeps (step false quiet) (write_batch batch name).
Proof.
  unfold write_batch. keeps_all.
  - unfold exportBatchToJson. keeps_all;
      apply keeps_modify; intros s0; repeat split; try discriminate;
      exists []; rewrite app_nil_r; split; reflexivity.
  - unfold importBatchFromJson, log. keeps_all.
    destruct (files _ !! _) as [content | ]; [ | keeps_all ].
    keeps_all. destruct (JSON_parse content) as [j | ]; [ | keeps_all ].
    apply step_bind; [ | intros _ ].
    { eapply keeps_sub; [ apply (ev_collection_quiet Dest) |
                        | apply (keeps_collection false Dest) ]. auto. }
    apply step_bind; [ apply keeps_quiet_insertMany | intros _ ]. keeps_all.
  - apply keeps_quiet_insertMany.
Qed.

Lemma copy_loop_progress fuel name total :
  forall cursor processed s r s',
    (processed + length cursor)%nat = total ->
    copy_loop fuel name total cursor processed s = (r, s') ->
    exists evs,
      trace s' = trace s ++ evs /\
      forallb (progress_within name total) evs = true /\
      (cursor = [] -> reports evs = []) /\
      (r = Ok tt -> cursor <> [] -> last (reports evs) = Some total).
Proof.
  induction fuel as [ | fuel IH ]; intros cursor processed s r s' Hinv Hrun.
  { injection Hrun as <- <-. exists []. rewrite app_nil_r.
    repeat split. discriminate. }
  assert (Hstop : forall s0 evs,
            trace s0 = trace s ++ evs -> forallb quiet evs = true ->
            (forall a, r <> Ok a) ->
            exists evs,
              trace s0 = trace s ++ evs /\
              forallb (progress_within name total) evs = true /\
              (cursor = [] -> reports evs = []) /\
              (r = Ok tt -> cursor <> [] -> last (reports evs) = Some total)).
  { intros s0 evs Ht Hq Hr. exists evs. split; [ exact Ht | ].
    split; [ apply quiet_within, Hq | ].
    split; [ intros _; apply quiet_reports, Hq | ].
    intros ->. destruct (Hr tt eq_refl). }
  cbn [copy_loop] in Hrun. unfold bind at 1 in Hrun.
  destruct (hasNext name cursor s) as [[more | e | c | ] s1] eqn:E1;
    pose proof (keeps_hasNext true _ _ _ _ _ E1) as St1;
    apply (step_weaken true true _ quiet) in St1; auto using ev_read_quiet;
    destruct (step_events _ _ _ _ St1) as (evs1 & Ht1 & Hq1);
    try (injection Hrun as <- <-; eapply Hstop; [ exact Ht1 | exact Hq1 | discriminate ]).
  apply hasNext_value in E1 as ->. destruct cursor as [ | d rest ].
  { injection Hrun as <- <-. exists evs1. split; [ exact Ht1 | ].
    split; [ apply quiet_within, Hq1 | ].
    split; [ intros _; apply quiet_reports, Hq1 | ].
    intros _ Hne. destruct (Hne eq_refl). }
  unfold bind at 1, this at 1 in Hrun. unfold bind at 1 in Hrun.
  destruct (read_batch (batchSize (self s1)) name 0 (d :: rest) [] s1)
    as [[[batch cursor'] | e | c | ] s2] eqn:E2;
    pose proof (keeps_read_batch true _ _ _ _ _ _ _ _ E2) as St2;
    apply (step_weaken true true _ quiet) in St2; auto using ev_read_quiet;
    destruct (step_events _ _ _ _ St2) as (evs2 & Ht2 & Hq2);
    assert (Hq12 : forallb quiet (evs1 ++ evs2) = true)
      by (rewrite forallb_app, Hq1, Hq2; reflexivity);
    assert (Ht12 : trace s2 = trace s ++ evs1 ++ evs2)
      by (rewrite Ht2, Ht1, <- app_assoc; reflexivity);
    try (injection Hrun as <- <-; eapply Hstop; [ exact Ht12 | exact Hq12 | discriminate ]).
  apply read_batch_conserves in E2. cbn [app] in E2. cbn [fst snd] in Hrun.
  unfold bind at 1 in Hrun.
  destruct (write_batch batch name s2) as [[[] | e | c | ] s3] eqn:E3;
    pose proof (keeps_quiet_write_batch _ _ _ _ _ E3) as St3;
    destruct (step_events _ _ _ _ St3) as (evs3 & Ht3 & Hq3);
    assert (Hq123 : forallb quiet ((evs1 ++ evs2) ++ evs3) = true)
      by (rewrite forallb_app, Hq12, Hq3; reflexivity);
    assert (Ht123 : trace s3 = trace s ++ (evs1 ++ evs2) ++ evs3)
      by (rewrite Ht3, Ht12, <- !app_assoc; reflexivity);
    try (injection Hrun as <- <-; eapply Hstop; [ exact Ht123 | exact Hq123 | discriminate ]).
  unfold bind at 1, spinner at 1, emit at 1, modify at 1 in Hrun.
  assert (Hlen : (length batch + length cursor')%nat = S (length rest)).
  { rewrite <- length_app, E2. reflexivity. }
  cbn [length] in Hinv.
  apply IH in Hrun as (evs5 & Ht5 & Hp5 & Hnil5 & Hlast5); [ | lia ].
  cbn [trace set_trace] in Ht5.
  exists (((evs1 ++ evs2) ++ evs3) ++
          EvSpinner (SpProgress name (processed + length batch) total) :: evs5).
  split; [ rewrite Ht5, Ht123, <- !app_assoc; reflexivity | ].
  split; [ | split; [ discriminate | ] ].
  - rewrite forallb_app, (quiet_within _ _ _ Hq123). cbn [forallb andb].
    rewrite Hp5, andb_true_r. cbn [progress_within].
    rewrite String.eqb_refl, Nat.eqb_refl. cbn [andb].
    apply Nat.leb_le. lia.
  - intros Hr _. rewrite reports_app, (quiet_reports _ Hq123).
    cbn [app reports]. rewrite last_cons.
    destruct cursor' as [ | d' rest' ].
    + rewrite (Hnil5 eq_refl). cbn [last length] in *. f_equal. lia.
    + rewrite (Hlast5 Hr) by discriminate. reflexivity.
Qed.

(** X13.  What the spinner is told while a collection is copied, in every
    mode and whatever fails: each progress report names the collection,
    gives the count taken before the cursor was opened as the total, and
    reports a number of processed documents that does not exceed it; and
    when [copyCollection] returns for a collection that has documents, the
    last report is that all of them were processed. *)
Theorem progress_reports_within_total (fuel : nat) (name : string)
    (s s' : state) (r : outcome unit) :
  copyCollection fuel name s = (r, s') ->
  exists evs,
    trace s' = trace s ++ evs /\
    forallb (progress_within name (length (docs_of (src s) name))) evs = true /\
    (r = Ok tt -> docs_of (src s) name <> [] ->
     last (reports evs) = Some (length (docs_of (src s) name))).
Proof.
  intros Hrun.
  assert (Hstop : forall s0 evs,
            trace s0 = trace s ++ evs -> forallb quiet evs = true ->
            (forall a, r <> Ok a) ->
            exists evs,
              trace s0 = trace s ++ evs /\
              forallb (progress_within name (length (docs_of (src s) name)))
                evs = true /\
              (r = Ok tt -> docs_of (src s) name <> [] ->
               last (reports evs) = Some (length (docs_of (src s) name)))).
  { intros s0 evs Ht Hq Hr. exists evs. split; [ exact Ht | ].
    split; [ apply quiet_within, Hq | ].
    intros ->. destruct (Hr tt eq_refl). }
  unfold copyCollection, countDocuments, find in Hrun.
  rewrite !bind_assoc in Hrun.
  erewrite bind_ok in Hrun by reflexivity. cbv beta iota zeta in Hrun.
  rewrite !bind_assoc in Hrun. unfold bind at 1 in Hrun.
  destruct (tick _) as [[[] | e | c | ] s1] eqn:E1;
    pose proof (keeps_tick true quiet _ _ _ E1) as St1;
    destruct (step_events _ _ _ _ St1) as (evs1 & Ht1 & Hq1);
    cbn [trace set_trace] in Ht1;
    assert (Ht1' : trace s1 = trace s ++ EvCount name :: evs1)
      by (rewrite Ht1, <- app_assoc; reflexivity);
    assert (Hq1' : forallb quiet (EvCount name :: evs1) = true)
      by (cbn [forallb quiet]; exact Hq1);
    try (injection Hrun as <- <-; eapply Hstop; [ exact Ht1' | exact Hq1' | discriminate ]).
  repeat (rewrite ?bind_assoc in Hrun;
          erewrite bind_ok in Hrun by reflexivity;
          cbv beta iota zeta in Hrun).
  assert (Hsrc : src s1 = src s).
  { destruct St1 as (_ & Hs & _). exact Hs. }
  cbn [src set_trace] in Hrun. rewrite Hsrc in Hrun.
  unfold bind at 1 in Hrun.
  match type of Hrun with
  | context [copy_loop ?f ?n ?t ?c ?p ?s2] =>
      destruct (copy_loop f n t c p s2) as [[[] | e | c0 | ] s3] eqn:E3;
      apply copy_loop_progress in E3 as (evs3 & Ht3 & Hp3 & _ & Hlast3);
      try reflexivity
  end;
    cbn [trace set_trace] in Ht3;
    injection Hrun as <- <-.
  - exists ((EvCount name :: evs1) ++ (EvFind name :: evs3) ++
            [EvLog LSuccess (MsgFinished name (length (docs_of (src s) name)))]).
    cbn [trace set_trace]. rewrite Ht3, Ht1'.
    split; [ rewrite <- !app_assoc; reflexivity | ].
    split.
    + rewrite !forallb_app, (quiet_within _ _ _ Hq1'). cbn [forallb andb].
      rewrite Hp3. reflexivity.
    + intros _ Hne. rewrite !reports_app, (quiet_reports _ Hq1').
      cbn [app reports]. rewrite app_nil_r. apply Hlast3; auto.
  - exists ((EvCount name :: evs1) ++ EvFind name :: evs3).
    rewrite Ht3, Ht1'. split; [ rewrite <- !app_assoc; reflexivity | ].
    split; [ | discriminate ].
    rewrite !forallb_app, (quiet_within _ _ _ Hq1'). cbn [forallb andb].
    exact Hp3.
  - exists ((EvCount name :: evs1) ++ EvFind name :: evs3).
    rewrite Ht3, Ht1'. split; [ rewrite <- !app_assoc; reflexivity | ].
    split; [ | discriminate ].
    rewrite !forallb_app, (quiet_within _ _ _ Hq1'). cbn [forallb andb].
    exact Hp3.
  - exists ((EvCount name :: evs1) ++ EvFind name :: evs3).
    rewrite Ht3, Ht1'. split; [ rewrite <- !app_assoc; reflexivity | ].
    split; [ | discriminate ].
    rewrite !forallb_app, (quiet_within _ _ _ Hq1'). cbn [forallb andb].
    exact Hp3.
Qed.

Lemma progress_reports_within_total_witness :
  exists evs,
    trace (snd (copyCollection 4 "users" sample_state)) =
      trace sample_state ++ evs /\
    forallb (progress_within "users"
               (length (docs_of (src sample_state) "users"))) evs = true /\
    (fst (copyCollection 4 "users" sample_state) = Ok tt ->
     docs_of (src sample_state) "users" <> [] ->
     last (reports evs) = Some (length (docs_of (src sample_state) "users"))).
Proof.
  apply (progress_reports_within_total 4 "users" sample_state
           (snd (copyCollection 4 "users" sample_state))
           (fst (copyCollection 4 "users" sample_state))).
  apply surjective_pairing.
Defined.

(** ** An import without its file *)

Lemma not_found_loop e : ev_loop e = true -> is_file_not_found e = false.
Proof.
  destruct e as [ | | | | | | | | | | | | | | | [ | | | ] [ | | | | | | | | | | | ]
                | | | ]; cbn; congruence.
Qed.

Lemma missing_inv_stable name b ins0 reads0 warns0 dst0 files0 bs s s' :
  missing_inv name b ins0 reads0 warns0 dst0 files0 bs s ->
  step true ev_loop s s' ->
  missing_inv name b ins0 reads0 warns0 dst0 files0 bs s'.
Proof.
  intros (Hf & Hbs & He & Hi & Hfi & Hnone & Hd & Hins & Hrd & Hw)
         ((evs & Ht & Hp) & _ & Hf' & Hc & Hst).
  destruct (Hst eq_refl) as (Hd' & Hfi' & _).
  unfold config in Hc. injection Hc as Hc1 Hc2 Hc3 Hc4 Hc5 Hc6 Hc7 Hc8 Hc9 Hc10.
  unfold missing_inv, file_of in *.
  rewrite Hf', Hd', Hfi', Ht, inserted_app, (inserted_loop _ Hp), app_nil_r,
    !count_events_app, (count_loop _ _ file_read_loop Hp),
    (count_loop _ _ not_found_loop Hp), !Nat.add_0_r.
  repeat split; congruence.
Qed.

Lemma missing_inv_write name b ins0 reads0 warns0 dst0 files0 bs batch s :
  missing_inv name b ins0 reads0 warns0 dst0 files0 bs s ->
  exists s', write_batch batch name s = (Ok tt, s') /\
             missing_inv name b ins0 reads0 warns0 dst0 files0 (bs ++ [batch]) s'.
Proof.
  intros (Hf & Hbs & He & Hi & Hfi & Hnone & Hd & Hins & Hrd & Hw).
  unfold write_batch. run_pure. rewrite He, Hi.
  unfold importBatchFromJson. run_pure. run_pure. run_pure.
  cbn [files set_trace]. rewrite Hfi. unfold file_of in Hnone. rewrite Hnone.
  eexists. split; [ reflexivity | ].
  unfold missing_inv, file_of.
  cbn [faults batchSize exportJson importJson outputDir set_trace trace dst
       files self].
  rewrite !inserted_app, !count_events_app, Hins, Hrd, Hw, length_app.
  cbn [inserted count_events List.filter is_file_read is_file_not_found
       length app].
  rewrite !app_nil_r, !Nat.add_0_r.
  repeat split; try assumption; try reflexivity. lia.
Qed.

(** X14.  An import for which the file does not exist is not an error: in
    a run in which no call fails, [copyCollection] returns, it has warned
    once for every batch read from the source collection ([⌈n / b⌉]
    times), it has read no file and inserted nothing, the destination store
    and the files are what they were, and its last word is that the
    collection is finished. *)
Theorem import_without_file (name : string) (fuel : nat) (s : state) :
  faults s = [] ->
  exportJson (self s) = false -> importJson (self s) = true ->
  0 < batchSize (self s) ->
  (length (docs_of (src s) name) < fuel)%nat ->
  files s !! file_of (self s) name = None ->
  exists s',
    copyCollection fuel name s = (Ok tt, s') /\
    dst s' = dst s /\ files s' = files s /\
    inserted (trace s') = inserted (trace s) /\
    count_events is_file_read (trace s') =
      count_events is_file_read (trace s) /\
    count_events is_file_not_found (trace s') =
      (count_events is_file_not_found (trace s) +
       ceil_div (length (docs_of (src s) name))
                (Z.to_nat (batchSize (self s))))%nat /\
    last (trace s') =
      Some (EvLog LSuccess (MsgFinished name (length (docs_of (src s) name)))).
Proof.
  intros Hf He Hi Hb Hfuel Hnone.
  assert (Hbpos : (0 < Z.to_nat (batchSize (self s)))%nat) by lia.
  rewrite copyCollection_unfold by exact Hf.
  destruct (copy_loop_ok name (length (docs_of (src s) name))
              (Z.to_nat (batchSize (self s)))
              (missing_inv name (Z.to_nat (batchSize (self s)))
                 (inserted (trace s)) (count_events is_file_read (trace s))
                 (count_events is_file_not_found (trace s)) (dst s) (files s))
              Hbpos) with (fuel := fuel) (cursor := docs_of (src s) name)
                          (processed := 0%nat) (bs := @nil (list json))
                          (s := counted name s)
    as (s2 & E & _ & _ & _ & _ & Hfi & _ & Hd & Hins & Hrd & Hw).
  - intros bs s0 H. apply H.
  - intros bs s0 H. apply H.
  - intros bs s0 s0'. apply missing_inv_stable.
  - intros bs batch s0 H _. apply missing_inv_write, H.
  - exact Hfuel.
  - unfold missing_inv, counted, file_of.
    cbn [faults batchSize exportJson importJson outputDir set_trace set_clock
         trace dst files self length].
    rewrite inserted_app, !count_events_app.
    cbn [inserted count_events List.filter is_file_read is_file_not_found
         length].
    rewrite !app_nil_r, !Nat.add_0_r.
    repeat split; try assumption; try reflexivity. lia.
  - destruct (batches_spec _ Hbpos _ (docs_of (src s) name) eq_refl)
      as (_ & Hcount & _).
    eexists. split; [ apply (logged_ok _ _ _ _ _ _ E) | ].
    cbn [trace dst files set_trace app] in *.
    rewrite inserted_app, !count_events_app, Hins, Hrd, Hw, Hcount, last_snoc.
    cbn [inserted count_events List.filter is_file_read is_file_not_found
         length].
    rewrite !app_nil_r, !Nat.add_0_r. repeat split; assumption.
Qed.

Lemma import_without_file_witness :
  exists s',
    copyCollection 4 "users" unfiled_state = (Ok tt, s') /\
    dst s' = dst unfiled_state /\ files s' = files unfiled_state /\
    inserted (trace s') = inserted (trace unfiled_state) /\
    count_events is_file_read (trace s') =
      count_events is_file_read (trace unfiled_state) /\
    count_events is_file_not_found (trace s') =
      (count_events is_file_not_found (trace unfiled_state) +
       ceil_div (length (docs_of (src unfiled_state) "users"))
                (Z.to_nat (batchSize (self unfiled_state))))%nat /\
    last (trace s') =
      Some (EvLog LSuccess
              (MsgFinished "users"
                 (length (docs_of (src unfiled_state) "users")))).
Proof.
  apply (import_without_file "users" 4 unfiled_state);
    first [ reflexivity | cbn; lia ].
Defined.

(** ** An import from a file that is not an array *)






(** ** An export followed by an import *)

(** X16.  What was exported in one batch comes back: when a collection
    that fits in one batch is exported to a file that was not there, and a
    service in import mode with the same output directory then runs on the
    files the export left, the destination collection receives the
    documents of the exported collection, in their order, once, provided
    that the collection of that name in the source of the import has
    documents and fits in one batch too, since the import is driven by its
    cursor (no call fails in the two runs; the documents are JSON values,
    which [JSON.stringify] writes as they are). *)
Theorem export_then_import (name : string) (fuel fuel' : nat) (s t : state) :
  faults s = [] -> exportJson (self s) = true ->
  (0 < length (docs_of (src s) name))%nat ->
  Z.of_nat (length (docs_of (src s) name)) <= batchSize (self s) ->
  (length (docs_of (src s) name) < fuel)%nat ->
  files s !! file_of (self s) name = None ->
  faults t = [] -> exportJson (self t) = false -> importJson (self t) = true ->
  destDb (self t) = true ->
  outputDir (self t) = outputDir (self s) ->
  files t = files (snd (copyCollection fuel name s)) ->
  (0 < length (docs_of (src t) name))%nat ->
  Z.of_nat (length (docs_of (src t) name)) <= batchSize (self t) ->
  (length (docs_of (src t) name) < fuel')%nat ->
  exists s' t',
    copyCollection fuel name s = (Ok tt, s') /\
    files s' !! file_of (self s) name =
      Some (JSON_stringify (JArr (docs_of (src s) name))) /\
    copyCollection fuel' name t = (Ok tt, t') /\
    default [] (dst t' !! name) =
      default [] (dst t !! name) ++ docs_of (src s) name.
Proof.
  intros Hf He Hn Hb Hfuel Hnone Hf' He' Hi' Hdb Hdir Hfiles Hn' Hb' Hfuel'.
  destruct (copyCollection_export_run name fuel s) as (s' & E & Hfi & _);
    try assumption; [ lia | ].
  rewrite batches_single in Hfi by lia. rewrite Hnone in Hfi.
  unfold exported in Hfi. cbn [map concat default app] in Hfi.
  rewrite app_nil_r in Hfi.
  rewrite E in Hfiles. cbn [snd] in Hfiles.
  assert (Hfile : files t !! file_of (self t) name =
                  Some (JSON_stringify (JArr (docs_of (src s) name)))).
  { rewrite Hfiles, Hfi. unfold file_of. rewrite Hdir.
    apply lookup_insert_eq. }
  destruct (copyCollection_import_run name fuel' t
              (JSON_stringify (JArr (docs_of (src s) name)))
              (docs_of (src s) name))
    as (t' & E' & _ & _ & Hd); try assumption;
    [ lia | apply JSON_parse_stringify | ].
  rewrite batches_single in Hd by lia.
  cbn [length replicate concat] in Hd. rewrite app_nil_r in Hd.
  exists s', t'. repeat split; try assumption.
  rewrite Hfi. apply lookup_insert_eq.
Qed.

Lemma export_then_import_witness :
  exists s' t',
    copyCollection 4 "tags" export_state = (Ok tt, s') /\
    files s' !! file_of (self export_state) "tags" =
      Some (JSON_stringify (JArr (docs_of (src export_state) "tags"))) /\
    copyCollection 4 "tags" restore_state = (Ok tt, t') /\
    default [] (dst t' !! "tags") =
      default [] (dst restore_state !! "tags") ++
      docs_of (src export_state) "tags".
Proof.
  apply (export_then_import "tags" 4 4 export_state restore_state);
    first [ vm_compute; reflexivity | vm_compute; lia
          | vm_compute; discriminate ].
Defined.

(** ** The directory of an export *)

Lemma mkdir_loop e : ev_loop e = true -> is_mkdir e = false.
Proof. destruct e; cbn; congruence. Qed.

Lemma mkdir_inv_stable b dir dirs0 mk0 bs s s' :
  mkdir_inv b dir dirs0 mk0 bs s -> step true ev_loop s s' ->
  mkdir_inv b dir dirs0 mk0 bs s'.
Proof.
  intros (Hf & Hbs & He & Ho & Hm)
         ((evs & Ht & Hp) & _ & Hf' & Hc & Hst).
  destruct (Hst eq_refl) as (_ & _ & Hdi).
  unfold config in Hc. injection Hc as Hc1 Hc2 Hc3 Hc4 Hc5 Hc6 Hc7 Hc8 Hc9 Hc10.
  unfold mkdir_inv.
  rewrite Hf', Hdi, Ht, count_events_app, (count_loop _ _ mkdir_loop Hp),
    Nat.add_0_r.
  repeat split; try congruence; exact Hm.
Qed.

Lemma mkdir_inv_write name b dir dirs0 mk0 bs batch s :
  mkdir_inv b dir dirs0 mk0 bs s ->
  exists s', write_batch batch name s = (Ok tt, s') /\
             mkdir_inv b dir dirs0 mk0 (bs ++ [batch]) s'.
Proof.
  intros (Hf & Hbs & He & Ho & Hm).
  unfold write_batch. run_pure. rewrite He.
  unfold exportBatchToJson. run_pure. run_pure. run_pure.
  cbn [dirs set_trace]. unfold path_resolve. rewrite Ho.
  destruct (bool_decide (dir ∈ dirs s)) eqn:Hin.
  - apply bool_decide_eq_true in Hin. run_pure. run_pure. run_tick Hf.
    eexists. split; [ reflexivity | ].
    unfold mkdir_inv.
    cbn [faults batchSize exportJson outputDir set_files set_clock set_trace
         set_dirs trace dirs self].
    rewrite !count_events_app.
    cbn [count_events List.filter is_mkdir length].
    rewrite ?Nat.add_0_r.
    do 4 (split; [ assumption | ]).
    destruct bs as [ | batch0 bs ]; cbn [app]; destruct Hm as (Hd & Hk);
      rewrite Hd in Hin |- *; rewrite Hk.
    + split.
      * apply set_eq. intros x. rewrite elem_of_union, elem_of_singleton.
        split; [ auto | intros [-> | Hx]; assumption ].
      * rewrite bool_decide_eq_true_2 by exact Hin. lia.
    + split; reflexivity.
  - apply bool_decide_eq_false in Hin.
    run_with (run_pure; run_tick Hf; reflexivity).
    run_pure. run_tick Hf.
    eexists. split; [ reflexivity | ].
    unfold mkdir_inv.
    cbn [faults batchSize exportJson outputDir set_files set_clock set_trace
         set_dirs trace dirs self].
    rewrite !count_events_app.
    cbn [count_events List.filter is_mkdir length].
    rewrite ?Nat.add_0_r.
    do 4 (split; [ assumption | ]).
    destruct bs as [ | batch0 bs ]; cbn [app]; destruct Hm as (Hd & Hk);
      rewrite Hd in Hin |- *; rewrite Hk.
    + split; [ reflexivity | ].
      rewrite bool_decide_eq_false_2 by exact Hin. reflexivity.
    + exfalso. apply Hin, elem_of_union. left. apply elem_of_singleton.
      reflexivity.
Qed.

(** X17.  An export creates its output directory when it is not there, and
    only then: in a run in which no call fails, for a collection that has
    documents, [copyCollection] returns, the directory exists afterwards,
    [mkdirSync] was called once when the directory was absent and not at
    all when it was there, however many batches were written. *)
Theorem export_creates_directory (name : string) (fuel : nat) (s : state) :
  faults s = [] -> exportJson (self s) = true ->
  0 < batchSize (self s) ->
  docs_of (src s) name <> [] ->
  (length (docs_of (src s) name) < fuel)%nat ->
  exists s',
    copyCollection fuel name s = (Ok tt, s') /\
    dirs s' = {[outputDir (self s)]} ∪ dirs s /\
    count_events is_mkdir (trace s') =
      (count_events is_mkdir (trace s) +
       if bool_decide (outputDir (self s) ∈ dirs s) then 0 else 1)%nat.
Proof.
  intros Hf He Hb Hne Hfuel.
  assert (Hbpos : (0 < Z.to_nat (batchSize (self s)))%nat) by lia.
  rewrite copyCollection_unfold by exact Hf.
  destruct (copy_loop_ok name (length (docs_of (src s) name))
              (Z.to_nat (batchSize (self s)))
              (mkdir_inv (Z.to_nat (batchSize (self s))) (outputDir (self s))
                 (dirs s) (count_events is_mkdir (trace s)))
              Hbpos) with (fuel := fuel) (cursor := docs_of (src s) name)
                          (processed := 0%nat) (bs := @nil (list json))
                          (s := counted name s)
    as (s2 & E & _ & _ & _ & _ & Hm).
  - intros bs s0 H. apply H.
  - intros bs s0 H. apply H.
  - intros bs s0 s0'. apply mkdir_inv_stable.
  - intros bs batch s0 H _. apply mkdir_inv_write, H.
  - exact Hfuel.
  - unfold mkdir_inv, counted.
    cbn [faults batchSize exportJson outputDir set_trace set_clock trace dirs
         self].
    rewrite count_events_app. cbn [count_events List.filter is_mkdir length].
    rewrite Nat.add_0_r. repeat split; try assumption. lia.
  - eexists. split; [ apply (logged_ok _ _ _ _ _ _ E) | ].
    cbn [app] in Hm.
    destruct (docs_of (src s) name) as [ | d rest ]; [ contradiction | ].
    rewrite batches_cons in Hm by exact Hbpos. destruct Hm as (Hd & Hk).
    cbn [trace dirs set_trace]. rewrite count_events_app, Hk.
    cbn [count_events List.filter is_mkdir length]. rewrite Nat.add_0_r.
    split; [ exact Hd | reflexivity ].
Qed.

Lemma export_creates_directory_witness :
  exists s',
    copyCollection 4 "users" export_state = (Ok tt, s') /\
    dirs s' = {[outputDir (self export_state)]} ∪ dirs export_state /\
    count_events is_mkdir (trace s') =
      (count_events is_mkdir (trace export_state) +
       if bool_decide (outputDir (self export_state) ∈ dirs export_state)
       then 0 else 1)%nat.
Proof.
  apply (export_creates_directory "users" 4 export_state);
    first [ vm_compute; reflexivity | vm_compute; discriminate
          | vm_compute; lia ].
Defined.

(** ** The names given on the command line *)

Lemma chars_app s1 s2 :
  list_ascii_of_string (s1 +:+ s2) =
  list_ascii_of_string s1 ++ list_ascii_of_string s2.
Proof.
  induction s1 as [ | a s1 IH ]; [ reflexivity | ].
  cbn. rewrite <- IH. reflexivity.
Qed.






















(** ** What [main] hands to the service *)

(** X20.  The batch size the service gets from [main]: it is never [0]; it
    is the size given on the command line when that is a positive number;
    and it is negative exactly when the command line gives no positive
    size and the configured [BATCH_SIZE] is a negative number, which is
    then passed on as it is. *)
Theorem main_batch_size (opts : cli_opts) (env : environment) :
  let b := batchSize (constructor (service_options opts env)) in
  b <> 0 /\
  (forall z, cli_batchSize opts = JInt z -> 0 < z -> b = z) /\
  (b < 0 <->
   (forall z, cli_batchSize opts = JInt z -> z <= 0) /\
   env_BATCH_SIZE env = JInt b /\ b < 0).
Proof.
  cbv zeta. unfold constructor, service_options, cli_batch, num_or.
  cbn [batchSize opt_batchSize].
  destruct (cli_batchSize opts) as [ | | z ], (env_BATCH_SIZE env) as [ | | e ];
    try destruct (Z.ltb_spec 0 z);
    repeat match goal with
           | |- context [Z.eqb ?x 0] => destruct (Z.eqb_spec x 0)
           end;
    (split; [ lia | ]);
    (split; [ intros z0 [= <-] Hz; lia || reflexivity | ]);
    (split;
     [ intros Hb; try lia;
       (split; [ intros z0 [= <-]; lia | split; [ reflexivity | lia ] ])
     | intros (Hz & He & Hb); try lia; try discriminate He;
       try (specialize (Hz _ eq_refl); lia) ]).
Qed.

Lemma main_batch_size_witness :
  let b := batchSize (constructor (service_options sample_cli sample_env)) in
  b <> 0 /\
  (forall z, cli_batchSize sample_cli = JInt z -> 0 < z -> b = z) /\
  (b < 0 <->
   (forall z, cli_batchSize sample_cli = JInt z -> z <= 0) /\
   env_BATCH_SIZE sample_env = JInt b /\ b < 0).
Proof. exact (main_batch_size sample_cli sample_env). Defined.



(** ** Loading the service *)

(** X22.  [dynamicImportCopyService] tries the second path only when the
    first import fails, and fails only when both do; its error then is the
    one it makes itself, whatever the two imports threw. *)
Theorem dynamicImportCopyService_outcomes (s : state) :
  (bool_decide (clock s ∈ faults s) = false ->
   exists s',
     dynamicImportCopyService s = (Ok tt, s') /\
     trace s' = trace s ++ [EvImport]) /\
  (bool_decide (clock s ∈ faults s) = true ->
   bool_decide (S (clock s) ∈ faults s) = false ->
   exists s',
     dynamicImportCopyService s = (Ok tt, s') /\
     trace s' = trace s ++ [EvImport; EvImport]) /\
  (bool_decide (clock s ∈ faults s) = true ->
   bool_decide (S (clock s) ∈ faults s) = true ->
   exists s',
     dynamicImportCopyService s = (Throw LoadError, s') /\
     trace s' = trace s ++ [EvImport; EvImport]).
Proof.
  unfold dynamicImportCopyService, try_catch.
  cbv beta iota zeta delta [bind emit modify tick throw].
  cbn [clock faults trace set_trace set_clock].
  split; [ | split ].
  - intros ->. eexists. split; reflexivity.
  - intros H1 H2. rewrite H1. cbv beta iota.
    cbn [clock faults trace set_trace set_clock]. rewrite H2.
    eexists. split; [ reflexivity | ].
    cbn [trace set_trace set_clock]. rewrite <- app_assoc. reflexivity.
  - intros H1 H2. rewrite H1. cbv beta iota.
    cbn [clock faults trace set_trace set_clock]. rewrite H2.
    eexists. split; [ reflexivity | ].
    cbn [trace set_trace set_clock]. rewrite <- app_assoc. reflexivity.
Qed.

Lemma dynamicImportCopyService_outcomes_witness :
  exists s',
    dynamicImportCopyService (failing_state 0) = (Ok tt, s') /\
    trace s' = trace (failing_state 0) ++ [EvImport; EvImport].
Proof.
  apply (proj1 (proj2 (dynamicImportCopyService_outcomes (failing_state 0))));
    reflexivity.
Defined.

(** ** A batch size that is not positive *)

(** X23.  With a batch size that is not positive, the export of a
    collection that has documents never ends: every round reads nothing,
    writes an empty array and finds the cursor where it was, so that
    [copyCollection] does not return, whatever the number of rounds it is
    given (in a run in which no call fails). *)
Theorem export_with_nonpositive_batchSize_never_ends (name : string)
    (s : state) :
  faults s = [] -> exportJson (self s) = true ->
  batchSize (self s) <= 0 ->
  docs_of (src s) name <> [] ->
  forall fuel, fst (copyCollection fuel name s) = Diverge.
Proof.
  intros Hf He Hb Hne fuel.
  rewrite copyCollection_unfold by exact Hf.
  pose proof (nonpositive_batchSize_never_ends name
                (length (docs_of (src s) name)) fuel
                (docs_of (src s) name) 0%nat (counted name s) Hne Hf Hb He)
    as H.
  unfold bind.
  destruct (copy_loop fuel name (length (docs_of (src s) name))
              (docs_of (src s) name) 0 (counted name s)) as [r s1].
  cbn [fst] in H. rewrite H. reflexivity.
Qed.

Lemma export_with_nonpositive_batchSize_never_ends_witness :
  fst (copyCollection 50 "users"
         (initial (connected (constructor
            (Options None (JInt (-5)) None (Some true) (Some true) None None)))))
  = Diverge.
Proof.
  apply (export_with_nonpositive_batchSize_never_ends "users"
           (initial (connected (constructor
              (Options None (JInt (-5)) None (Some true) (Some true) None None)))));
    first [ reflexivity | discriminate ].
Defined.

(** ** A whole job in live mode *)

Lemma live_ready_step fuel strict P s s' :
  live_ready fuel s -> step strict P s s' -> live_ready fuel s'.
Proof.
  intros (Hf & Hdry & He & Hi & Hs & Hd & Hb & Hfuel) (_ & Hsrc & Hf' & Hc & _).
  unfold config in Hc. injection Hc as Hc1 Hc2 Hc3 Hc4 Hc5 Hc6 Hc7 Hc8 Hc9 Hc10.
  unfold live_ready. rewrite Hsrc.
  repeat split; try congruence. exact Hfuel.
Qed.

Lemma processed_names_copy evs :
  forallb ev_copy evs = true -> processed_names evs = [].
Proof.
  apply skipped; [ reflexivity | ].
  intros [ | | | | | | | | | | | | | | | | [ | | | | ] | | ] t; cbn;
    congruence.
Qed.

(** One round of the loop of [copyCollections]. *)
Lemma process_collection_live fuel name s :
  live_ready fuel s ->
  exists s',
    process_collection fuel name s = (Ok tt, s') /\
    step false ev_any s s' /\ files s' = files s /\
    processed_names (trace s') = processed_names (trace s) ++ [name] /\
    default [] (dst s' !! name) =
      default [] (dst s !! name) ++ docs_of (src s) name /\
    (forall other, other <> name -> dst s' !! other = dst s !! other).
Proof.
  intros HR. pose proof HR as (Hf & Hdry & He & Hi & Hs & Hd & Hb & Hfuel).
  unfold process_collection, spinner. run_pure.
  unfold collection.
  run_with (run_pure; cbn [self set_trace]; rewrite Hs; reflexivity).
  run_with (run_pure; cbn [self set_trace]; rewrite Hd; reflexivity).
  run_pure. cbn [self set_trace]. rewrite Hdry.
  match goal with
  | |- context [copyCollection fuel name ?s1] =>
      assert (St : step true ev_any s s1);
      [ repeat split; eexists; split;
        [ cbn [trace set_trace]; rewrite <- !app_assoc; reflexivity
        | reflexivity ]
      | set (s0 := s1) in *;
        assert (Ht0 : trace s0 =
                      trace s ++ [EvSpinner (SpProcessing name);
                                  EvCollection Source name;
                                  EvCollection Dest name])
          by (cbn [s0 trace set_trace]; rewrite <- !app_assoc; reflexivity);
        assert (Hsrc0 : src s0 = src s) by reflexivity;
        assert (Hdst0 : dst s0 = dst s) by reflexivity;
        assert (Hfiles0 : files s0 = files s) by reflexivity;
        clearbody s0 ]
  end.
  pose proof (live_ready_step _ _ _ _ _ HR St) as HR0.
  pose proof HR0 as (Hf0 & Hdry0 & He0 & Hi0 & Hs0 & Hd0 & Hb0 & Hfuel0).
  destruct (copyCollection_live_run name fuel s0 Hf0 He0 Hi0 Hb0 (Hfuel0 name))
    as (s' & E & _ & Hdst & Hfiles).
  pose proof (keeps_copyCollection _ _ _ _ _ E) as St'.
  assert (Hothers : forall other, other <> name ->
                      dst s' !! other = dst s0 !! other).
  { pose proof E as E'. rewrite copyCollection_unfold in E' by exact Hf0.
    unfold bind in E'.
    destruct (copy_loop fuel name (length (docs_of (src s0) name))
                (docs_of (src s0) name) 0 (counted name s0))
      as [[[] | e | c | ] s2] eqn:E2; try discriminate E'.
    injection E' as <-. cbn [dst set_trace].
    apply copy_loop_live_prefix in E2 as (_ & _ & _ & _ & _ & _ & Ho & _);
      [ exact Ho | ].
    unfold in_mode, mode_of, counted. cbn [self set_trace set_clock].
    rewrite He0, Hi0. reflexivity. }
  exists s'. split; [ exact E | ].
  split.
  { eapply step_trans;
      [ eapply step_weaken; [ | | exact St ]; auto
      | eapply step_weaken; [ | | exact St' ]; auto ]. }
  destruct St' as ((evs & Ht & Hp) & _).
  split; [ congruence | ].
  split.
  { rewrite Ht, Ht0, !processed_names_app, (processed_names_copy _ Hp).
    cbn [processed_names]. rewrite app_nil_r. reflexivity. }
  split; [ rewrite Hdst, Hdst0, Hsrc0; reflexivity | ].
  intros other Hne. rewrite (Hothers other Hne), Hdst0. reflexivity.
Qed.

Lemma copies_of_cons n plan store name :
  copies_of (n :: plan) store name =
  (if String.eqb n name then docs_of store n else []) ++
  copies_of plan store name.
Proof. reflexivity. Qed.

(** The loop of [copyCollections]. *)
Lemma for_of_live fuel plan :
  forall s,
    live_ready fuel s ->
    exists s',
      for_of plan (process_collection fuel) s = (Ok tt, s') /\
      step false ev_any s s' /\ files s' = files s /\
      processed_names (trace s') = processed_names (trace s) ++ plan /\
      (forall name,
         default [] (dst s' !! name) =
           default [] (dst s !! name) ++ copies_of plan (src s) name).
Proof.
  induction plan as [ | n plan IH ]; intros s HR.
  - exists s. split; [ reflexivity | ]. split; [ apply step_refl | ].
    split; [ reflexivity | ]. split; [ rewrite app_nil_r; reflexivity | ].
    intros name. unfold copies_of. cbn [map concat]. rewrite app_nil_r.
    reflexivity.
  - destruct (process_collection_live fuel n s HR)
      as (s1 & E1 & St1 & Hf1 & Hn1 & Hd1 & Ho1).
    destruct (IH s1 (live_ready_step _ _ _ _ _ HR St1))
      as (s' & E & St & Hf & Hn & Hd).
    exists s'. cbn [for_of]. split; [ run_with (exact E1); exact E | ].
    split; [ eapply step_trans; eassumption | ].
    split; [ congruence | ].
    split; [ rewrite Hn, Hn1, <- app_assoc; reflexivity | ].
    intros name. rewrite Hd, copies_of_cons.
    assert (Hsrc : src s1 = src s) by (destruct St1 as (_ & H & _); exact H).
    rewrite Hsrc. destruct (String.eqb_spec n name) as [ -> | Hne ].
    + rewrite Hd1, <- app_assoc. reflexivity.
    + rewrite (Ho1 name) by congruence. reflexivity.
Qed.

(** X24.  A whole job in live mode, in a run in which no call fails: for a
    connected service with [yes] set, [copyCollections] returns; it has
    processed the collections of the plan, in the order of the plan; every
    collection of the destination holds what it held followed by the
    documents of the source collection of that name, once for each time the
    plan names it, so that a name given twice is copied twice; no file was
    touched; and the run ended with the report of success followed by the
    closing of the clients. *)
Theorem copyCollections_copies_the_plan (fuel : nat) (s : state) :
  live_ready fuel s -> yes (self s) = true ->
  exists s' evs,
    copyCollections fuel s = (Ok tt, s') /\
    processed_names (trace s') =
      processed_names (trace s) ++
      resolve (collections (self s)) (map fst (src s)) /\
    (forall name,
       default [] (dst s' !! name) =
         default [] (dst s !! name) ++
         copies_of (resolve (collections (self s)) (map fst (src s)))
                   (src s) name) /\
    files s' = files s /\
    trace s' = trace s ++ evs ++ EvSpinner SpSucceed :: closes (self s).
Proof.
  intros HR Hyes.
  pose proof HR as (Hf & Hdry & He & Hi & Hs & Hd & Hb & Hfuel).
  unfold copyCollections, listCollections.
  rewrite !bind_assoc. run_pure. rewrite Hs. rewrite !bind_assoc. run_pure.
  rewrite !bind_assoc. run_pure. rewrite !bind_assoc. run_tick Hf.
  rewrite !bind_assoc. run_pure. rewrite !bind_assoc. run_pure.
  run_pure. run_pure.
  cbn [self src clock set_self set_collections set_clock set_trace yes].
  rewrite Hyes. run_pure. cbn [negb]. unfold spinner at 1. run_pure.
  cbn [src set_clock set_trace].
  set (plan := resolve (collections (self s)) (map fst (src s))).
  match goal with
  | |- context [try_finally _ closeClients ?s1] =>
      assert (St : step true ev_any s s1);
      [ repeat split; eexists; split;
        [ cbn [trace set_trace set_clock set_self];
          rewrite <- !app_assoc; reflexivity
        | reflexivity ]
      | set (s0 := s1) in *;
        assert (Ht0 : trace s0 =
                      trace s ++ [EvListCollections; EvSpinner SpStart])
          by (cbn [s0 trace set_trace set_clock set_self];
              rewrite <- !app_assoc; reflexivity);
        assert (Hsrc0 : src s0 = src s) by reflexivity;
        assert (Hdst0 : dst s0 = dst s) by reflexivity;
        assert (Hfiles0 : files s0 = files s) by reflexivity;
        clearbody s0 ]
  end.
  destruct (for_of_live fuel plan s0 (live_ready_step _ _ _ _ _ HR St))
    as (s1 & E1 & St1 & Hf1 & Hn1 & Hd1).
  unfold try_finally, try_catch.
  erewrite bind_ok by exact E1. unfold spinner, emit, modify.
  destruct (closeClients_ok (set_trace (trace s1 ++ [EvSpinner SpSucceed]) s1))
    as (s2 & E2 & Ht2 & _ & Hd2 & Hf2 & _).
  rewrite E2. cbn [trace dst files self set_trace] in Ht2, Hd2, Hf2.
  destruct St1 as ((evs1 & Ht1 & _) & _ & _ & Hc1 & _).
  destruct St as (_ & _ & _ & Hc0 & _).
  exists s2, ([EvListCollections; EvSpinner SpStart] ++ evs1).
  split; [ reflexivity | ].
  split.
  { rewrite Ht2, !processed_names_app, Hn1, Ht0, !processed_names_app.
    replace (processed_names (closes (self s1))) with (@nil string)
      by (unfold closes; destruct (sourceClient _), (destClient _); reflexivity).
    cbn [processed_names]. rewrite !app_nil_r. reflexivity. }
  split.
  { intros name. rewrite Hd2, Hd1, Hdst0, Hsrc0. reflexivity. }
  split; [ congruence | ].
  rewrite Ht2, Ht1, Ht0, <- !app_assoc. cbn [app].
  replace (closes (self s1)) with (closes (self s)); [ reflexivity | ].
  unfold closes. unfold config in Hc0, Hc1.
  injection Hc0 as _ _ _ _ _ _ A1 A2 _ _. injection Hc1 as _ _ _ _ _ _ B1 B2 _ _.
  rewrite B1, B2, A1, A2. reflexivity.
Qed.

Lemma copyCollections_copies_the_plan_witness :
  exists s' evs,
    copyCollections 4 sample_state = (Ok tt, s') /\
    processed_names (trace s') =
      processed_names (trace sample_state) ++
      resolve (collections (self sample_state)) (map fst (src sample_state)) /\
    (forall name,
       default [] (dst s' !! name) =
         default [] (dst sample_state !! name) ++
         copies_of (resolve (collections (self sample_state))
                            (map fst (src sample_state)))
                   (src sample_state) name) /\
    files s' = files sample_state /\
    trace s' =
      trace sample_state ++ evs ++
      EvSpinner SpSucceed :: closes (self sample_state).
Proof.
  apply (copyCollections_copies_the_plan 4 sample_state).
  - unfold live_ready. repeat split; try reflexivity.
    intros name. unfold sample_state, initial, sample_store. cbn [src docs_of].
    repeat (destruct (String.eqb _ name); [ cbn; lia | ]). cbn. lia.
  - reflexivity.
Defined.
